(** * DbgModelClientEx.h: marshaling, argument packs, lifetime guard, iteration

    A shallow embedding of the parts of [DbgModelCppLib/DbgModelClientEx.h]
    that convert native values to and from data-model objects, match dynamic
    argument packs against C++ signatures, guard native instances with a
    shared liveness flag and adapt native sequences to [IModelIterator] and
    [IIndexableConcept].

    C++ exceptions are values of [exception]; a computation that may throw is
    a [result].  Undefined behaviour of the C++ program (dereferencing a
    pointer or iterator that designates no element) is the outcome
    [Undefined]. *)

From Stdlib Require Import ZArith List String Bool Arith Lia.
Import ListNotations.

Local Open Scope Z_scope.

(** ** Status codes and exceptions *)

Module Errors.

(** [HRESULT] is a signed 32-bit integer; the constants are the ones of the
    Windows headers, written from their bit patterns. *)
Definition HRESULT := Z.

Definition HRESULT_of_bits (u : Z) : HRESULT :=
  if u <? 2 ^ 31 then u else u - 2 ^ 32.

Definition S_OK : HRESULT := 0.
Definition E_FAIL : HRESULT := HRESULT_of_bits 0x80004005.
Definition E_INVALIDARG : HRESULT := HRESULT_of_bits 0x80070057.
Definition E_OUTOFMEMORY : HRESULT := HRESULT_of_bits 0x8007000E.
Definition E_BOUNDS : HRESULT := HRESULT_of_bits 0x8000000B.
Definition E_NOTIMPL : HRESULT := HRESULT_of_bits 0x80004001.
Definition E_UNEXPECTED : HRESULT := HRESULT_of_bits 0x8000FFFF.
Definition E_ILLEGAL_METHOD_CALL : HRESULT := HRESULT_of_bits 0x8000000E.
Definition E_NOT_SET : HRESULT := HRESULT_of_bits 0x80070490.
Definition DISP_E_TYPEMISMATCH : HRESULT := HRESULT_of_bits 0x80020005.

Definition FAILED (hr : HRESULT) : bool := hr <? 0.
Definition SUCCEEDED (hr : HRESULT) : bool := 0 <=? hr.

(** The exception classes the library throws or catches, by dynamic type.
    [std_exception] stands for every other class derived from
    [std::exception] and [non_std_exception] for a thrown object of any
    other type.  [object_detached], [unexpected_error], [illegal_operation]
    and [not_set] derive from [std::runtime_error], [not_implemented] from
    [std::logic_error], [hr_exception] from [std::exception]. *)
Inductive exception : Type :=
| std_invalid_argument (what : string)
| std_bad_alloc
| std_range_error (what : string)
| not_implemented (what : string)
| unexpected_error (what : string)
| hr_exception (hr : HRESULT) (what : string)
| illegal_operation (what : string)
| not_set (what : string)
| object_detached (what : string)
| std_exception (what : string)
| non_std_exception.

(** The default constructors of the library's exception classes. *)
Definition object_detached_default : exception :=
  object_detached "Attempt to access a detached object".
Definition not_implemented_default : exception := not_implemented "Not implemented".
Definition unexpected_error_default : exception := unexpected_error "Unexpected error".
Definition not_set_default : exception := not_set "Not set".

(** Outcome of a C++ computation. *)
Inductive result (A : Type) : Type :=
| Ok (a : A)
| Throw (e : exception)
| Undefined.

Arguments Ok {A} a.
Arguments Throw {A} e.
Arguments Undefined {A}.

Definition bind {A B : Type} (m : result A) (k : A -> result B) : result B :=
  match m with
  | Ok a => k a
  | Throw e => Throw e
  | Undefined => Undefined
  end.

(** [Exceptions::ThrowHr]: the exception thrown for a failed status code;
    [msg] is the display string of the error object, empty when there is
    none. *)
Definition ThrowHr (hr : HRESULT) (msg : string) : exception :=
  if (hr =? E_INVALIDARG) || (hr =? DISP_E_TYPEMISMATCH) then std_invalid_argument msg
  else if hr =? E_OUTOFMEMORY then std_bad_alloc
  else if hr =? E_BOUNDS then std_range_error msg
  else if hr =? E_NOTIMPL then not_implemented msg
  else if hr =? E_UNEXPECTED then unexpected_error msg
  else if hr =? E_ILLEGAL_METHOD_CALL then illegal_operation msg
  else if hr =? E_NOT_SET then not_set msg
  else hr_exception hr msg.

(** [CheckHr(hr)]. *)
Definition CheckHr (hr : HRESULT) : result unit :=
  if FAILED hr then Throw (ThrowHr hr EmptyString) else Ok tt.

End Errors.

Export Errors.

Notation "x <- m ;; k" := (bind m (fun x => k))
  (at level 61, m at next level, right associativity).
Notation "m ;;; k" := (bind m (fun _ => k))
  (at level 61, right associativity).

(** ** Variants, data-model objects and the host *)

Module Model.

Inductive VARTYPE : Type :=
| VT_EMPTY | VT_I1 | VT_UI1 | VT_I2 | VT_UI2 | VT_I4 | VT_UI4
| VT_I8 | VT_UI8 | VT_R4 | VT_R8 | VT_BOOL | VT_BSTR | VT_UNKNOWN.

Definition VARTYPE_eqb (a b : VARTYPE) : bool :=
  match a, b with
  | VT_EMPTY, VT_EMPTY | VT_I1, VT_I1 | VT_UI1, VT_UI1 | VT_I2, VT_I2
  | VT_UI2, VT_UI2 | VT_I4, VT_I4 | VT_UI4, VT_UI4 | VT_I8, VT_I8
  | VT_UI8, VT_UI8 | VT_R4, VT_R4 | VT_R8, VT_R8 | VT_BOOL, VT_BOOL
  | VT_BSTR, VT_BSTR | VT_UNKNOWN, VT_UNKNOWN => true
  | _, _ => false
  end.

(** Number of bits of the union member a type tag selects. *)
Definition VARTYPE_bits (vt : VARTYPE) : Z :=
  match vt with
  | VT_EMPTY => 0
  | VT_I1 | VT_UI1 => 8
  | VT_I2 | VT_UI2 | VT_BOOL => 16
  | VT_I4 | VT_UI4 | VT_R4 => 32
  | VT_I8 | VT_UI8 | VT_R8 | VT_BSTR | VT_UNKNOWN => 64
  end.

(** A [VARIANT]: the type tag and the bytes of the value union, read as a
    little-endian unsigned number. *)
Record VARIANT : Type := { vt : VARTYPE; raw : Z }.

Inductive ModelObjectKind : Type :=
| ObjectIntrinsic | ObjectNoValue | ObjectError | ObjectSynthetic
| ObjectMethod | ObjectPropertyAccessor | ObjectKeyReference | ObjectContext.

Definition wstring := list Z.

(** [ClientEx::Object], a smart pointer to an [IModelObject]; [NullObject]
    is the default-constructed [Object()], which holds no interface. *)
Inductive Object : Type :=
| NullObject
| IntrinsicObject (kind : ModelObjectKind) (v : VARIANT)
| NoValueObject
| ErrorObject (hr : HRESULT) (msg : wstring)
| SyntheticObject (id : nat).

(** The services of the host that the header calls and whose behaviour the
    header does not fix: the ANSI code page transcoding of
    [MultiByteToWideChar], the manager's [CreateErrorObject] (which may
    fail) and the conversion [GetIntrinsicValueAs] performs when the
    requested representation differs from the stored one. *)
Record Host : Type := {
  MultiByteToWideChar : string -> wstring;
  CreateErrorObject : HRESULT -> wstring -> option Object;
  ConvertIntrinsic : VARTYPE -> VARIANT -> option VARIANT
}.

(** Modelled from the spec: [IDataModelManager::CreateIntrinsicObject] is
    an interface of the host, declared outside this header (creation of
    intrinsic dynamic values).  The object keeps the variant it is created
    from, narrowed to the member its type tag selects. *)
Definition CreateIntrinsicObject (kind : ModelObjectKind) (v : VARIANT)
  : HRESULT * Object :=
  (S_OK, IntrinsicObject kind {| vt := vt v; raw := raw v mod 2 ^ VARTYPE_bits (vt v) |}).

(** Modelled from the spec: [IDataModelManager::CreateNoValue] of the
    host, which creates the distinguished no-value marker. *)
Definition CreateNoValue : HRESULT * Object := (S_OK, NoValueObject).

(** Modelled from the spec: [IModelObject::GetKind] of the host, the
    per-value kind tag; calling through the null interface pointer of an
    empty [Object] is undefined. *)
Definition GetKind (src : Object) : result (HRESULT * ModelObjectKind) :=
  match src with
  | NullObject => Undefined
  | IntrinsicObject kind _ => Ok (S_OK, kind)
  | NoValueObject => Ok (S_OK, ObjectNoValue)
  | ErrorObject _ _ => Ok (S_OK, ObjectError)
  | SyntheticObject _ => Ok (S_OK, ObjectSynthetic)
  end.

(** Modelled from the spec: [IModelObject::GetIntrinsicValueAs] of the
    host (convert intrinsic value to requested representation).  An
    intrinsic object hands back its variant when asked for the
    representation it holds, and the host's conversion of it otherwise;
    any other object is refused. *)
Definition GetIntrinsicValueAs (h : Host) (want : VARTYPE) (src : Object)
  : result (HRESULT * VARIANT) :=
  match src with
  | NullObject => Undefined
  | IntrinsicObject _ v =>
      if VARTYPE_eqb (vt v) want then Ok (S_OK, v)
      else match ConvertIntrinsic h want v with
           | Some v' => Ok (S_OK, v')
           | None => Ok (DISP_E_TYPEMISMATCH, {| vt := VT_EMPTY; raw := 0 |})
           end
  | _ => Ok (E_INVALIDARG, {| vt := VT_EMPTY; raw := 0 |})
  end.

(** [StringUtils::GetWideString] on a host whose [MultiByteToWideChar] is
    one function of the string and which has memory for every buffer: two
    passes, the first for the size; a different size from the second pass
    is an [unexpected_error].  [Platform.GetWideString] below is the
    routine with the two calls and the allocation of the platform kept
    apart. *)
Definition GetWideString (h : Host) (pString : string) : result wstring :=
  let sz := Z.of_nat (List.length (MultiByteToWideChar h pString)) in
  if sz =? 0 then Ok []
  else
    let str := MultiByteToWideChar h pString in
    let sz2 := Z.of_nat (List.length str) in
    if negb (sz =? sz2) then Throw unexpected_error_default else Ok str.

(** [Exceptions::ReturnResult(exception, ppError)]: the handlers in the
    order of the source.  [ppError] says whether the caller passed a slot
    for an error object; the second component is what is stored there. *)
Definition ReturnResult (h : Host) (e : exception) (ppError : bool)
  : result (HRESULT * option Object) :=
  r <- match e with
       | std_invalid_argument what =>
           errMsg <- GetWideString h what ;; Ok (E_INVALIDARG, errMsg)
       | std_bad_alloc => Ok (E_OUTOFMEMORY, [])
       | std_range_error what =>
           errMsg <- GetWideString h what ;; Ok (E_BOUNDS, errMsg)
       | not_implemented what =>
           errMsg <- GetWideString h what ;; Ok (E_NOTIMPL, errMsg)
       | unexpected_error what =>
           errMsg <- GetWideString h what ;; Ok (E_UNEXPECTED, errMsg)
       | hr_exception hr what =>
           errMsg <- GetWideString h what ;; Ok (hr, errMsg)
       | illegal_operation what =>
           errMsg <- GetWideString h what ;; Ok (E_ILLEGAL_METHOD_CALL, errMsg)
       | not_set what =>
           errMsg <- GetWideString h what ;; Ok (E_NOT_SET, errMsg)
       | object_detached what
       | std_exception what =>
           errMsg <- GetWideString h what ;; Ok (E_FAIL, errMsg)
       | non_std_exception => Ok (E_FAIL, [])
       end ;;
  let '(hr, errMsg) := r in
  if ppError && negb (Nat.eqb (List.length errMsg) 0) then
    match CreateErrorObject h hr errMsg with
    | Some spError => Ok (hr, Some spError)
    | None => Ok (hr, None)
    end
  else Ok (hr, None).

End Model.

Export Model.

(** ** Boxing and unboxing *)

Module Boxing.

(** The types with a [BaseIntrinsicTypeTraits] specialisation other than
    [bool]. *)
Inductive Intrinsic : Type :=
| c_char | c_uchar | c_short | c_ushort | c_int | c_uint
| c_long | c_ulong | c_int64 | c_uint64 | c_float | c_double.

(** [BaseIntrinsicTypeTraits<T>::VariantType], as the table has it. *)
Definition VariantType (t : Intrinsic) : VARTYPE :=
  match t with
  | c_char => VT_I1
  | c_uchar => VT_UI1
  | c_short => VT_I2
  | c_ushort => VT_UI2
  | c_int => VT_I4
  | c_uint => VT_UI4
  | c_long => VT_UI4
  | c_ulong => VT_UI4
  | c_int64 => VT_I8
  | c_uint64 => VT_UI8
  | c_float => VT_R4
  | c_double => VT_R8
  end.

(** [sizeof(T)] in bits for the Windows ABI. *)
Definition bits (t : Intrinsic) : Z :=
  match t with
  | c_char | c_uchar => 8
  | c_short | c_ushort => 16
  | c_int | c_uint | c_long | c_ulong | c_float => 32
  | c_int64 | c_uint64 | c_double => 64
  end.

Definition is_signed (t : Intrinsic) : bool :=
  match t with
  | c_char | c_short | c_int | c_long | c_int64 => true
  | _ => false
  end.

(** A value of an integer type is its number; a value of [float] or
    [double] is its IEEE bit pattern, which is all that boxing looks at. *)
Definition min_value (t : Intrinsic) : Z :=
  if is_signed t then - 2 ^ (bits t - 1) else 0.
Definition max_value (t : Intrinsic) : Z :=
  if is_signed t then 2 ^ (bits t - 1) - 1 else 2 ^ bits t - 1.
Definition in_range (t : Intrinsic) (x : Z) : Prop :=
  min_value t <= x <= max_value t.

(** Object representation (two's complement) and its reading. *)
Definition object_bits (t : Intrinsic) (x : Z) : Z := x mod 2 ^ bits t.
Definition value_of_bits (t : Intrinsic) (b : Z) : Z :=
  if is_signed t && (2 ^ (bits t - 1) <=? b) then b - 2 ^ bits t else b.

(** Writing a [w]-bit object at the start of the value union leaves the
    other bytes of the union as they were. *)
Definition store_low (w : Z) (b : Z) (old : Z) : Z := (old / 2 ^ w) * 2 ^ w + b.

(** [IntrinsicTypeTraits<T>::FillVariant]; [junk] is the content of the
    uninitialised [VARIANT] on the stack. *)
Definition FillVariant (junk : Z) (t : Intrinsic) (val : Z) : VARIANT :=
  {| vt := VariantType t; raw := store_low (bits t) (object_bits t val) junk |}.

(** [IntrinsicTypeTraits<T>::ExtractFromVariant]. *)
Definition ExtractFromVariant (t : Intrinsic) (pVar : VARIANT) : Z :=
  value_of_bits t (raw pVar mod 2 ^ bits t).

(** [VARIANT_TRUE] is the 16-bit value -1, [VARIANT_FALSE] is 0. *)
Definition VARIANT_TRUE_bits : Z := 0xFFFF.
Definition VARIANT_FALSE_bits : Z := 0.

(** [IntrinsicTypeTraits<bool>]. *)
Definition FillVariant_bool (junk : Z) (val : bool) : VARIANT :=
  {| vt := VT_BOOL;
     raw := store_low 16 (if val then VARIANT_TRUE_bits else VARIANT_FALSE_bits) junk |}.
Definition ExtractFromVariant_bool (pVar : VARIANT) : bool :=
  raw pVar mod 2 ^ 16 =? VARIANT_TRUE_bits.

(** The native types whose boxers are modelled.  [TEnum u] is an
    enumeration with underlying type [u] whose boxer is
    [UnderlyingTypeBoxObject]. *)
Inductive NativeType : Type :=
| TIntrinsic (t : Intrinsic)
| TBool
| TEnum (underlying : Intrinsic)
| TOptional (T : NativeType)
| TObject.

Record EnumValue : Type := { enumerator : Z }.

Fixpoint value (T : NativeType) : Type :=
  match T with
  | TIntrinsic _ => Z
  | TBool => bool
  | TEnum _ => EnumValue
  | TOptional T' => option (value T')
  | TObject => Object
  end.

(** [BoxObjectIntrinsic<T>::Box]; no error object comes with the status
    of the host model. *)
Definition BoxObjectIntrinsic_Box (junk : Z) (t : Intrinsic) (obj : Z) : result Object :=
  let vtVal := FillVariant junk t obj in
  let '(hr, spObj) := CreateIntrinsicObject ObjectIntrinsic vtVal in
  CheckHr hr ;;; Ok spObj.

(** [BoxObjectIntrinsic<T>::Unbox]. *)
Definition BoxObjectIntrinsic_Unbox (h : Host) (t : Intrinsic) (src : Object) : result Z :=
  r <- GetIntrinsicValueAs h (VariantType t) src ;;
  let '(hr, vtVal) := r in
  CheckHr hr ;;; Ok (ExtractFromVariant t vtVal).

Definition BoxObject_bool_Box (junk : Z) (obj : bool) : result Object :=
  let vtVal := FillVariant_bool junk obj in
  let '(hr, spObj) := CreateIntrinsicObject ObjectIntrinsic vtVal in
  CheckHr hr ;;; Ok spObj.

Definition BoxObject_bool_Unbox (h : Host) (src : Object) : result bool :=
  r <- GetIntrinsicValueAs h VT_BOOL src ;;
  let '(hr, vtVal) := r in
  CheckHr hr ;;; Ok (ExtractFromVariant_bool vtVal).

(** [Object::CreateNoValue]. *)
Definition Object_CreateNoValue : result Object :=
  let '(hr, spObj) := CreateNoValue in CheckHr hr ;;; Ok spObj.

(** [BoxObject<T>::Box] by the specialisation that [T] selects:
    [BoxObjectIntrinsic], [UnderlyingTypeBoxObject],
    [BoxObject<std::optional<T>>] and [BoxObject<Object>]. *)
Fixpoint Box (junk : Z) (T : NativeType) : value T -> result Object :=
  match T return value T -> result Object with
  | TIntrinsic t => fun obj => BoxObjectIntrinsic_Box junk t obj
  | TBool => fun obj => BoxObject_bool_Box junk obj
  | TEnum u => fun obj => BoxObjectIntrinsic_Box junk u (enumerator obj)
  | TOptional T' => fun src =>
      match src with
      | Some v => Box junk T' v
      | None => Object_CreateNoValue
      end
  | TObject => fun src => Ok src
  end.

(** [BoxObject<T>::Unbox]. *)
Fixpoint Unbox (h : Host) (T : NativeType) (src : Object) : result (value T) :=
  match T return result (value T) with
  | TIntrinsic t => BoxObjectIntrinsic_Unbox h t src
  | TBool => BoxObject_bool_Unbox h src
  | TEnum u =>
      v <- BoxObjectIntrinsic_Unbox h u src ;; Ok {| enumerator := v |}
  | TOptional T' =>
      r <- GetKind src ;;
      let '(hr, mk) := r in
      CheckHr hr ;;;
      match mk with
      | ObjectNoValue => Ok None
      | _ => v <- Unbox h T' src ;; Ok (Some v)
      end
  | TObject => Ok src
  end.

(** [T()], the value a [std::tuple] element starts with. *)
Definition default_value (T : NativeType) : value T :=
  match T return value T with
  | TIntrinsic _ => 0
  | TBool => false
  | TEnum _ => {| enumerator := 0 |}
  | TOptional _ => None
  | TObject => NullObject
  end.

End Boxing.

Export Boxing.

(** ** Signature analysis and argument packs *)

Module Signature.

Local Open Scope nat_scope.

(** A parameter type of a bound function, after [std::decay_t]: [Object *]
    or a type with a boxer.  [size_t] is [unsigned __int64]. *)
Inductive ParamType : Type :=
| P_ObjectPtr
| P_val (T : NativeType).

Definition P_size_t : ParamType := P_val (TIntrinsic c_uint64).

(** [IsVariableArgumentPosition<TArgs...>]: true for exactly
    [<size_t, Object *>]. *)
Definition IsVariableArgumentPosition (TArgs : list ParamType) : bool :=
  match TArgs with
  | [P_val (TIntrinsic c_uint64); P_ObjectPtr] => true
  | _ => false
  end.

(** [HasVariableArgumentHelper2]: walks to the last two types. *)
Fixpoint HasVariableArgumentHelper2 (TArgs : list ParamType) : bool :=
  match TArgs with
  | TArg1 :: ((_ :: _ :: _) as rest) => HasVariableArgumentHelper2 rest
  | _ => IsVariableArgumentPosition TArgs
  end.

(** [HasVariableArguments<TArgs...>]: packs of size 0 and 1 are never
    variadic. *)
Definition HasVariableArguments (TArgs : list ParamType) : bool :=
  match List.length TArgs with
  | 0 | 1 => false
  | _ => HasVariableArgumentHelper2 TArgs
  end.

Definition IsOptionalArgument (T : ParamType) : bool :=
  match T with
  | P_val (TOptional _) => true
  | _ => false
  end.

Definition IsNonOptionalArgument (T : ParamType) : bool :=
  match T with
  | P_val (TOptional _) => false
  | _ => true
  end.

(** [HasNonOptionalArguments<TArgs...>]. *)
Fixpoint HasNonOptionalArguments (TArgs : list ParamType) : bool :=
  match TArgs with
  | [] => true
  | [T] => IsNonOptionalArgument T
  | T :: rest =>
      if IsVariableArgumentPosition TArgs then false
      else if IsNonOptionalArgument T then true
      else HasNonOptionalArguments rest
  end.

(** [HasOptionalArguments<TArgs...>::value]; [None] when instantiating it
    fires the [static_assert] of [HasNextOptional], in this specialisation
    or in one it instantiates. *)
Fixpoint HasOptionalArguments (TArgs : list ParamType) : option bool :=
  match TArgs with
  | [] => Some false
  | [T] => Some (IsOptionalArgument T)
  | T :: rest =>
      let isCurrentOptional := IsOptionalArgument T in
      match HasOptionalArguments rest with
      | None => None
      | Some nextOptional =>
          let allNextOptional := negb (HasNonOptionalArguments rest) in
          if negb isCurrentOptional || allNextOptional
          then Some (isCurrentOptional || nextOptional)
          else None
      end
  end.

(** [FirstOptionalArgumentPositionHelper<i, TArgs...>]. *)
Fixpoint FirstOptionalArgumentPositionHelper (i : nat) (TArgs : list ParamType) : nat :=
  match TArgs with
  | [] => i
  | T :: rest =>
      if IsOptionalArgument T then i
      else match rest with
           | [] => i + 1
           | _ => FirstOptionalArgumentPositionHelper (i + 1) rest
           end
  end.

Definition FirstOptionalArgumentPosition (TArgs : list ParamType) : nat :=
  FirstOptionalArgumentPositionHelper 0 TArgs.

(** [PackMatchingSize<TArgs...>::value]; [None] when it does not compile. *)
Definition PackMatchingSize (TArgs : list ParamType) : option nat :=
  match HasOptionalArguments TArgs with
  | None => None
  | Some hasOptional =>
      let hasVarArgs := HasVariableArguments TArgs in
      if hasOptional then Some (FirstOptionalArgumentPosition TArgs)
      else if hasVarArgs then Some (List.length TArgs - 2)
      else Some (List.length TArgs)
  end.

(** [PackMatchingSize_WithIgnore<ignoreCount, TArgs...>]: dropping more
    types than the pack has does not compile. *)
Definition PackMatchingSize_WithIgnore (ignoreCount : nat) (TArgs : list ParamType)
  : option nat :=
  if List.length TArgs <? ignoreCount then None
  else PackMatchingSize (skipn ignoreCount TArgs).

(** [TupleTypeExtractor_t<extractCount, TArgs...>]. *)
Definition TupleTypeExtractor (extractCount : nat) (TArgs : list ParamType)
  : list ParamType := skipn extractCount TArgs.

(** An element of the argument tuple.  [elem_ptr (Some i)] is the pointer
    [ppArgumentPack + i] into the caller's array; [elem_ptr None] is
    [nullptr]. *)
Inductive TupleElem : Type :=
| elem_val (T : NativeType) (v : value T)
| elem_ptr (p : option nat).

(** A value-initialised tuple element. *)
Definition default_elem (T : ParamType) : TupleElem :=
  match T with
  | P_ObjectPtr => elem_ptr None
  | P_val T' => elem_val T' (default_value T')
  end.

(** [std::get<i>(tuple) = v]. *)
Fixpoint tuple_set (i : nat) (v : TupleElem) (tuple : list TupleElem) : list TupleElem :=
  match tuple, i with
  | [], _ => []
  | _ :: rest, 0 => v :: rest
  | x :: rest, S i' => x :: tuple_set i' v rest
  end.

(** [ppArgumentPack[i]]. *)
Definition pack_at (ppArgumentPack : list Object) (i : nat) : result Object :=
  match nth_error ppArgumentPack i with
  | Some o => Ok o
  | None => Undefined
  end.

(** [UnboxObject<ArgType>(obj)] for a tuple element; [Object *] has no
    unboxer, so a signature that reaches this case is not instantiated
    (see [Unpacker_compiles]). *)
Definition UnboxObject (h : Host) (ArgType : ParamType) (obj : Object) : result TupleElem :=
  match ArgType with
  | P_val T => v <- Unbox h T obj ;; Ok (elem_val T v)
  | P_ObjectPtr => Undefined
  end.

(** [VariableUnpacker<TTuple, i, 2>::UnpackInto]. *)
Definition VariableUnpacker_UnpackInto (i : nat) (packSize : nat) (tuple : list TupleElem)
  : result (list TupleElem) :=
  if packSize <=? i then Ok tuple
  else
    let variableArgumentCount := packSize - i in
    let tuple := tuple_set i (elem_val (TIntrinsic c_uint64) (Z.of_nat variableArgumentCount)) tuple in
    Ok (tuple_set (i + 1) (elem_ptr (Some i)) tuple).

(** [Unpacker<TTuple, i, remaining>::UnpackInto], with [remaining] the
    number of types in [TTypes], the tuple's element types from [i] on. *)
Fixpoint Unpacker_UnpackInto (h : Host) (TTypes : list ParamType) (i : nat)
         (packSize : nat) (ppArgumentPack : list Object) (tuple : list TupleElem)
  : result (list TupleElem) :=
  match TTypes with
  | [] => Ok tuple
  | ArgType :: rest =>
      if IsVariableArgumentPosition TTypes
      then VariableUnpacker_UnpackInto i packSize tuple
      else
        tuple <- (if i <? packSize
                  then obj <- pack_at ppArgumentPack i ;;
                       v <- UnboxObject h ArgType obj ;;
                       Ok (tuple_set i v tuple)
                  else Ok tuple) ;;
        Unpacker_UnpackInto h rest (i + 1) packSize ppArgumentPack tuple
  end.

(** The element types [RegularUnpacker] unboxes must have an unboxer. *)
Fixpoint Unpacker_compiles (TTypes : list ParamType) : bool :=
  match TTypes with
  | [] => true
  | ArgType :: rest =>
      if IsVariableArgumentPosition TTypes then true
      else match ArgType with
           | P_ObjectPtr => false
           | P_val _ => Unpacker_compiles rest
           end
  end.

(** [UnpackValues<tupleExtractionCount, TArgs...>]. *)
Definition UnpackValues (h : Host) (tupleExtractionCount : nat) (TArgs : list ParamType)
           (packSize : nat) (ppArgumentPack : list Object) : result (list TupleElem) :=
  let ArgumentTypes := TupleTypeExtractor tupleExtractionCount TArgs in
  let tuple := map default_elem ArgumentTypes in
  Unpacker_UnpackInto h ArgumentTypes 0 packSize ppArgumentPack tuple.

(** [InvokeFunctionFromPack] for a function of signature [TArgs] called
    with [extraArgumentCount] extra values.  [call] stands for
    [InvokeAndBox<...>::Call] applied to the function, the context object
    and the extra values.  [None]: the instantiation does not compile. *)
Definition InvokeFunctionFromPack (h : Host) (TArgs : list ParamType)
           (extraArgumentCount : nat)
           (call : list TupleElem -> result Object)
           (packSize : nat) (ppArgumentPack : list Object)
  : option (result Object) :=
  let packIgnoreCount := extraArgumentCount + 1 in
  match PackMatchingSize_WithIgnore packIgnoreCount TArgs with
  | None => None
  | Some minPackSize =>
      if negb (Unpacker_compiles (TupleTypeExtractor packIgnoreCount TArgs)) then None
      else
        let maxStaticPack := List.length TArgs - packIgnoreCount in
        let isVarArgs := HasVariableArguments TArgs in
        Some (if (packSize <? minPackSize) || ((maxStaticPack <? packSize) && negb isVarArgs)
              then Throw (std_invalid_argument "Illegal number of arguments to method call")
              else
                parameters <- UnpackValues h packIgnoreCount TArgs packSize ppArgumentPack ;;
                call parameters)
  end.

End Signature.

Export Signature.

(** ** Lifetime guard *)

Module Lifetime.

(** [DataModelReferenceInfo]; its constructor sets [TypeIsLive] to true. *)
Record DataModelReferenceInfo : Type := { TypeIsLive : bool }.

Definition DataModelReferenceInfo_new : DataModelReferenceInfo := {| TypeIsLive := true |}.

(** [DataModelReference] is a [std::shared_ptr<DataModelReferenceInfo>]:
    every copy designates the same info block, here by its address. *)
Definition DataModelReference := nat.

(** The memory that adapters share with the native side: the info blocks,
    and the native sequences by address ([None] once destroyed).  The
    sequences here are containers with random-access iterators;
    [Generators.World] below also has the single-pass ones. *)
Record World (T : Type) : Type := {
  references : DataModelReference -> DataModelReferenceInfo;
  natives : nat -> option (list T)
}.

Arguments references {T} w _.
Arguments natives {T} w _.

(** [ThrowIfDetached]. *)
Definition ThrowIfDetached {T : Type} (w : World T) (linkRef : DataModelReference)
  : result unit :=
  if negb (TypeIsLive (references w linkRef)) then Throw object_detached_default
  else Ok tt.

(** A native instance projected into the data model: the info block its
    model owns ([m_dataRef]) and the address of its data. *)
Record NativeBinding : Type := {
  m_dataRef : DataModelReference;
  instance : nat
}.

(** [~BaseDataModel] (and [~SpotLinkReference]): [TypeIsLive = false]; the
    native instance goes away with its owner. *)
Definition teardown {T : Type} (b : NativeBinding) (w : World T) : World T :=
  {| references := fun r =>
       if Nat.eqb r (m_dataRef b) then {| TypeIsLive := false |} else references w r;
     natives := fun a =>
       if Nat.eqb a (instance b) then None else natives w a |}.

End Lifetime.

Export Lifetime.

(** ** Iteration and indexing adapters *)

Module Iteration.

Local Open Scope nat_scope.

(** What [GetNext] stores through its out parameters. *)
Record GetNextOut : Type := {
  ppObject : option Object;
  ppIndexers : list (option Object)
}.

(** [BoundIterator]: iterators are positions in the native sequence at
    address [m_generator]. *)
Record BoundIterator : Type := {
  m_generator : nat;
  m_thrown : option exception;
  m_itBegin : nat;
  m_itEnd : nat;
  m_itCur : nat;
  m_linkReference : DataModelReference
}.

Definition set_m_itCur (it : BoundIterator) (c : nat) : BoundIterator :=
  {| m_generator := m_generator it; m_thrown := m_thrown it;
     m_itBegin := m_itBegin it; m_itEnd := m_itEnd it; m_itCur := c;
     m_linkReference := m_linkReference it |}.

Definition set_m_thrown (it : BoundIterator) (e : exception) : BoundIterator :=
  {| m_generator := m_generator it; m_thrown := Some e;
     m_itBegin := m_itBegin it; m_itEnd := m_itEnd it; m_itCur := m_itCur it;
     m_linkReference := m_linkReference it |}.

Section Adapter.

(** [T] is the element type of the native sequence and [V] the type the
    item projector returns; [BoxObject] is [ClientEx::BoxObject] at [V]. *)
Variables T V : Type.
Variable h : Host.
Variable junk : Z.
Variable m_genProjector : World T -> Object -> result nat.
Variable m_itemProjector : T -> result V.
Variable BoxObject : V -> result Object.

(** [*it] for an iterator at position [pos] of the sequence at [gen]. *)
Definition deref (w : World T) (gen : nat) (pos : nat) : result T :=
  match natives w gen with
  | None => Undefined
  | Some l =>
      match nth_error l pos with
      | Some x => Ok x
      | None => Undefined
      end
  end.

(** [generator.end() - generator.begin()]. *)
Definition distance (w : World T) (gen : nat) : result nat :=
  match natives w gen with
  | None => Undefined
  | Some l => Ok (List.length l)
  end.

(** [IndexerTraits<TVal, TIter, true>]: a linear index for random-access
    iterators. *)
Definition CheckDimensions (dimensionality : nat) : bool :=
  Nat.eqb dimensionality 0 || Nat.eqb dimensionality 1.

Definition CreateIndexers (itBegin itCur : nat) (dimensionality : nat)
           (pIndexers : list Object) : result (list Object) :=
  if Nat.eqb dimensionality 1
  then idx <- Box junk (TIntrinsic c_uint64) (Z.of_nat (itCur - itBegin)) ;;
       Ok (idx :: tl pIndexers)
  else Ok pIndexers.

Definition FillIndexers (dimensionality : nat) (pIndexers : list Object)
           (ppIndexers : list (option Object)) : list (option Object) :=
  if Nat.eqb dimensionality 1
  then Some (hd NullObject pIndexers) :: tl ppIndexers
  else ppIndexers.

(** [BoundIterator::Reset]. *)
Definition Reset (it : BoundIterator) : BoundIterator * HRESULT :=
  (set_m_itCur it (m_itBegin it), S_OK).

(** The out parameters after the prologue of [GetNext]. *)
Definition cleared (dimensions : nat) : GetNextOut :=
  {| ppObject := None; ppIndexers := repeat None dimensions |}.

(** The [try] block of [BoundIterator::GetNext]; the value of
    [CheckDimensions] before it is discarded, as in the source. *)
Definition GetNext_try (w : World T) (it : BoundIterator) (dimensions : nat)
  : result (BoundIterator * HRESULT * GetNextOut) :=
  let _ := CheckDimensions dimensions in
  ThrowIfDetached w (m_linkReference it) ;;;
  match m_thrown it with
  | Some thrown => Throw thrown
  | None =>
      if Nat.eqb (m_itCur it) (m_itEnd it)
      then Ok (it, E_BOUNDS, cleared dimensions)
      else
        x <- deref w (m_generator it) (m_itCur it) ;;
        val <- m_itemProjector x ;;
        objVal <- BoxObject val ;;
        pIdxs <- CreateIndexers (m_itBegin it) (m_itCur it) dimensions
                   (repeat NullObject (Nat.max dimensions 1)) ;;
        let it := set_m_itCur it (m_itCur it + 1) in
        Ok (it, S_OK,
            {| ppObject := Some objVal;
               ppIndexers := FillIndexers dimensions pIdxs (repeat None dimensions) |})
  end.

(** [BoundIterator::GetNext]: the [try] block and its [catch (...)]. *)
Definition GetNext (w : World T) (it : BoundIterator) (dimensions : nat)
  : BoundIterator * result (HRESULT * GetNextOut) :=
  match GetNext_try w it dimensions with
  | Ok (it', hr, out) => (it', Ok (hr, out))
  | Throw e =>
      let it' := set_m_thrown it e in
      (it', r <- ReturnResult h e false ;; Ok (fst r, cleared dimensions))
  | Undefined => (it, Undefined)
  end.

(** The [try] block of [BoundIterableBase::GetIterator], for an adapter
    whose link reference is [linkReference]; [Make] is taken to
    allocate the iterator. *)
Definition GetIterator_try (linkReference : DataModelReference) (w : World T)
           (pContextObject : Object) : result BoundIterator :=
  ThrowIfDetached w linkReference ;;;
  generator <- m_genProjector w pContextObject ;;
  let itBegin := 0 in
  n <- distance w generator ;;
  let itEnd := n in
  Ok {| m_generator := generator; m_thrown := None;
        m_itBegin := itBegin; m_itEnd := itEnd; m_itCur := itBegin;
        m_linkReference := linkReference |}.

(** [BoundIterableBase::GetIterator]. *)
Definition GetIterator (linkReference : DataModelReference) (w : World T)
           (pContextObject : Object) : result (HRESULT * option BoundIterator) :=
  match GetIterator_try linkReference w pContextObject with
  | Ok spIter => Ok (S_OK, Some spIter)
  | Throw e => r <- ReturnResult h e false ;; Ok (fst r, None)
  | Undefined => Undefined
  end.

(** The [try] block of [BoundIterableIndexableBase::GetAt]; a status
    returned from inside the block comes with no object. *)
Definition GetAt_try (linkReference : DataModelReference) (w : World T)
           (pContextObject : Object) (indexerCount : nat) (ppIndexers : list Object)
  : result (HRESULT * option Object) :=
  ThrowIfDetached w linkReference ;;;
  if negb (Nat.eqb indexerCount 1) then Ok (E_INVALIDARG, None)
  else
    instanceRef <- m_genProjector w pContextObject ;;
    let itBegin := 0 in
    idx0 <- pack_at ppIndexers 0 ;;
    r <- GetIntrinsicValueAs h VT_UI8 idx0 ;;
    let '(hr, vtIdx) := r in
    CheckHr hr ;;;
    let stIdx := Z.to_nat (raw vtIdx mod 2 ^ 64)%Z in
    delta <- distance w instanceRef ;;
    if delta <? stIdx then Ok (E_BOUNDS, None)
    else
      let itCur := itBegin + stIdx in
      x <- deref w instanceRef itCur ;;
      val <- m_itemProjector x ;;
      valObject <- BoxObject val ;;
      Ok (S_OK, Some valObject).

(** [BoundIterableIndexableBase::GetAt]. *)
Definition GetAt (linkReference : DataModelReference) (w : World T)
           (pContextObject : Object) (indexerCount : nat) (ppIndexers : list Object)
  : result (HRESULT * option Object) :=
  match GetAt_try linkReference w pContextObject indexerCount ppIndexers with
  | Ok r => Ok r
  | Throw e => ReturnResult h e true
  | Undefined => Undefined
  end.

(** [BoundIterableIndexableBase::SetAt]. *)
Definition SetAt (indexerCount : nat) : HRESULT := E_NOTIMPL.

(** [BoundIterableWithIndexable]: [Dimensionality] indices;
    [InvokeGetAt] and [InvokeSetAt] stand for [InvokeFunctionFromPack]
    applied to [m_getAtFunction] and to [m_setAtFunction] (after the
    value is unboxed to the setter's value type). *)
Variable Dimensionality : nat.
Variable InvokeGetAt : World T -> Object -> nat -> list Object -> result Object.
Variable InvokeSetAt : World T -> Object -> nat -> list Object -> Object -> result Object.

(** [BoundIterableWithIndexable::GetAt]. *)
Definition WithIndexable_GetAt (linkReference : DataModelReference) (w : World T)
           (pContextObject : Object) (indexerCount : nat) (ppIndexers : list Object)
  : result (HRESULT * option Object) :=
  match (ThrowIfDetached w linkReference ;;;
         if negb (Nat.eqb indexerCount Dimensionality) then Ok (E_INVALIDARG, None)
         else idxVal <- InvokeGetAt w pContextObject indexerCount ppIndexers ;;
              Ok (S_OK, Some idxVal)) with
  | Ok r => Ok r
  | Throw e => ReturnResult h e true
  | Undefined => Undefined
  end.

(** [BoundIterableWithIndexable::SetAt]. *)
Definition WithIndexable_SetAt (linkReference : DataModelReference) (w : World T)
           (pContextObject : Object) (indexerCount : nat) (ppIndexers : list Object)
           (pValue : Object) : result HRESULT :=
  match (ThrowIfDetached w linkReference ;;;
         if negb (Nat.eqb indexerCount Dimensionality) then Ok E_INVALIDARG
         else InvokeSetAt w pContextObject indexerCount ppIndexers pValue ;;;
              Ok S_OK) with
  | Ok hr => Ok hr
  | Throw e => r <- ReturnResult h e false ;; Ok (fst r)
  | Undefined => Undefined
  end.

(** A host that drains an iterator: it calls [GetNext] until a call does
    not return [S_OK], and keeps what each successful call produced.
    [None] when [fuel] calls were not enough. *)
Fixpoint drain (fuel : nat) (w : World T) (it : BoundIterator) (dimensions : nat)
  : option (list GetNextOut * result HRESULT) :=
  match fuel with
  | 0 => None
  | S fuel' =>
      match GetNext w it dimensions with
      | (it', Ok (hr, out)) =>
          if (hr =? S_OK)%Z
          then match drain fuel' w it' dimensions with
               | Some (outs, final) => Some (out :: outs, final)
               | None => None
               end
          else Some ([], Ok hr)
      | (_, Throw e) => Some ([], Throw e)
      | (_, Undefined) => Some ([], Undefined)
      end
  end.

(** A host that calls [GetNext] once for each memory of [ws], the memory
    as it is at the time of that call. *)
Fixpoint GetNext_calls (ws : list (World T)) (it : BoundIterator) (dimensions : nat)
  : BoundIterator * list (result (HRESULT * GetNextOut)) :=
  match ws with
  | [] => (it, [])
  | w :: ws' =>
      let '(it', r) := GetNext w it dimensions in
      let '(it'', rs) := GetNext_calls ws' it' dimensions in
      (it'', r :: rs)
  end.

(** One traversal: ask the adapter for an iterator and drain it. *)
Definition traverse (fuel : nat) (linkReference : DataModelReference) (w : World T)
           (pContextObject : Object) (dimensions : nat)
  : option (list GetNextOut * result HRESULT) :=
  match GetIterator linkReference w pContextObject with
  | Ok (_, Some it) => drain fuel w it dimensions
  | Ok (hr, None) => Some ([], Ok hr)
  | Throw e => Some ([], Throw e)
  | Undefined => Some ([], Undefined)
  end.

(** What the host and the owner of the binding can do, in any order. *)
Inductive Operation : Type :=
| OpTeardown
| OpGetIterator (pContextObject : Object)
| OpGetNext (dimensions : nat)
| OpReset
| OpGetAt (pContextObject : Object) (indexerCount : nat) (ppIndexers : list Object)
| OpSetAt (pContextObject : Object) (indexerCount : nat) (ppIndexers : list Object)
          (pValue : Object).

(** The shared memory and the iterator the host currently holds. *)
Record System : Type := {
  world : World T;
  iterator : option BoundIterator
}.

(** One operation on the adapters of binding [b]. *)
Definition step (b : NativeBinding) (s : System) (op : Operation) : System :=
  match op with
  | OpTeardown => {| world := teardown b (world s); iterator := iterator s |}
  | OpGetIterator obj =>
      match GetIterator (m_dataRef b) (world s) obj with
      | Ok (_, Some it) => {| world := world s; iterator := Some it |}
      | _ => s
      end
  | OpGetNext dimensions =>
      match iterator s with
      | Some it => {| world := world s;
                      iterator := Some (fst (GetNext (world s) it dimensions)) |}
      | None => s
      end
  | OpReset =>
      match iterator s with
      | Some it => {| world := world s; iterator := Some (fst (Reset it)) |}
      | None => s
      end
  | OpGetAt _ _ _ => s
  | OpSetAt _ _ _ _ => s
  end.

Definition run (b : NativeBinding) (s : System) (ops : list Operation) : System :=
  fold_left (step b) ops s.

Definition is_teardown (op : Operation) : bool :=
  match op with
  | OpTeardown => true
  | _ => false
  end.

(** The flag of binding [b] as a system goes through [ops], one reading
    per state. *)
Fixpoint flag_history (b : NativeBinding) (s : System) (ops : list Operation) : list bool :=
  TypeIsLive (references (world s) (m_dataRef b)) ::
  match ops with
  | [] => []
  | op :: rest => flag_history b (step b s op) rest
  end.

(** Number of changes from [from] to [to] between consecutive readings. *)
Fixpoint transitions (from to : bool) (l : list bool) : nat :=
  match l with
  | x :: ((y :: _) as rest) =>
      (if Bool.eqb x from && Bool.eqb y to then 1 else 0) + transitions from to rest
  | _ => 0
  end.

End Adapter.

End Iteration.

Export Iteration.

(** ** Vocabulary of the statements *)

Module Spec.

(** A host for the examples: ANSI bytes widen to their code, error objects
    are always created, and no conversion between representations is
    offered. *)
Definition example_host : Host :=
  {| MultiByteToWideChar := fun s =>
       map (fun c => Z.of_nat (Ascii.nat_of_ascii c)) (list_ascii_of_string s);
     CreateErrorObject := fun hr msg => Some (ErrorObject hr msg);
     ConvertIntrinsic := fun _ _ => None |}.

(** The message a boundary has for an exception: its [what()] in wide
    characters; [std::bad_alloc] and objects that are not exceptions of the
    standard hierarchy give none. *)
Definition wide_message (h : Host) (e : exception) : wstring :=
  match e with
  | std_invalid_argument what | std_range_error what | not_implemented what
  | unexpected_error what | hr_exception _ what | illegal_operation what
  | not_set what | object_detached what | std_exception what =>
      MultiByteToWideChar h what
  | std_bad_alloc | non_std_exception => []
  end.

(** The error object a boundary attaches for status [hr] and exception
    [e]: the manager's error object for the message, and none without a
    slot for it or without a message. *)
Definition attached_error (h : Host) (hr : HRESULT) (e : exception) (ppError : bool)
  : option Object :=
  let errMsg := wide_message h e in
  if ppError && negb (Nat.eqb (List.length errMsg) 0)
  then CreateErrorObject h hr errMsg
  else None.

(** The status code of each exception class, as the translation table
    states it. *)
Definition status_of (e : exception) : HRESULT :=
  match e with
  | std_invalid_argument _ => E_INVALIDARG
  | std_bad_alloc => E_OUTOFMEMORY
  | std_range_error _ => E_BOUNDS
  | not_implemented _ => E_NOTIMPL
  | unexpected_error _ => E_UNEXPECTED
  | illegal_operation _ => E_ILLEGAL_METHOD_CALL
  | not_set _ => E_NOT_SET
  | hr_exception hr _ => hr
  | object_detached _ | std_exception _ | non_std_exception => E_FAIL
  end.

(** [ReturnResult] turns [e] into the status [hr]. *)
Definition converts_to (h : Host) (e : exception) (hr : HRESULT) : Prop :=
  forall ppError, ReturnResult h e ppError = Ok (hr, attached_error h hr e ppError).

(** No exception leaves the computation. *)
Definition no_escape {A : Type} (r : result A) : Prop :=
  forall e, r <> Throw e.

(** The values of a native type: in the range of the scalar type, at
    every level. *)
Fixpoint well_typed (T : NativeType) : value T -> Prop :=
  match T return value T -> Prop with
  | TIntrinsic t => fun x => in_range t x
  | TBool => fun _ => True
  | TEnum u => fun x => in_range u (enumerator x)
  | TOptional T' => fun x =>
      match x with
      | Some y => well_typed T' y
      | None => True
      end
  | TObject => fun _ => True
  end.

(** The boxed form of [x] is an object of a kind other than no-value. *)
Fixpoint boxes_to_value (T : NativeType) : value T -> bool :=
  match T return value T -> bool with
  | TIntrinsic _ => fun _ => true
  | TBool => fun _ => true
  | TEnum _ => fun _ => true
  | TOptional T' => fun x =>
      match x with
      | Some y => boxes_to_value T' y
      | None => false
      end
  | TObject => fun o =>
      match GetKind o with
      | Ok (_, ObjectNoValue) => false
      | Ok _ => true
      | _ => false
      end
  end.

(** Every present value inside an optional, at every level, boxes to an
    object of a kind other than no-value. *)
Fixpoint present_values_box_to_values (T : NativeType) : value T -> Prop :=
  match T return value T -> Prop with
  | TOptional T' => fun x =>
      match x with
      | Some y => boxes_to_value T' y = true /\ present_values_box_to_values T' y
      | None => True
      end
  | _ => fun _ => True
  end.

(** The flag behind a link reference, as the memory has it. *)
Definition live {T : Type} (w : World T) (r : DataModelReference) : bool :=
  TypeIsLive (references w r).

(** An iterator that has failed or is at its end. *)
Definition stuck (it : BoundIterator) : Prop :=
  m_thrown it <> None \/ m_itCur it = m_itEnd it.

(** A live iterator with no stored failure at position [c] of the native
    sequence [l]. *)
Definition positioned {T : Type} (w : World T) (l : list T) (it : BoundIterator)
           (c : nat) : Prop :=
  live w (m_linkReference it) = true /\
  m_thrown it = None /\
  natives w (m_generator it) = Some l /\
  m_itBegin it = 0%nat /\
  m_itEnd it = List.length l /\
  m_itCur it = c /\
  (c <= List.length l)%nat.

(** What one step hands out for the element at position [index]: the
    boxed projection and, when one index is asked for, the boxed
    position. *)
Definition produced (junk : Z) (objVal : Object) (index dimensions : nat) : GetNextOut :=
  {| ppObject := Some objVal;
     ppIndexers :=
       if Nat.eqb dimensions 1
       then [Some (IntrinsicObject ObjectIntrinsic
                     {| vt := VT_UI8; raw := Z.of_nat index mod 2 ^ 64 |})]
       else repeat None dimensions |}.

(** The full logical sequence of a native sequence [items] whose first
    element has position [index]: every element, in order, projected and
    boxed; [None] when an element does not project or box. *)
Fixpoint logical_sequence {T V : Type} (junk : Z)
         (m_itemProjector : T -> result V) (BoxObject : V -> result Object)
         (items : list T) (index dimensions : nat) : option (list GetNextOut) :=
  match items with
  | [] => Some []
  | x :: rest =>
      match (val <- m_itemProjector x ;; BoxObject val) with
      | Ok objVal =>
          match logical_sequence junk m_itemProjector BoxObject rest (S index) dimensions with
          | Some outs => Some (produced junk objVal index dimensions :: outs)
          | None => None
          end
      | _ => None
      end
  end.

(** The scenario of the specification: the native collection
    [10, 20, 30] at address 0, bound with the identity projection, [int]
    elements, and a live link reference 0. *)
Definition example_binding : NativeBinding := {| m_dataRef := 0%nat; instance := 0%nat |}.

Definition example_world : World Z :=
  {| references := fun _ => DataModelReferenceInfo_new;
     natives := fun a => if Nat.eqb a 0 then Some [10; 20; 30] else None |}.

Definition example_genProjector (w : World Z) (obj : Object) : result nat := Ok 0%nat.
Definition example_itemProjector (x : Z) : result Z := Ok x.
Definition example_BoxObject (x : Z) : result Object := Box 0 (TIntrinsic c_int) x.

(** The data-model object of the index [i], an unsigned 64-bit value. *)
Definition index_object (i : Z) : Object :=
  IntrinsicObject ObjectIntrinsic {| vt := VT_UI8; raw := i |}.

Definition example_context : Object := SyntheticObject 0.

(** The iterator [GetIterator] returns in the scenario. *)
Definition example_iterator : BoundIterator :=
  {| m_generator := 0; m_thrown := None; m_itBegin := 0; m_itEnd := 3; m_itCur := 0;
     m_linkReference := 0%nat |}.

(** The scenario's iterator once its second step has failed with the
    [std::range_error] of [failing_itemProjector]. *)
Definition failed_iterator : BoundIterator :=
  {| m_generator := 0; m_thrown := Some (std_range_error "bad element");
     m_itBegin := 0; m_itEnd := 3; m_itCur := 1; m_linkReference := 0%nat |}.

(** The scenario's iterator at its end. *)
Definition ended_iterator : BoundIterator :=
  {| m_generator := 0; m_thrown := None; m_itBegin := 0; m_itEnd := 3; m_itCur := 3;
     m_linkReference := 0%nat |}.

(** The boxed [int] [x]. *)
Definition boxed_int (x : Z) : Object :=
  IntrinsicObject ObjectIntrinsic {| vt := VT_I4; raw := x |}.

(** Stand-ins for the bound indexer functions of the scenario. *)
Definition example_InvokeGetAt (w : World Z) (obj : Object) (n : nat) (idx : list Object)
  : result Object := Ok NoValueObject.
Definition example_InvokeSetAt (w : World Z) (obj : Object) (n : nat) (idx : list Object)
           (v : Object) : result Object := Ok NoValueObject.

(** A bound function that ignores its arguments. *)
Definition example_call (parameters : list TupleElem) : result Object := Ok NoValueObject.

(** An item projector that fails on the element 20. *)
Definition failing_itemProjector (x : Z) : result Z :=
  if x =? 20 then Throw (std_range_error "bad element") else Ok x.

Local Open Scope nat_scope.

(** The trailing variadic capture pair [(size_t, Object * )]. *)
Definition variadic_pair : list ParamType := [P_size_t; P_ObjectPtr].

Definition is_optional (T : NativeType) : bool :=
  match T with
  | TOptional _ => true
  | _ => false
  end.

(** The parameter types of a signature with the regular slots [regs] and,
    when [variadic], the trailing capture pair. *)
Definition slot_types (regs : list NativeType) (variadic : bool) : list ParamType :=
  map P_val regs ++ (if variadic then variadic_pair else []).

(** A signature that classifies into the required slots [req], the
    optional slots [std::optional<T>] for [T] in [opt], and the capture
    pair when [variadic]; it follows the context object and the extra
    values, [leading]. *)
Definition classified (leading : list NativeType) (req opt : list NativeType)
           (variadic : bool) : list ParamType :=
  map P_val leading ++ slot_types (req ++ map TOptional opt) variadic.

(** The regular slots as the unpacking rule words them: slot [i] holds the
    unboxed [i]-th argument when there is one, and stays as constructed
    otherwise. *)
Fixpoint regular_slots (h : Host) (regs : list NativeType) (i packSize : nat)
         (ppArgumentPack : list Object) : result (list TupleElem) :=
  match regs with
  | [] => Ok []
  | T :: rest =>
      s <- (if i <? packSize
            then obj <- pack_at ppArgumentPack i ;;
                 v <- Unbox h T obj ;; Ok (elem_val T v)
            else Ok (elem_val T (default_value T))) ;;
      r <- regular_slots h rest (i + 1) packSize ppArgumentPack ;;
      Ok (s :: r)
  end.

(** The capture pair at position [i]: the count of the arguments from [i]
    on and the pointer to the first of them; as constructed when there are
    none. *)
Definition variadic_slots (i packSize : nat) : list TupleElem :=
  if packSize <=? i
  then [elem_val (TIntrinsic c_uint64) 0%Z; elem_ptr None]
  else [elem_val (TIntrinsic c_uint64) (Z.of_nat (packSize - i)); elem_ptr (Some i)].

(** The arguments a capture pair [(count, tail)] designates in the pack:
    [tail[0]] to [tail[count - 1]], read in place. *)
Definition view (ppArgumentPack : list Object) (count : TupleElem) (tail : TupleElem)
  : option (list Object) :=
  match tail with
  | elem_ptr (Some off) =>
      match count with
      | elem_val (TIntrinsic c_uint64) n =>
          Some (firstn (Z.to_nat n) (skipn off ppArgumentPack))
      | _ => None
      end
  | elem_ptr None =>
      match count with
      | elem_val (TIntrinsic c_uint64) n => if (n =? 0)%Z then Some [] else None
      | _ => None
      end
  | _ => None
  end.

(** The message of the arity failure. *)
Definition illegal_number_of_arguments : exception :=
  std_invalid_argument "Illegal number of arguments to method call".

(** A parameter list declares a required parameter after an optional one:
    an optional type at [i], a non-optional type at a later [j], and [j]
    not in a trailing capture pair. *)
Definition required_after_optional (TArgs : list ParamType) : Prop :=
  exists i j Ti Tj,
    i < j /\
    nth_error TArgs i = Some Ti /\ IsOptionalArgument Ti = true /\
    nth_error TArgs j = Some Tj /\ IsOptionalArgument Tj = false /\
    ~ (HasVariableArguments TArgs = true /\ List.length TArgs - 2 <= j).

End Spec.

Export Spec.

(** ** Packing arguments and the boxed method, property and constructor *)

Module Packing.

Local Open Scope nat_scope.

(** A native argument together with its static type. *)
Definition Arg : Type := {T : NativeType & value T}.

(** [pack[i] = o] on an array of [Object]. *)
Fixpoint pack_set (i : nat) (o : Object) (pack : list Object) : list Object :=
  match pack, i with
  | [], _ => []
  | _ :: rest, 0 => o :: rest
  | x :: rest, S i' => x :: pack_set i' o rest
  end.

(** [Packer<i, TArg, TArgs...>::PackInto]; [TuplePacker] does the same
    from a tuple. *)
Fixpoint Packer_PackInto (junk : Z) (i : nat) (pack : list Object) (args : list Arg)
  : result (list Object) :=
  match args with
  | [] => Ok pack
  | existT _ T firstArg :: subsequentArgs =>
      o <- Box junk T firstArg ;;
      Packer_PackInto junk (i + 1) (pack_set i o pack) subsequentArgs
  end.

(** [PackValues] (and [PackTuple]): an array of [sizeof...(args)] empty
    objects, filled in order. *)
Definition PackValues (junk : Z) (args : list Arg) : result (list Object) :=
  let packSize := List.length args in
  let argPack := repeat NullObject packSize in
  Packer_PackInto junk 0 argPack args.

(** [LiteralInvokeFunctionFromPack]: no context object and no extra
    values; [call] stands for [LiteralInvokeAndBox<...>::Call] applied to
    the function.  [None]: the instantiation does not compile. *)
Definition LiteralInvokeFunctionFromPack (h : Host) (TArgs : list ParamType)
           (call : list TupleElem -> result Object)
           (packSize : nat) (ppArgumentPack : list Object)
  : option (result Object) :=
  let extraArgumentCount := 0 in
  let packIgnoreCount := extraArgumentCount + 0 in
  match PackMatchingSize_WithIgnore packIgnoreCount TArgs with
  | None => None
  | Some minPackSize =>
      if negb (Unpacker_compiles (TupleTypeExtractor packIgnoreCount TArgs)) then None
      else
        let maxStaticPack := List.length TArgs - packIgnoreCount in
        let isVarArgs := HasVariableArguments TArgs in
        Some (if (packSize <? minPackSize) || ((maxStaticPack <? packSize) && negb isVarArgs)
              then Throw (std_invalid_argument "Illegal number of arguments to method call")
              else
                parameters <- UnpackValues h packIgnoreCount TArgs packSize ppArgumentPack ;;
                call parameters)
  end.

(** [InvokeMethodFromPack] with no extra values. *)
Definition InvokeMethodFromPack (h : Host) (TArgs : list ParamType)
           (func : Object -> list TupleElem -> result Object)
           (contextObj : Object) (packSize : nat) (pArgumentPack : list Object)
  : option (result Object) :=
  InvokeFunctionFromPack h TArgs 0 (func contextObj) packSize pArgumentPack.

(** [BoxedMethod::Call]: the status and what is stored in [ppResult]. *)
Definition BoxedMethod_Call (h : Host) (TArgs : list ParamType)
           (m_func : Object -> list TupleElem -> result Object)
           (pContextObject : Object) (argCount : nat) (ppArguments : list Object)
  : option (result (HRESULT * option Object)) :=
  match InvokeMethodFromPack h TArgs m_func pContextObject argCount ppArguments with
  | None => None
  | Some r =>
      Some match r with
           | Ok result => Ok (S_OK, Some result)
           | Throw e => ReturnResult h e true
           | Undefined => Undefined
           end
  end.

(** [BoundConstructable::CreateInstance]: the status and what is stored
    in [ppInstance]. *)
Definition BoundConstructable_CreateInstance (h : Host) (TArgs : list ParamType)
           (m_constructableProjector : list TupleElem -> result Object)
           (argCount : nat) (ppArguments : list Object)
  : option (result (HRESULT * option Object)) :=
  match LiteralInvokeFunctionFromPack h TArgs m_constructableProjector argCount ppArguments with
  | None => None
  | Some r =>
      Some match r with
           | Ok result => Ok (S_OK, Some result)
           | Throw e => r' <- ReturnResult h e false ;; Ok (fst r', None)
           | Undefined => Undefined
           end
  end.

(** [BoxedProperty::GetValue] for a getter that returns a [T]. *)
Definition BoxedProperty_GetValue (h : Host) (junk : Z) (T : NativeType)
           (m_getterFunc : Object -> result (value T)) (pContextObject : Object)
  : result (HRESULT * option Object) :=
  match (result <- m_getterFunc pContextObject ;; Box junk T result) with
  | Ok resultObject => Ok (S_OK, Some resultObject)
  | Throw e => ReturnResult h e true
  | Undefined => Undefined
  end.

(** [BoxedProperty::SetValue] for a setter of a [T]; the setter acts on
    the native state [S] and may leave it changed when it throws. *)
Definition BoxedProperty_SetValue (h : Host) (T : NativeType) {S : Type}
           (m_setterFunc : S -> Object -> value T -> S * result unit)
           (s : S) (pContextObject : Object) (pValue : Object)
  : S * result HRESULT :=
  match Unbox h T pValue with
  | Ok val =>
      let '(s', r) := m_setterFunc s pContextObject val in
      (s', match r with
           | Ok _ => Ok S_OK
           | Throw e => r' <- ReturnResult h e false ;; Ok (fst r')
           | Undefined => Undefined
           end)
  | Throw e => (s, r' <- ReturnResult h e false ;; Ok (fst r'))
  | Undefined => (s, Undefined)
  end.

(** [PackTuple]: [TuplePacker] boxes the elements of the tuple in order,
    as [Packer] does for an argument list. *)
Definition PackTuple (junk : Z) (tuple : list Arg) : result (list Object) :=
  let packSize := List.length tuple in
  let argPack := repeat NullObject packSize in
  Packer_PackInto junk 0 argPack tuple.

(** [BoundDeconstructable::GetConstructorArguments]: the status and what
    is stored in the [argCount] slots of [ppConstructorArguments]. *)
Definition BoundDeconstructable_GetConstructorArguments (h : Host) (junk : Z)
           (m_deconstructableProjector : Object -> result (list Arg))
           (pContextObject : Object) (argCount : nat)
  : result (HRESULT * list (option Object)) :=
  match (arbitraryArgs <- m_deconstructableProjector pContextObject ;;
         let computedArgCount := List.length arbitraryArgs in
         if negb (Nat.eqb computedArgCount argCount)
         then Throw (std_invalid_argument
                       "Inappropriate number of output arguments passed to object deconstructor")
         else
           pack <- PackTuple junk arbitraryArgs ;;
           Ok (map Some pack)) with
  | Ok ppConstructorArguments => Ok (S_OK, ppConstructorArguments)
  | Throw e => r <- ReturnResult h e false ;; Ok (fst r, repeat None argCount)
  | Undefined => Undefined
  end.

End Packing.

(** ** Boxed arrays *)

Module BoxedArray.

Local Open Scope nat_scope.

Section Array.

Variable h : Host.
Variable junk : Z.

(** The element type [T] of [BoxedArray<T>]. *)
Variable T : NativeType.

(** [BoxedArray<T>]: the private copy of the elements, their number and
    the write permission. *)
Record BoxedArray : Type := {
  m_spArray : list (value T);
  m_arraySize : nat;
  m_allowWrite : bool
}.

(** The constructor, for the [arraySize] elements at [pArray]. *)
Definition construct (pArray : list (value T)) (arraySize : nat) : BoxedArray :=
  {| m_spArray := firstn arraySize pArray; m_arraySize := arraySize; m_allowWrite := true |}.

(** [m_spArray[idx] = val]. *)
Fixpoint array_set (idx : nat) (val : value T) (a : list (value T)) : list (value T) :=
  match a, idx with
  | [], _ => []
  | _ :: rest, 0 => val :: rest
  | x :: rest, S i => x :: array_set i val rest
  end.

(** [m_spArray[idx]]. *)
Definition array_at (a : list (value T)) (idx : nat) : result (value T) :=
  match nth_error a idx with
  | Some x => Ok x
  | None => Undefined
  end.

(** [(ULONG64)idxObj]. *)
Definition to_ULONG64 (idxObj : Object) : result Z :=
  BoxObjectIntrinsic_Unbox h c_uint64 idxObj.

(** The [try] block of [BoxedArray::GetAt]. *)
Definition GetAt_try (this : BoxedArray) (indexerCount : nat) (ppIndexers : list Object)
  : result (HRESULT * option Object) :=
  if negb (Nat.eqb indexerCount 1) then Ok (E_INVALIDARG, None)
  else
    idxObj <- pack_at ppIndexers 0 ;;
    idx <- to_ULONG64 idxObj ;;
    if (Z.of_nat (m_arraySize this) <=? idx)%Z
    then Throw (std_range_error "Out of bounds array index")
    else
      x <- array_at (m_spArray this) (Z.to_nat idx) ;;
      result <- Box junk T x ;;
      Ok (S_OK, Some result).

(** [BoxedArray::GetAt]. *)
Definition GetAt (this : BoxedArray) (indexerCount : nat) (ppIndexers : list Object)
  : result (HRESULT * option Object) :=
  match GetAt_try this indexerCount ppIndexers with
  | Ok r => Ok r
  | Throw e => ReturnResult h e true
  | Undefined => Undefined
  end.

(** The [try] block of [BoxedArray::SetAt]. *)
Definition SetAt_try (this : BoxedArray) (indexerCount : nat) (ppIndexers : list Object)
           (pValue : Object) : result (BoxedArray * HRESULT) :=
  if negb (Nat.eqb indexerCount 1) then Ok (this, E_INVALIDARG)
  else
    idxObj <- pack_at ppIndexers 0 ;;
    idx <- to_ULONG64 idxObj ;;
    if (Z.of_nat (m_arraySize this) <=? idx)%Z
    then Throw (std_range_error "Out of bounds array index")
    else
      val <- Unbox h T pValue ;;
      Ok ({| m_spArray := array_set (Z.to_nat idx) val (m_spArray this);
             m_arraySize := m_arraySize this;
             m_allowWrite := m_allowWrite this |}, S_OK).

(** [BoxedArray::SetAt]: the array afterwards and the status. *)
Definition SetAt (this : BoxedArray) (indexerCount : nat) (ppIndexers : list Object)
           (pValue : Object) : BoxedArray * result HRESULT :=
  if negb (m_allowWrite this) then (this, Ok E_NOTIMPL)
  else
    match SetAt_try this indexerCount ppIndexers pValue with
    | Ok (this', hr) => (this', Ok hr)
    | Throw e => (this, r <- ReturnResult h e false ;; Ok (fst r))
    | Undefined => (this, Undefined)
    end.

(** [BoxedArray::Iterator]: it points into the array of its
    [BoxedArray], which it reads at every step. *)
Record Iterator : Type := {
  it_arraySize : nat;
  m_pos : nat
}.

(** [BoxedArray::GetIterator]. *)
Definition GetIterator (this : BoxedArray) : HRESULT * Iterator :=
  (S_OK, {| it_arraySize := m_arraySize this; m_pos := 0 |}).

(** [Iterator::Reset]. *)
Definition Reset (it : Iterator) : Iterator * HRESULT :=
  ({| it_arraySize := it_arraySize it; m_pos := 0 |}, S_OK).

(** The [try] block of [Iterator::GetNext]. *)
Definition GetNext_try (this : BoxedArray) (it : Iterator) (dimensions : nat)
  : result (Iterator * HRESULT * GetNextOut) :=
  if it_arraySize it <=? m_pos it
  then Ok (it, E_BOUNDS, cleared dimensions)
  else
    x <- array_at (m_spArray this) (m_pos it) ;;
    objVal <- Box junk T x ;;
    ppIndexers <- (if Nat.eqb dimensions 1
                   then idx <- Box junk (TIntrinsic c_uint64) (Z.of_nat (m_pos it)) ;;
                        Ok [Some idx]
                   else Ok (repeat None dimensions)) ;;
    Ok ({| it_arraySize := it_arraySize it; m_pos := m_pos it + 1 |}, S_OK,
        {| ppObject := Some objVal; ppIndexers := ppIndexers |}).

(** [Iterator::GetNext]. *)
Definition GetNext (this : BoxedArray) (it : Iterator) (dimensions : nat)
  : Iterator * result (HRESULT * GetNextOut) :=
  if negb (Nat.eqb dimensions 0) && negb (Nat.eqb dimensions 1)
  then (it, Ok (E_INVALIDARG, cleared dimensions))
  else
    match GetNext_try this it dimensions with
    | Ok (it', hr, out) => (it', Ok (hr, out))
    | Throw e => (it, r <- ReturnResult h e false ;; Ok (fst r, cleared dimensions))
    | Undefined => (it, Undefined)
    end.

(** A host that calls [GetNext] until a call does not return [S_OK];
    [None] when [fuel] calls were not enough. *)
Fixpoint drain (fuel : nat) (this : BoxedArray) (it : Iterator) (dimensions : nat)
  : option (list GetNextOut * result HRESULT) :=
  match fuel with
  | 0 => None
  | S fuel' =>
      match GetNext this it dimensions with
      | (it', Ok (hr, out)) =>
          if (hr =? S_OK)%Z
          then match drain fuel' this it' dimensions with
               | Some (outs, final) => Some (out :: outs, final)
               | None => None
               end
          else Some ([], Ok hr)
      | (_, Throw e) => Some ([], Throw e)
      | (_, Undefined) => Some ([], Undefined)
      end
  end.

End Array.

Arguments m_spArray {T} b.
Arguments m_arraySize {T} b.
Arguments m_allowWrite {T} b.

End BoxedArray.

(** ** Link references without a model class *)

Module SpotLink.

(** The info blocks by address. *)
Definition Blocks : Type := DataModelReference -> DataModelReferenceInfo.

(** [SpotLinkReference]; [None] is the null [shared_ptr] a moved-from
    object is left with. *)
Record SpotLinkReference : Type := { m_dataRef : option DataModelReference }.

(** The default constructor; [fresh] is the address [make_shared]
    returns. *)
Definition construct (fresh : DataModelReference) (mem : Blocks)
  : Blocks * SpotLinkReference :=
  (fun r => if Nat.eqb r fresh then DataModelReferenceInfo_new else mem r,
   {| m_dataRef := Some fresh |}).

(** The move constructor: the new object and what is left of [src]. *)
Definition move_construct (src : SpotLinkReference)
  : SpotLinkReference * SpotLinkReference :=
  ({| m_dataRef := m_dataRef src |}, {| m_dataRef := None |}).

(** Move assignment from another object: [this] and [src] afterwards.
    The block [this] designated before loses one owner and nothing
    else. *)
Definition move_assign (this src : SpotLinkReference)
  : SpotLinkReference * SpotLinkReference :=
  ({| m_dataRef := m_dataRef src |}, {| m_dataRef := None |}).

(** The destructor. *)
Definition destroy (this : SpotLinkReference) (mem : Blocks) : Blocks :=
  match m_dataRef this with
  | Some d => fun r => if Nat.eqb r d then {| TypeIsLive := false |} else mem r
  | None => mem
  end.

(** [ThrowIfDetached] of a link reference an adapter has captured. *)
Definition ThrowIfDetached (mem : Blocks) (linkRef : DataModelReference) : result unit :=
  Lifetime.ThrowIfDetached (T := unit) {| references := mem; natives := fun _ => None |} linkRef.

End SpotLink.

(** ** Boxed interfaces *)

Module Interfaces.

(** The interfaces [InterfaceTraits] is specialised for. *)
Inductive Interface : Type :=
| IModelMethod | IModelPropertyAccessor | IModelKeyReference | IDebugHostContext.

(** [InterfaceTraits<T>::ObjectKind]. *)
Definition ObjectKind (I : Interface) : ModelObjectKind :=
  match I with
  | IModelMethod => ObjectMethod
  | IModelPropertyAccessor => ObjectPropertyAccessor
  | IModelKeyReference => ObjectKeyReference
  | IDebugHostContext => ObjectContext
  end.

Definition ModelObjectKind_eqb (a b : ModelObjectKind) : bool :=
  match a, b with
  | ObjectIntrinsic, ObjectIntrinsic | ObjectNoValue, ObjectNoValue
  | ObjectError, ObjectError | ObjectSynthetic, ObjectSynthetic
  | ObjectMethod, ObjectMethod | ObjectPropertyAccessor, ObjectPropertyAccessor
  | ObjectKeyReference, ObjectKeyReference | ObjectContext, ObjectContext => true
  | _, _ => false
  end.

(** [BoxObjectBase::CheckType]. *)
Definition CheckType (src : Object) (requiredKind : ModelObjectKind) : result unit :=
  r <- GetKind src ;;
  let '(hr, mk) := r in
  CheckHr hr ;;;
  if negb (ModelObjectKind_eqb mk requiredKind)
  then Throw (std_invalid_argument "Illegal object type")
  else Ok tt.

Section Unboxing.

(** [IModelObject::GetIntrinsicValue] of the host. *)
Variable GetIntrinsicValue : Object -> result (HRESULT * VARIANT).

(** [BoxObjectBase::ExtractInterface]: the interface pointer, as an
    address. *)
Definition ExtractInterface (src : Object) : result Z :=
  r <- GetIntrinsicValue src ;;
  let '(hr, vtVal) := r in
  CheckHr hr ;;;
  if negb (VARTYPE_eqb (vt vtVal) VT_UNKNOWN)
  then Throw (std_invalid_argument "Illegal object type")
  else Ok (raw vtVal mod 2 ^ 64).

(** [BoxObjectInterface<TInterface>::Unbox]. *)
Definition BoxObjectInterface_Unbox (I : Interface) (src : Object) : result Z :=
  CheckType src (ObjectKind I) ;;;
  ExtractInterface src.

End Unboxing.

(** [BoxObjectInterface<TInterface>::Box]. *)
Definition BoxObjectInterface_Box (junk : Z) (I : Interface) (interfacePointer : Z)
  : result Object :=
  let mk := ObjectKind I in
  let vtUnk := {| vt := VT_UNKNOWN; raw := store_low 64 (interfacePointer mod 2 ^ 64) junk |} in
  let '(hr, spInterface) := CreateIntrinsicObject mk vtUnk in
  CheckHr hr ;;; Ok spInterface.

End Interfaces.

(** ** Indexing a pointer *)

Module PointerIndexer.

Section Adapter.

Variable h : Host.

(** The type system of the debug host: [IDebugHostType] and the
    enumerations [TypeKind] and [PointerKind] with the two enumerators
    the adapter compares with. *)
Variables DebugHostType TypeKind PointerKind : Type.
Variable TypePointer : TypeKind.
Variable PointerStandard : PointerKind.
Variable TypeKind_eqb : TypeKind -> TypeKind -> bool.
Variable PointerKind_eqb : PointerKind -> PointerKind -> bool.

(** [IModelObject::GetTypeInfo], the methods of [IDebugHostType] and
    [IDataModelManager::CreateTypedObject] (with a null context), all of
    the host. *)
Variable GetTypeInfo : Object -> result (HRESULT * option DebugHostType).
Variable GetTypeKind : DebugHostType -> HRESULT * TypeKind.
Variable GetPointerKind : DebugHostType -> HRESULT * PointerKind.
Variable GetBaseType : DebugHostType -> HRESULT * DebugHostType.
Variable GetSize : DebugHostType -> HRESULT * Z.
Variable CreateTypedObject : Z -> DebugHostType -> HRESULT * Object.

(** The members [ullVal] and [llVal] of the value union. *)
Definition ullVal (v : VARIANT) : Z := raw v mod 2 ^ 64.
Definition llVal (v : VARIANT) : Z := value_of_bits c_int64 (raw v mod 2 ^ 64).

(** [PointerIndexerAdapter::GetAdjustedLocationAndBaseType]; the
    arithmetic is that of [ULONG64]. *)
Definition GetAdjustedLocationAndBaseType (pContextObject pIndex : Object)
  : result (Z * DebugHostType) :=
  r <- GetTypeInfo pContextObject ;;
  let '(hr, spType) := r in
  CheckHr hr ;;;
  match spType with
  | None => Throw unexpected_error_default
  | Some spType =>
      let '(hr, tk) := GetTypeKind spType in
      CheckHr hr ;;;
      let '(hr, pk) := GetPointerKind spType in
      CheckHr hr ;;;
      if negb (TypeKind_eqb tk TypePointer) || negb (PointerKind_eqb pk PointerStandard)
      then Throw unexpected_error_default
      else
        let '(hr, spBaseType) := GetBaseType spType in
        CheckHr hr ;;;
        let '(hr, baseSize) := GetSize spBaseType in
        CheckHr hr ;;;
        r <- GetIntrinsicValueAs h VT_UI8 pContextObject ;;
        let '(hr, vtPtr) := r in
        CheckHr hr ;;;
        r <- GetIntrinsicValueAs h VT_I8 pIndex ;;
        let '(hr, vtAdjustment) := r in
        CheckHr hr ;;;
        Ok ((ullVal vtPtr
             + ((baseSize mod 2 ^ 64) * (llVal vtAdjustment mod 2 ^ 64)) mod 2 ^ 64)
            mod 2 ^ 64,
            spBaseType)
  end.

(** The [try] block of [PointerIndexerAdapter::GetAt]. *)
Definition GetAt_try (pContextObject : Object) (indexerCount : nat)
           (ppIndexers : list Object) : result (HRESULT * option Object) :=
  if negb (Nat.eqb indexerCount 1)
  then Throw (illegal_operation "Pointer indexing may only be single dimensional")
  else
    pIndex <- pack_at ppIndexers 0 ;;
    r <- GetAdjustedLocationAndBaseType pContextObject pIndex ;;
    let '(ptrValue, spBaseType) := r in
    let '(hr, spObject) := CreateTypedObject ptrValue spBaseType in
    CheckHr hr ;;;
    Ok (S_OK, Some spObject).

(** [PointerIndexerAdapter::GetAt]. *)
Definition GetAt (pContextObject : Object) (indexerCount : nat)
           (ppIndexers : list Object) : result (HRESULT * option Object) :=
  match GetAt_try pContextObject indexerCount ppIndexers with
  | Ok r => Ok r
  | Throw e => ReturnResult h e true
  | Undefined => Undefined
  end.

End Adapter.

End PointerIndexer.

(** ** The hash of a type signature *)

Module SigHash.

(** The value of a [char], which is signed, converted to [ULONG64]. *)
Definition char_to_ULONG64 (c : Ascii.ascii) : Z :=
  let b := Z.of_N (Ascii.N_of_ascii c) in
  (if 128 <=? b then b - 256 else b) mod 2 ^ 64.

(** The loop of [GetSigHash]; it ends at the first NUL. *)
Fixpoint GetSigHash_loop (pc : string) (hash : Z) : Z :=
  match pc with
  | EmptyString => hash
  | String c rest =>
      if Z.of_N (Ascii.N_of_ascii c) =? 0 then hash
      else
        let hash := Z.lxor hash (char_to_ULONG64 c) in
        let hash := (hash * 16777619) mod 2 ^ 64 in
        GetSigHash_loop rest hash
  end.

(** [GetSigHash]. *)
Definition GetSigHash (pc : string) : Z := GetSigHash_loop pc 2166136261.

(** The 32-bit FNV-1a hash of a sequence of bytes, as it is published:
    offset basis 0x811C9DC5, prime 0x01000193, arithmetic modulo 2^32. *)
Fixpoint fnv1a_32_from (hash : Z) (bytes : list Z) : Z :=
  match bytes with
  | [] => hash
  | b :: rest => fnv1a_32_from ((Z.lxor hash b * 0x01000193) mod 2 ^ 32) rest
  end.

Definition fnv1a_32 (bytes : list Z) : Z := fnv1a_32_from 0x811C9DC5 bytes.

(** The bytes of a string. *)
Definition bytes_of (s : string) : list Z :=
  map (fun c => Z.of_N (Ascii.N_of_ascii c)) (list_ascii_of_string s).

End SigHash.

(** ** Vocabulary of the further properties *)

Module Properties.

Local Open Scope nat_scope.

(** The exception [CheckHr] raises, with display string [msg], on the far
    side of a boundary that [e] has reached: the class is kept for the
    classes with a status code of their own, and an [hr_exception] of
    [E_FAIL] stands for the others. *)
Definition rethrown (e : exception) (msg : string) : exception :=
  match e with
  | std_invalid_argument _ => std_invalid_argument msg
  | std_bad_alloc => std_bad_alloc
  | std_range_error _ => std_range_error msg
  | not_implemented _ => not_implemented msg
  | unexpected_error _ => unexpected_error msg
  | illegal_operation _ => illegal_operation msg
  | not_set _ => not_set msg
  | hr_exception hr _ => ThrowHr hr msg
  | object_detached _ | std_exception _ | non_std_exception => hr_exception E_FAIL msg
  end.

(** The status a failed host call has once [CheckHr] has thrown for it
    and a boundary has caught that. *)
Definition status_after_rethrow (hr : HRESULT) : HRESULT :=
  if (hr =? DISP_E_TYPEMISMATCH)%Z then E_INVALIDARG else hr.

(** The static type of a native argument, the tuple element that holds
    it, and the condition under which its boxed form unboxes to it. *)
Definition arg_type (a : Packing.Arg) : NativeType := projT1 a.
Definition arg_elem (a : Packing.Arg) : TupleElem := elem_val (projT1 a) (projT2 a).
Definition arg_round_trips (a : Packing.Arg) : Prop :=
  well_typed (projT1 a) (projT2 a) /\
  present_values_box_to_values (projT1 a) (projT2 a).

(** The boxed forms of the arguments, in order. *)
Fixpoint boxed_all (junk : Z) (args : list Packing.Arg) : result (list Object) :=
  match args with
  | [] => Ok []
  | a :: rest =>
      o <- Box junk (projT1 a) (projT2 a) ;;
      os <- boxed_all junk rest ;;
      Ok (o :: os)
  end.

(** What a boundary makes of the outcome of a bound function that
    returns an object: [S_OK] with the object, or the status (and error
    object) of the exception. *)
Definition at_the_boundary (h : Host) (r : result Object)
  : result (HRESULT * option Object) :=
  match r with
  | Ok o => Ok (S_OK, Some o)
  | Throw e => Ok (status_of e, attached_error h (status_of e) e true)
  | Undefined => Undefined
  end.

(** The array of a [BoxedArray] has the size the object records. *)
Definition sized {T : NativeType} (a : BoxedArray.BoxedArray T) : Prop :=
  List.length (BoxedArray.m_spArray a) = BoxedArray.m_arraySize a.

(** The failure of an index that is not in the array. *)
Definition out_of_bounds : exception := std_range_error "Out of bounds array index".

(** A debug host for the examples: type 0 is a standard pointer to type
    1, whose size is 4; any other type is not a pointer; the typed object
    at an address is the synthetic object of that number. *)
Definition example_GetTypeInfo (o : Object) : result (HRESULT * option nat) :=
  Ok (S_OK, Some 0).
Definition example_GetTypeKind (t : nat) : HRESULT * bool := (S_OK, Nat.eqb t 0).
Definition example_GetPointerKind (t : nat) : HRESULT * bool := (S_OK, true).
Definition example_GetBaseType (t : nat) : HRESULT * nat := (S_OK, 1).
Definition example_GetSize (t : nat) : HRESULT * Z := (S_OK, 4%Z).
Definition example_CreateTypedObject (address : Z) (t : nat) : HRESULT * Object :=
  (S_OK, SyntheticObject (Z.to_nat address)).

Definition example_pointer_GetAt
  : Object -> nat -> list Object -> result (HRESULT * option Object) :=
  PointerIndexer.GetAt example_host nat bool bool true true Bool.eqb Bool.eqb
    example_GetTypeInfo example_GetTypeKind example_GetPointerKind example_GetBaseType
    example_GetSize example_CreateTypedObject.

(** The pointer 4096 and the index -1 as data-model objects. *)
Definition example_pointer : Object :=
  IntrinsicObject ObjectIntrinsic {| vt := VT_UI8; raw := 4096 |}.
Definition example_minus_one : Object :=
  IntrinsicObject ObjectIntrinsic {| vt := VT_I8; raw := 18446744073709551615 |}.

(** The bytes of a string are 7-bit characters other than NUL. *)
Definition seven_bit (s : string) : Prop :=
  Forall (fun b => (0 < b < 128)%Z) (SigHash.bytes_of s).

End Properties.

Export Properties.

(** ** The boundary, with a message conversion that can fail *)

Module Platform.

Local Open Scope nat_scope.

(** What [StringUtils::GetWideString] asks of the platform: the first
    call of [MultiByteToWideChar], with no buffer, for the size; the
    allocation of [std::wstring::resize]; and the second call, into the
    buffer of that size, which returns the count it wrote with what it
    wrote. *)
Record Conversion : Type := {
  first_pass : string -> Z;
  resize : Z -> bool;
  second_pass : string -> Z -> Z * wstring
}.

(** The conversion of a host whose two passes are one function of the
    string, with memory for every buffer. *)
Definition deterministic (h : Host) : Conversion :=
  {| first_pass := fun s => Z.of_nat (List.length (MultiByteToWideChar h s));
     resize := fun _ => true;
     second_pass := fun s _ =>
       (Z.of_nat (List.length (MultiByteToWideChar h s)), MultiByteToWideChar h s) |}.

(** [StringUtils::GetWideString]: [resize] throws [std::bad_alloc] when
    the buffer cannot be allocated, and a second pass that does not write
    the size of the first is an [unexpected_error]. *)
Definition GetWideString (c : Conversion) (pString : string) : result wstring :=
  let sz := first_pass c pString in
  if (sz =? 0)%Z then Ok []
  else if negb (resize c sz) then Throw std_bad_alloc
  else
    let '(sz2, str) := second_pass c pString sz in
    if negb (sz =? sz2)%Z then Throw unexpected_error_default else Ok str.

(** [Exceptions::ReturnResult(exception, ppError)]: the handlers in the
    order of the source.  An exception that [GetWideString] throws inside
    a handler leaves [ReturnResult]. *)
Definition ReturnResult (h : Host) (c : Conversion) (e : exception) (ppError : bool)
  : result (HRESULT * option Object) :=
  r <- match e with
       | std_invalid_argument what =>
           errMsg <- GetWideString c what ;; Ok (E_INVALIDARG, errMsg)
       | std_bad_alloc => Ok (E_OUTOFMEMORY, [])
       | std_range_error what =>
           errMsg <- GetWideString c what ;; Ok (E_BOUNDS, errMsg)
       | not_implemented what =>
           errMsg <- GetWideString c what ;; Ok (E_NOTIMPL, errMsg)
       | unexpected_error what =>
           errMsg <- GetWideString c what ;; Ok (E_UNEXPECTED, errMsg)
       | hr_exception hr what =>
           errMsg <- GetWideString c what ;; Ok (hr, errMsg)
       | illegal_operation what =>
           errMsg <- GetWideString c what ;; Ok (E_ILLEGAL_METHOD_CALL, errMsg)
       | not_set what =>
           errMsg <- GetWideString c what ;; Ok (E_NOT_SET, errMsg)
       | object_detached what
       | std_exception what =>
           errMsg <- GetWideString c what ;; Ok (E_FAIL, errMsg)
       | non_std_exception => Ok (E_FAIL, [])
       end ;;
  let '(hr, errMsg) := r in
  if ppError && negb (Nat.eqb (List.length errMsg) 0) then
    match CreateErrorObject h hr errMsg with
    | Some spError => Ok (hr, Some spError)
    | None => Ok (hr, None)
    end
  else Ok (hr, None).

Section Adapters.

Variables T V : Type.
Variable h : Host.
Variable c : Conversion.
Variable junk : Z.
Variable m_genProjector : World T -> Object -> result nat.
Variable m_itemProjector : T -> result V.
Variable BoxObject : V -> result Object.
Variable Dimensionality : nat.
Variable InvokeGetAt : World T -> Object -> nat -> list Object -> result Object.
Variable InvokeSetAt : World T -> Object -> nat -> list Object -> Object -> result Object.

(** [BoundIterator::GetNext]: the [try] block and its [catch (...)],
    which stores the exception and returns what [ReturnResult] makes
    of it. *)
Definition GetNext (w : World T) (it : BoundIterator) (dimensions : nat)
  : BoundIterator * result (HRESULT * GetNextOut) :=
  match GetNext_try T V junk m_itemProjector BoxObject w it dimensions with
  | Ok (it', hr, out) => (it', Ok (hr, out))
  | Throw e =>
      let it' := set_m_thrown it e in
      (it', r <- ReturnResult h c e false ;; Ok (fst r, cleared dimensions))
  | Undefined => (it, Undefined)
  end.

(** [BoundIterableBase::GetIterator]. *)
Definition GetIterator (linkReference : DataModelReference) (w : World T)
           (pContextObject : Object) : result (HRESULT * option BoundIterator) :=
  match GetIterator_try T m_genProjector linkReference w pContextObject with
  | Ok spIter => Ok (S_OK, Some spIter)
  | Throw e => r <- ReturnResult h c e false ;; Ok (fst r, None)
  | Undefined => Undefined
  end.

(** [BoundIterableIndexableBase::GetAt]. *)
Definition GetAt (linkReference : DataModelReference) (w : World T)
           (pContextObject : Object) (indexerCount : nat) (ppIndexers : list Object)
  : result (HRESULT * option Object) :=
  match GetAt_try T V h m_genProjector m_itemProjector BoxObject
          linkReference w pContextObject indexerCount ppIndexers with
  | Ok r => Ok r
  | Throw e => ReturnResult h c e true
  | Undefined => Undefined
  end.

(** The [try] blocks of [BoundIterableWithIndexable::GetAt] and
    [SetAt]. *)
Definition WithIndexable_GetAt_try (linkReference : DataModelReference) (w : World T)
           (pContextObject : Object) (indexerCount : nat) (ppIndexers : list Object)
  : result (HRESULT * option Object) :=
  ThrowIfDetached w linkReference ;;;
  if negb (Nat.eqb indexerCount Dimensionality) then Ok (E_INVALIDARG, None)
  else idxVal <- InvokeGetAt w pContextObject indexerCount ppIndexers ;;
       Ok (S_OK, Some idxVal).

Definition WithIndexable_SetAt_try (linkReference : DataModelReference) (w : World T)
           (pContextObject : Object) (indexerCount : nat) (ppIndexers : list Object)
           (pValue : Object) : result HRESULT :=
  ThrowIfDetached w linkReference ;;;
  if negb (Nat.eqb indexerCount Dimensionality) then Ok E_INVALIDARG
  else InvokeSetAt w pContextObject indexerCount ppIndexers pValue ;;;
       Ok S_OK.

(** [BoundIterableWithIndexable::GetAt]. *)
Definition WithIndexable_GetAt (linkReference : DataModelReference) (w : World T)
           (pContextObject : Object) (indexerCount : nat) (ppIndexers : list Object)
  : result (HRESULT * option Object) :=
  match WithIndexable_GetAt_try linkReference w pContextObject indexerCount ppIndexers with
  | Ok r => Ok r
  | Throw e => ReturnResult h c e true
  | Undefined => Undefined
  end.

(** [BoundIterableWithIndexable::SetAt]. *)
Definition WithIndexable_SetAt (linkReference : DataModelReference) (w : World T)
           (pContextObject : Object) (indexerCount : nat) (ppIndexers : list Object)
           (pValue : Object) : result HRESULT :=
  match WithIndexable_SetAt_try linkReference w pContextObject indexerCount ppIndexers
          pValue with
  | Ok hr => Ok hr
  | Throw e => r <- ReturnResult h c e false ;; Ok (fst r)
  | Undefined => Undefined
  end.

End Adapters.

Section Calls.

Variable h : Host.
Variable c : Conversion.

(** [BoxedMethod::Call]. *)
Definition BoxedMethod_Call (TArgs : list ParamType)
           (m_func : Object -> list TupleElem -> result Object)
           (pContextObject : Object) (argCount : nat) (ppArguments : list Object)
  : option (result (HRESULT * option Object)) :=
  match Packing.InvokeMethodFromPack h TArgs m_func pContextObject argCount ppArguments with
  | None => None
  | Some r =>
      Some match r with
           | Ok result => Ok (S_OK, Some result)
           | Throw e => ReturnResult h c e true
           | Undefined => Undefined
           end
  end.

(** [BoundConstructable::CreateInstance]. *)
Definition BoundConstructable_CreateInstance (TArgs : list ParamType)
           (m_constructableProjector : list TupleElem -> result Object)
           (argCount : nat) (ppArguments : list Object)
  : option (result (HRESULT * option Object)) :=
  match Packing.LiteralInvokeFunctionFromPack h TArgs m_constructableProjector
          argCount ppArguments with
  | None => None
  | Some r =>
      Some match r with
           | Ok result => Ok (S_OK, Some result)
           | Throw e => r' <- ReturnResult h c e false ;; Ok (fst r', None)
           | Undefined => Undefined
           end
  end.

(** [BoxedProperty::GetValue]. *)
Definition BoxedProperty_GetValue (junk : Z) (T : NativeType)
           (m_getterFunc : Object -> result (value T)) (pContextObject : Object)
  : result (HRESULT * option Object) :=
  match (result <- m_getterFunc pContextObject ;; Box junk T result) with
  | Ok resultObject => Ok (S_OK, Some resultObject)
  | Throw e => ReturnResult h c e true
  | Undefined => Undefined
  end.

(** [BoxedProperty::SetValue]. *)
Definition BoxedProperty_SetValue (T : NativeType) {S : Type}
           (m_setterFunc : S -> Object -> value T -> S * result unit)
           (s : S) (pContextObject : Object) (pValue : Object)
  : S * result HRESULT :=
  match Unbox h T pValue with
  | Ok val =>
      let '(s', r) := m_setterFunc s pContextObject val in
      (s', match r with
           | Ok _ => Ok S_OK
           | Throw e => r' <- ReturnResult h c e false ;; Ok (fst r')
           | Undefined => Undefined
           end)
  | Throw e => (s, r' <- ReturnResult h c e false ;; Ok (fst r'))
  | Undefined => (s, Undefined)
  end.

End Calls.

End Platform.

(** ** Iteration over native sequences that may be single-pass *)

Module Generators.

Local Open Scope nat_scope.

(** Modelled from the spec: the native sequence an adapter is bound to
    is not part of the header; it offers begin/end traversal and is
    either a container, which can be traversed again and again, or a
    single-pass sequence (a generator), which is consumed as it is
    traversed.  [pending] is what a single-pass sequence has not passed
    yet, with the element its iterators currently designate first. *)
Inductive Sequence (T : Type) : Type :=
| Container (items : list T)
| InputRange (pending : list T).

Arguments Container {T} items.
Arguments InputRange {T} pending.

(** The iterators [TIter] of a native sequence: a position in a
    container; the one place a single-pass sequence can be read at; and
    the end of a single-pass sequence. *)
Inductive Cursor : Type :=
| Position (n : nat)
| Current
| Sentinel.

Definition Cursor_eqb (a b : Cursor) : bool :=
  match a, b with
  | Position n, Position m => Nat.eqb n m
  | Current, Current => true
  | Sentinel, Sentinel => true
  | _, _ => false
  end.

(** Modelled from the spec: [begin()] and [end()] of a native sequence.
    Taking [begin()] of a single-pass sequence again designates what it
    has not passed yet, the reading most favourable to a second
    traversal. *)
Definition begin {T : Type} (s : Sequence T) : Cursor :=
  match s with
  | Container _ => Position 0
  | InputRange [] => Sentinel
  | InputRange (_ :: _) => Current
  end.

Definition end_ {T : Type} (s : Sequence T) : Cursor :=
  match s with
  | Container items => Position (List.length items)
  | InputRange _ => Sentinel
  end.

(** Modelled from the spec: [*it]. *)
Definition deref {T : Type} (s : Sequence T) (it : Cursor) : result T :=
  match s, it with
  | Container items, Position n =>
      match nth_error items n with
      | Some x => Ok x
      | None => Undefined
      end
  | InputRange (x :: _), Current => Ok x
  | _, _ => Undefined
  end.

(** Modelled from the spec: [++it], the iterator afterwards and, when
    the step acts on the sequence, the sequence afterwards: a container
    is not touched, a single-pass sequence passes its current element. *)
Definition increment {T : Type} (s : Sequence T) (it : Cursor)
  : result (option (Sequence T) * Cursor) :=
  match s, it with
  | Container items, Position n =>
      if n <? List.length items then Ok (None, Position (n + 1)) else Undefined
  | InputRange (_ :: rest), Current =>
      Ok (Some (InputRange rest), match rest with [] => Sentinel | _ => Current end)
  | _, _ => Undefined
  end.

(** What a generator projection returns, and what a [BoundIterator]
    holds in [m_generator] ([TGen]): a reference to a native sequence,
    by its address, or a sequence by value, which is moved into the
    iterator. *)
Inductive Held (T : Type) : Type :=
| ByReference (address : nat)
| ByValue (s : Sequence T).

Arguments ByReference {T} address.
Arguments ByValue {T} s.

(** The memory shared with the native side: the info blocks and the
    native sequences by address ([None] once destroyed). *)
Record World (T : Type) : Type := {
  references : DataModelReference -> DataModelReferenceInfo;
  natives : nat -> option (Sequence T)
}.

Arguments references {T} w _.
Arguments natives {T} w _.

(** [ThrowIfDetached]. *)
Definition ThrowIfDetached {T : Type} (w : World T) (linkRef : DataModelReference)
  : result unit :=
  if negb (TypeIsLive (references w linkRef)) then Throw object_detached_default
  else Ok tt.

(** The sequence a held generator designates. *)
Definition sequence_of {T : Type} (w : World T) (g : Held T) : result (Sequence T) :=
  match g with
  | ByValue s => Ok s
  | ByReference a =>
      match natives w a with
      | Some s => Ok s
      | None => Undefined
      end
  end.

(** The effect of a step on the sequence a held generator designates: on
    the native sequence itself when it is held by reference, on the
    iterator's own sequence when it is held by value. *)
Definition stepped {T : Type} (w : World T) (g : Held T) (s' : option (Sequence T))
  : World T * Held T :=
  match s' with
  | None => (w, g)
  | Some s =>
      match g with
      | ByValue _ => (w, ByValue s)
      | ByReference a =>
          ({| references := references w;
              natives := fun a' => if Nat.eqb a' a then Some s else natives w a' |}, g)
      end
  end.

(** [BoundIterator<TGen, TIter, TProjector, IsRandom>]. *)
Record BoundIterator (T : Type) : Type := {
  m_generator : Held T;
  m_thrown : option exception;
  m_itBegin : Cursor;
  m_itEnd : Cursor;
  m_itCur : Cursor;
  m_linkReference : DataModelReference
}.

Arguments m_generator {T} b.
Arguments m_thrown {T} b.
Arguments m_itBegin {T} b.
Arguments m_itEnd {T} b.
Arguments m_itCur {T} b.
Arguments m_linkReference {T} b.

Definition set_m_itCur {T : Type} (it : BoundIterator T) (c : Cursor) : BoundIterator T :=
  {| m_generator := m_generator it; m_thrown := m_thrown it;
     m_itBegin := m_itBegin it; m_itEnd := m_itEnd it; m_itCur := c;
     m_linkReference := m_linkReference it |}.

Definition set_m_thrown {T : Type} (it : BoundIterator T) (e : exception)
  : BoundIterator T :=
  {| m_generator := m_generator it; m_thrown := Some e;
     m_itBegin := m_itBegin it; m_itEnd := m_itEnd it; m_itCur := m_itCur it;
     m_linkReference := m_linkReference it |}.

(** The iterator after [++m_itCur]. *)
Definition advanced {T : Type} (it : BoundIterator T) (g : Held T) (c : Cursor)
  : BoundIterator T :=
  {| m_generator := g; m_thrown := m_thrown it;
     m_itBegin := m_itBegin it; m_itEnd := m_itEnd it; m_itCur := c;
     m_linkReference := m_linkReference it |}.

(** The offset [itCur - itBegin] of random-access iterators. *)
Definition offset (itBegin itCur : Cursor) : nat :=
  match itBegin, itCur with
  | Position b, Position n => n - b
  | _, _ => 0
  end.

Section Adapter.

Variables T V : Type.
Variable h : Host.
Variable c : Platform.Conversion.
Variable junk : Z.

(** [IsRandomAccessIterator_v<CIterator>], which selects the
    [IndexerTraits]: the linear index, or none. *)
Variable IsRandom : bool.

Variable m_genProjector : World T -> Object -> result (Held T).
Variable m_itemProjector : T -> result V.
Variable BoxObject : V -> result Object.

(** [IndexerTraits<TVal, TIter, IsRandom>]. *)
Definition CheckDimensions (dimensionality : nat) : bool :=
  if IsRandom then Iteration.CheckDimensions dimensionality
  else Nat.eqb dimensionality 0.

Definition CreateIndexers (itBegin itCur : Cursor) (dimensionality : nat)
           (pIndexers : list Object) : result (list Object) :=
  if IsRandom
  then Iteration.CreateIndexers junk 0 (offset itBegin itCur) dimensionality pIndexers
  else Ok pIndexers.

Definition FillIndexers (dimensionality : nat) (pIndexers : list Object)
           (ppIndexers : list (option Object)) : list (option Object) :=
  if IsRandom then Iteration.FillIndexers dimensionality pIndexers ppIndexers
  else ppIndexers.

(** [BoundIterator::Reset]. *)
Definition Reset (it : BoundIterator T) : BoundIterator T * HRESULT :=
  (set_m_itCur it (m_itBegin it), S_OK).

(** The [try] block of [BoundIterator::GetNext]: the memory and the
    iterator afterwards, the status and the out parameters. *)
Definition GetNext_try (w : World T) (it : BoundIterator T) (dimensions : nat)
  : result (World T * BoundIterator T * HRESULT * GetNextOut) :=
  let _ := CheckDimensions dimensions in
  ThrowIfDetached w (m_linkReference it) ;;;
  match m_thrown it with
  | Some thrown => Throw thrown
  | None =>
      if Cursor_eqb (m_itCur it) (m_itEnd it)
      then Ok (w, it, E_BOUNDS, cleared dimensions)
      else
        s <- sequence_of w (m_generator it) ;;
        x <- deref s (m_itCur it) ;;
        val <- m_itemProjector x ;;
        objVal <- BoxObject val ;;
        pIdxs <- CreateIndexers (m_itBegin it) (m_itCur it) dimensions
                   (repeat NullObject (Nat.max dimensions 1)) ;;
        r <- increment s (m_itCur it) ;;
        let '(s', itCur) := r in
        let '(w', generator) := stepped w (m_generator it) s' in
        Ok (w', advanced it generator itCur, S_OK,
            {| ppObject := Some objVal;
               ppIndexers := FillIndexers dimensions pIdxs (repeat None dimensions) |})
  end.

(** [BoundIterator::GetNext]. *)
Definition GetNext (w : World T) (it : BoundIterator T) (dimensions : nat)
  : World T * BoundIterator T * result (HRESULT * GetNextOut) :=
  match GetNext_try w it dimensions with
  | Ok (w', it', hr, out) => (w', it', Ok (hr, out))
  | Throw e =>
      let it' := set_m_thrown it e in
      (w, it', r <- Platform.ReturnResult h c e false ;; Ok (fst r, cleared dimensions))
  | Undefined => (w, it, Undefined)
  end.

(** The [try] block of [BoundIterableBase::GetIterator]. *)
Definition GetIterator_try (linkReference : DataModelReference) (w : World T)
           (pContextObject : Object) : result (BoundIterator T) :=
  ThrowIfDetached w linkReference ;;;
  generator <- m_genProjector w pContextObject ;;
  s <- sequence_of w generator ;;
  let itBegin := begin s in
  let itEnd := end_ s in
  Ok {| m_generator := generator; m_thrown := None;
        m_itBegin := itBegin; m_itEnd := itEnd; m_itCur := itBegin;
        m_linkReference := linkReference |}.

(** [BoundIterableBase::GetIterator]. *)
Definition GetIterator (linkReference : DataModelReference) (w : World T)
           (pContextObject : Object) : result (HRESULT * option (BoundIterator T)) :=
  match GetIterator_try linkReference w pContextObject with
  | Ok spIter => Ok (S_OK, Some spIter)
  | Throw e => r <- Platform.ReturnResult h c e false ;; Ok (fst r, None)
  | Undefined => Undefined
  end.

(** A host that drains an iterator: it calls [GetNext] until a call
    does not return [S_OK]; the memory afterwards, what the successful
    calls produced, and how the last call ended.  [None] when [fuel]
    calls were not enough. *)
Fixpoint drain (fuel : nat) (w : World T) (it : BoundIterator T) (dimensions : nat)
  : option (World T * BoundIterator T * list GetNextOut * result HRESULT) :=
  match fuel with
  | 0 => None
  | S fuel' =>
      match GetNext w it dimensions with
      | (w', it', Ok (hr, out)) =>
          if (hr =? S_OK)%Z
          then match drain fuel' w' it' dimensions with
               | Some (w'', it'', outs, final) => Some (w'', it'', out :: outs, final)
               | None => None
               end
          else Some (w', it', [], Ok hr)
      | (w', it', Throw e) => Some (w', it', [], Throw e)
      | (w', it', Undefined) => Some (w', it', [], Undefined)
      end
  end.

(** A host that calls [GetNext] [n] times. *)
Fixpoint steps (n : nat) (w : World T) (it : BoundIterator T) (dimensions : nat)
  : World T * BoundIterator T :=
  match n with
  | 0 => (w, it)
  | S n' =>
      let '(w', it', _) := GetNext w it dimensions in
      steps n' w' it' dimensions
  end.

(** One traversal: ask the adapter for an iterator and drain it. *)
Definition traverse (fuel : nat) (linkReference : DataModelReference) (w : World T)
           (pContextObject : Object) (dimensions : nat)
  : option (World T * list GetNextOut * result HRESULT) :=
  match GetIterator linkReference w pContextObject with
  | Ok (_, Some it) =>
      match drain fuel w it dimensions with
      | Some (w', _, outs, final) => Some (w', outs, final)
      | None => None
      end
  | Ok (hr, None) => Some (w, [], Ok hr)
  | Throw e => Some (w, [], Throw e)
  | Undefined => Some (w, [], Undefined)
  end.

(** Two traversals, the second one in the memory the first one leaves:
    what each handed out and how each ended. *)
Definition traverse_twice (fuel : nat) (linkReference : DataModelReference)
           (w : World T) (pContextObject : Object) (dimensions : nat)
  : option ((list GetNextOut * result HRESULT) * (list GetNextOut * result HRESULT)) :=
  match traverse fuel linkReference w pContextObject dimensions with
  | Some (w', outs1, final1) =>
      match traverse fuel linkReference w' pContextObject dimensions with
      | Some (_, outs2, final2) => Some ((outs1, final1), (outs2, final2))
      | None => None
      end
  | None => None
  end.

(** Two traversals whose iterators are both requested before either is
    drained. *)
Definition traverse_both (fuel : nat) (linkReference : DataModelReference)
           (w : World T) (pContextObject : Object) (dimensions : nat)
  : option ((list GetNextOut * result HRESULT) * (list GetNextOut * result HRESULT)) :=
  match GetIterator linkReference w pContextObject,
        GetIterator linkReference w pContextObject with
  | Ok (_, Some it1), Ok (_, Some it2) =>
      match drain fuel w it1 dimensions with
      | Some (w', _, outs1, final1) =>
          match drain fuel w' it2 dimensions with
          | Some (_, _, outs2, final2) => Some ((outs1, final1), (outs2, final2))
          | None => None
          end
      | None => None
      end
  | _, _ => None
  end.

End Adapter.

End Generators.

(** ** Vocabulary of the statements about the two *)

Module Conditions.

Local Open Scope nat_scope.

(** The [what()] a handler of [ReturnResult] converts; [std::bad_alloc]
    and an object that is no standard exception have no handler that
    converts one. *)
Definition message (e : exception) : option string :=
  match e with
  | std_invalid_argument what | std_range_error what | not_implemented what
  | unexpected_error what | hr_exception _ what | illegal_operation what
  | not_set what | object_detached what | std_exception what => Some what
  | std_bad_alloc | non_std_exception => None
  end.

(** The conversion [ReturnResult] makes for [e]. *)
Definition converted (c : Platform.Conversion) (e : exception) : result wstring :=
  match message e with
  | Some what => Platform.GetWideString c what
  | None => Ok []
  end.

(** What [ReturnResult] stores in the caller's error slot for the status
    [hr] and the converted message [errMsg]. *)
Definition attached (h : Host) (hr : HRESULT) (errMsg : wstring) (ppError : bool)
  : option Object :=
  if ppError && negb (Nat.eqb (List.length errMsg) 0)
  then CreateErrorObject h hr errMsg
  else None.

(** A platform whose second pass writes nothing, and one with no
    memory for the buffer; both report five characters in the first
    pass. *)
Definition disagreeing : Platform.Conversion :=
  {| Platform.first_pass := fun _ => 5%Z;
     Platform.resize := fun _ => true;
     Platform.second_pass := fun _ _ => (0%Z, []) |}.

Definition out_of_memory : Platform.Conversion :=
  {| Platform.first_pass := fun _ => 5%Z;
     Platform.resize := fun _ => false;
     Platform.second_pass := fun _ _ => (5%Z, [104; 101; 108; 108; 111]%Z) |}.

(** The elements of a native sequence that have not been passed. *)
Definition items {T : Type} (s : Generators.Sequence T) : list T :=
  match s with
  | Generators.Container l => l
  | Generators.InputRange l => l
  end.

(** A sequence that a second request finds as the first one found it: a
    container, whatever holds it, or a sequence the generator projection
    returns by value, which each request acquires anew. *)
Definition traversable_again {T : Type} (g : Generators.Held T)
           (s : Generators.Sequence T) : Prop :=
  (exists l, s = Generators.Container l) \/ g = Generators.ByValue s.

(** What one step hands out for the element at position [index]: the
    boxed projection, with the boxed position when the iterators are
    random-access and one index is asked for. *)
Definition handed_out (junk : Z) (IsRandom : bool) (objVal : Object)
           (index dimensions : nat) : GetNextOut :=
  if IsRandom then produced junk objVal index dimensions
  else {| ppObject := Some objVal; ppIndexers := repeat None dimensions |}.

(** The full logical sequence of the elements [l], the first of them at
    position [index]; [None] when an element does not project or box. *)
Fixpoint sequence_handed_out {T V : Type} (junk : Z) (IsRandom : bool)
         (m_itemProjector : T -> result V) (BoxObject : V -> result Object)
         (l : list T) (index dimensions : nat) : option (list GetNextOut) :=
  match l with
  | [] => Some []
  | x :: rest =>
      match (val <- m_itemProjector x ;; BoxObject val) with
      | Ok objVal =>
          match sequence_handed_out junk IsRandom m_itemProjector BoxObject rest
                  (S index) dimensions with
          | Some outs => Some (handed_out junk IsRandom objVal index dimensions :: outs)
          | None => None
          end
      | _ => None
      end
  end.

(** A live iterator with no stored failure at position [n] of the
    container [l]. *)
Definition standing {T : Type} (w : Generators.World T) (it : Generators.BoundIterator T)
           (l : list T) (n : nat) : Prop :=
  TypeIsLive (Generators.references w (Generators.m_linkReference it)) = true /\
  Generators.m_thrown it = None /\
  Generators.sequence_of w (Generators.m_generator it) = Ok (Generators.Container l) /\
  Generators.m_itBegin it = Generators.Position 0 /\
  Generators.m_itEnd it = Generators.Position (List.length l) /\
  Generators.m_itCur it = Generators.Position n /\
  n <= List.length l.

(** A live iterator with no stored failure over a single-pass sequence
    that has [pending] left to pass. *)
Definition reading {T : Type} (w : Generators.World T) (it : Generators.BoundIterator T)
           (pending : list T) : Prop :=
  TypeIsLive (Generators.references w (Generators.m_linkReference it)) = true /\
  Generators.m_thrown it = None /\
  Generators.sequence_of w (Generators.m_generator it)
  = Ok (Generators.InputRange pending) /\
  Generators.m_itEnd it = Generators.Sentinel /\
  Generators.m_itCur it
  = match pending with [] => Generators.Sentinel | _ => Generators.Current end.

(** The memory and the iterators of [Iteration], whose native sequences
    are containers held by reference, among the ones of [Generators]. *)
Definition containers {T : Type} (w : World T) : Generators.World T :=
  {| Generators.references := references w;
     Generators.natives := fun a =>
       match natives w a with
       | Some l => Some (Generators.Container l)
       | None => None
       end |}.

Definition over_a_container {T : Type} (it : BoundIterator) : Generators.BoundIterator T :=
  {| Generators.m_generator := Generators.ByReference (m_generator it);
     Generators.m_thrown := m_thrown it;
     Generators.m_itBegin := Generators.Position (m_itBegin it);
     Generators.m_itEnd := Generators.Position (m_itEnd it);
     Generators.m_itCur := Generators.Position (m_itCur it);
     Generators.m_linkReference := m_linkReference it |}.

(** The generator is held by value. *)
Definition by_value {T : Type} (g : Generators.Held T) : Prop :=
  exists s, g = Generators.ByValue s.

(** The memory of the examples: the container [10, 20, 30] at address 0
    and a single-pass sequence of the same elements at address 1, with
    every link reference live. *)
Definition example_memory : Generators.World Z :=
  {| Generators.references := fun _ => DataModelReferenceInfo_new;
     Generators.natives := fun a =>
       if Nat.eqb a 0 then Some (Generators.Container [10; 20; 30]%Z)
       else if Nat.eqb a 1 then Some (Generators.InputRange [10; 20; 30]%Z)
       else None |}.

(** Generator projections of the examples: the container by reference,
    the single-pass sequence by reference (a boxed generator), and a
    single-pass sequence acquired anew by each request (a
    [GeneratedIterable]). *)
Definition container_projector (w : Generators.World Z) (obj : Object)
  : result (Generators.Held Z) := Ok (Generators.ByReference 0).
Definition boxed_generator_projector (w : Generators.World Z) (obj : Object)
  : result (Generators.Held Z) := Ok (Generators.ByReference 1).
Definition generated_iterable_projector (w : Generators.World Z) (obj : Object)
  : result (Generators.Held Z) :=
  Ok (Generators.ByValue (Generators.InputRange [10; 20; 30]%Z)).

End Conditions.

Export Conditions.

(** ** Exceptions at the boundary *)

Lemma GetWideString_total (h : Host) (s : string) :
  GetWideString h s = Ok (MultiByteToWideChar h s).
Proof.
  unfold GetWideString.
  destruct (Z.eqb_spec (Z.of_nat (List.length (MultiByteToWideChar h s))) 0) as [E|E].
  - destruct (MultiByteToWideChar h s); [reflexivity | discriminate E].
  - rewrite Z.eqb_refl. reflexivity.
Qed.

Lemma ReturnResult_status (h : Host) (e : exception) (ppError : bool) :
  ReturnResult h e ppError
  = Ok (status_of e, attached_error h (status_of e) e ppError).
Proof.
  unfold ReturnResult, attached_error.
  destruct e; simpl; rewrite ?GetWideString_total; simpl;
    match goal with
    | |- context [if ?c then _ else _] => destruct c
    end;
    try match goal with
    | |- context [CreateErrorObject ?a ?b ?c] => destruct (CreateErrorObject a b c) eqn:?
    end; reflexivity.
Qed.

Lemma ReturnResult_no_escape (h : Host) (e : exception) (ppError : bool) :
  no_escape (ReturnResult h e ppError).
Proof.
  intros e'. rewrite ReturnResult_status. discriminate.
Qed.

(** ** Boxing round trips *)

Lemma VARTYPE_eqb_refl (a : VARTYPE) : VARTYPE_eqb a a = true.
Proof. destruct a; reflexivity. Qed.

Lemma VARTYPE_bits_VariantType (t : Intrinsic) :
  VARTYPE_bits (VariantType t) = bits t.
Proof. destruct t; reflexivity. Qed.

Lemma store_low_mod (w b old : Z) :
  0 < 2 ^ w -> (store_low w b old) mod 2 ^ w = b mod 2 ^ w.
Proof.
  intros Hw. unfold store_low.
  rewrite Z.add_comm, Z.mod_add by lia. reflexivity.
Qed.

Lemma bits_pos (t : Intrinsic) : 0 < 2 ^ bits t.
Proof. destruct t; reflexivity. Qed.

Lemma value_of_object_bits (t : Intrinsic) (x : Z) :
  in_range t x -> value_of_bits t (object_bits t x) = x.
Proof.
  unfold in_range, min_value, max_value, value_of_bits, object_bits.
  destruct t; simpl; intros Hx;
    match goal with
    | |- context [x mod ?m] =>
        pose proof (Z.mod_pos_bound x m ltac:(lia));
        pose proof (Z.div_mod x m ltac:(lia))
    end;
    try match goal with
    | |- context [?a <=? ?b] => destruct (Z.leb_spec a b)
    end; nia.
Qed.

Lemma BoxObjectIntrinsic_round_trip (h : Host) (junk : Z) (t : Intrinsic) (x : Z) :
  in_range t x ->
  (o <- BoxObjectIntrinsic_Box junk t x ;; BoxObjectIntrinsic_Unbox h t o) = Ok x.
Proof.
  intros Hx. unfold BoxObjectIntrinsic_Box, BoxObjectIntrinsic_Unbox,
    CreateIntrinsicObject, GetIntrinsicValueAs, FillVariant. simpl.
  rewrite VARTYPE_eqb_refl. simpl.
  unfold ExtractFromVariant. simpl.
  rewrite VARTYPE_bits_VariantType.
  rewrite Z.mod_mod by (pose proof (bits_pos t); lia).
  rewrite store_low_mod by apply bits_pos.
  unfold object_bits at 1. rewrite Z.mod_mod by (pose proof (bits_pos t); lia).
  f_equal. apply value_of_object_bits. exact Hx.
Qed.

Lemma BoxObject_bool_round_trip (h : Host) (junk : Z) (b : bool) :
  (o <- BoxObject_bool_Box junk b ;; BoxObject_bool_Unbox h o) = Ok b.
Proof.
  unfold BoxObject_bool_Box, BoxObject_bool_Unbox, CreateIntrinsicObject,
    GetIntrinsicValueAs, FillVariant_bool, ExtractFromVariant_bool. simpl.
  f_equal. change (2 ^ 16) with 65536.
  rewrite Z.mod_mod by lia.
  unfold store_low. change (2 ^ 16) with 65536.
  rewrite Z.add_comm, Z.mod_add by lia.
  destruct b; reflexivity.
Qed.

Lemma BoxObjectIntrinsic_Box_kind (junk : Z) (t : Intrinsic) (x : Z) :
  exists v, BoxObjectIntrinsic_Box junk t x = Ok (IntrinsicObject ObjectIntrinsic v).
Proof. unfold BoxObjectIntrinsic_Box. simpl. eexists. reflexivity. Qed.

(** A value that boxes to an object of a kind other than no-value does so. *)
Lemma boxed_kind (junk : Z) (T : NativeType) (x : value T) (o : Object) :
  boxes_to_value T x = true ->
  Box junk T x = Ok o ->
  exists hr mk, GetKind o = Ok (hr, mk) /\ hr = S_OK /\ mk <> ObjectNoValue.
Proof.
  revert x o. induction T as [t| |u|T' IH|]; simpl; intros x o Hb Ho.
  - destruct (BoxObjectIntrinsic_Box_kind junk t x) as [v Hv].
    rewrite Hv in Ho. injection Ho as <-. exists S_OK, ObjectIntrinsic.
    repeat split. discriminate.
  - unfold BoxObject_bool_Box in Ho. simpl in Ho. injection Ho as <-.
    exists S_OK, ObjectIntrinsic. repeat split. discriminate.
  - destruct (BoxObjectIntrinsic_Box_kind junk u (enumerator x)) as [v Hv].
    rewrite Hv in Ho. injection Ho as <-. exists S_OK, ObjectIntrinsic.
    repeat split. discriminate.
  - destruct x as [y|]; [|discriminate]. eapply IH; eassumption.
  - injection Ho as <-.
    destruct x as [|kind v| | |]; simpl in *; try discriminate.
    + exists S_OK, kind. repeat split. intros ->. discriminate.
    + exists S_OK, ObjectError. repeat split. discriminate.
    + exists S_OK, ObjectSynthetic. repeat split. discriminate.
Qed.

Lemma Box_then_Unbox (h : Host) (junk : Z) (T : NativeType) (x : value T) :
  well_typed T x ->
  present_values_box_to_values T x ->
  (o <- Box junk T x ;; Unbox h T o) = Ok x.
Proof.
  revert x.
  induction T as [t| |u|T' IH|];
    cbn [Box Unbox well_typed present_values_box_to_values]; intros x Hx Hp.
  - apply BoxObjectIntrinsic_round_trip. exact Hx.
  - apply BoxObject_bool_round_trip.
  - pose proof (BoxObjectIntrinsic_round_trip h junk u (enumerator x) Hx) as H.
    destruct (BoxObjectIntrinsic_Box junk u (enumerator x)) as [o|e|];
      cbn [bind] in *; try discriminate.
    rewrite H. cbn [bind]. destruct x; reflexivity.
  - destruct x as [y|]; [|reflexivity].
    destruct Hp as [Hb Hp].
    specialize (IH y Hx Hp).
    destruct (Box junk T' y) as [o|e|] eqn:Ho; cbn [bind] in *; try discriminate.
    destruct (boxed_kind junk T' y o Hb Ho) as (hr & mk & Hk & -> & Hmk).
    rewrite Hk. cbn [bind]. change (CheckHr S_OK) with (Ok tt). cbn [bind].
    rewrite IH. cbn [bind].
    destruct mk; try reflexivity. contradiction.
  - reflexivity.
Qed.

(** C5 (as amended).  Unboxing the boxed form of a value gives the value
    back, for every scalar type with intrinsic traits (any value of the
    type, the limits of its range included; [float] and [double] by their
    bit patterns), for [bool], for enumerations boxed through their
    underlying type, for [Object], and for [std::optional<T>] over these,
    provided a present value does not box to a no-value (or empty) object:
    an empty optional comes back empty through the no-value marker. *)
Theorem box_unbox_round_trip (h : Host) (junk : Z) (T : NativeType) (x : value T) :
  well_typed T x ->
  present_values_box_to_values T x ->
  (o <- Box junk T x ;; Unbox h T o) = Ok x.
Proof. apply Box_then_Unbox. Qed.

Lemma box_unbox_round_trip_witness :
  (well_typed (TOptional (TIntrinsic c_int)) (Some (-1)) /\
   present_values_box_to_values (TOptional (TIntrinsic c_int)) (Some (-1))) /\
  (o <- Box 12345678901234567890 (TOptional (TIntrinsic c_int)) (Some (-1)) ;;
   Unbox example_host (TOptional (TIntrinsic c_int)) o) = Ok (Some (-1)).
Proof.
  assert (Hw : well_typed (TOptional (TIntrinsic c_int)) (Some (-1))).
  { simpl. unfold in_range, min_value, max_value. simpl. lia. }
  assert (Hp : present_values_box_to_values (TOptional (TIntrinsic c_int)) (Some (-1))).
  { simpl. split; [reflexivity | exact I]. }
  split; [split; assumption|].
  exact (box_unbox_round_trip example_host 12345678901234567890
           (TOptional (TIntrinsic c_int)) (Some (-1)) Hw Hp).
Defined.

(** C5, counterexample.  A present [std::optional<Object>] that holds the
    no-value object boxes to that object and unboxes to the empty optional. *)
Lemma optional_of_no_value_does_not_round_trip :
  well_typed (TOptional TObject) (Some NoValueObject) /\
  (o <- Box 0 (TOptional TObject) (Some NoValueObject) ;;
   Unbox example_host (TOptional TObject) o) = Ok None /\
  (o <- Box 0 (TOptional TObject) (Some NoValueObject) ;;
   Unbox example_host (TOptional TObject) o) <> Ok (Some NoValueObject).
Proof.
  split; [exact I|]. split; [reflexivity|]. simpl. discriminate.
Qed.

(** The same for a present optional that holds an empty optional. *)
Lemma nested_empty_optional_does_not_round_trip :
  (o <- Box 0 (TOptional (TOptional (TIntrinsic c_int))) (Some None) ;;
   Unbox example_host (TOptional (TOptional (TIntrinsic c_int))) o) = Ok None.
Proof. reflexivity. Qed.

(** The limits of the ranges and -1, boxed and unboxed. *)
Lemma round_trip_at_the_limits (h : Host) (junk : Z) (t : Intrinsic) :
  (o <- Box junk (TIntrinsic t) (min_value t) ;; Unbox h (TIntrinsic t) o) = Ok (min_value t) /\
  (o <- Box junk (TIntrinsic t) (max_value t) ;; Unbox h (TIntrinsic t) o) = Ok (max_value t) /\
  (o <- Box junk (TIntrinsic t) 0 ;; Unbox h (TIntrinsic t) o) = Ok 0 /\
  (is_signed t = true ->
   (o <- Box junk (TIntrinsic t) (-1) ;; Unbox h (TIntrinsic t) o) = Ok (-1)).
Proof.
  repeat match goal with |- _ /\ _ => split end; intros;
    apply (Box_then_Unbox h junk (TIntrinsic t)); try exact I;
    unfold well_typed, in_range, min_value, max_value in *;
    destruct t; simpl in *; try discriminate; lia.
Qed.

(** ** Signatures: classification *)

Section SignatureFacts.

Local Open Scope nat_scope.

Lemma IsVariableArgumentPosition_inv (l : list ParamType) :
  IsVariableArgumentPosition l = true -> l = variadic_pair.
Proof.
  destruct l as [|[|[[]| | | |]] [|[|?] [|? ?]]]; simpl; try discriminate.
  reflexivity.
Qed.

Lemma IsVariableArgumentPosition_slot_types (regs : list NativeType) (variadic : bool) :
  IsVariableArgumentPosition (slot_types regs variadic)
  = match regs with [] => variadic | _ => false end.
Proof.
  destruct (IsVariableArgumentPosition (slot_types regs variadic)) eqn:E.
  - apply IsVariableArgumentPosition_inv in E.
    destruct regs as [|T1 [|T2 r]]; destruct variadic; try discriminate E;
      reflexivity.
  - destruct regs as [|T1 r]; [|reflexivity].
    destruct variadic; [discriminate E | reflexivity].
Qed.

Lemma HasVariableArgumentHelper2_app_pair (l : list ParamType) (a b : ParamType) :
  HasVariableArgumentHelper2 (l ++ [a; b]) = IsVariableArgumentPosition [a; b].
Proof.
  induction l as [|x l IH]; [reflexivity|].
  destruct l as [|y [|z l]]; try reflexivity; exact IH.
Qed.

Lemma HasVariableArgumentHelper2_In (l : list ParamType) :
  HasVariableArgumentHelper2 l = true -> In P_ObjectPtr l.
Proof.
  induction l as [|x l IH]; [discriminate|].
  destruct l as [|y [|z l]].
  - destruct x as [|[[]| | | |]]; discriminate.
  - intros H. change (IsVariableArgumentPosition [x; y] = true) in H.
    apply IsVariableArgumentPosition_inv in H.
    injection H as -> ->. right. left. reflexivity.
  - intros H. right. apply IH. exact H.
Qed.

Lemma HasVariableArguments_app_pair (l : list ParamType) :
  HasVariableArguments (l ++ variadic_pair) = true.
Proof.
  unfold HasVariableArguments.
  rewrite length_app. simpl.
  replace (List.length l + 2) with (S (S (List.length l))) by lia.
  apply (HasVariableArgumentHelper2_app_pair l P_size_t P_ObjectPtr).
Qed.

Lemma HasVariableArguments_values (l : list NativeType) :
  HasVariableArguments (map P_val l) = false.
Proof.
  destruct (HasVariableArguments (map P_val l)) eqn:E; [|reflexivity].
  unfold HasVariableArguments in E.
  destruct (List.length (map P_val l)) as [|[|n]]; try discriminate.
  apply HasVariableArgumentHelper2_In in E.
  apply in_map_iff in E. destruct E as (T & HT & _). discriminate.
Qed.

Lemma HasVariableArguments_slot_types (leading regs : list NativeType) (variadic : bool) :
  HasVariableArguments (map P_val leading ++ slot_types regs variadic) = variadic.
Proof.
  unfold slot_types. destruct variadic.
  - rewrite app_assoc. apply HasVariableArguments_app_pair.
  - rewrite app_nil_r, <- map_app. apply HasVariableArguments_values.
Qed.

(** After the optional slots only optional slots and the pair follow. *)
Lemma HasNonOptionalArguments_optionals (opt : list NativeType) (variadic : bool) :
  slot_types (map TOptional opt) variadic <> [] ->
  HasNonOptionalArguments (slot_types (map TOptional opt) variadic) = false.
Proof.
  induction opt as [|T opt IH]; intros Hne.
  - destruct variadic; [reflexivity | contradiction].
  - change (slot_types (map TOptional (T :: opt)) variadic)
      with (P_val (TOptional T) :: slot_types (map TOptional opt) variadic).
    destruct (slot_types (map TOptional opt) variadic) as [|y l] eqn:E;
      [reflexivity|].
    change (HasNonOptionalArguments (P_val (TOptional T) :: y :: l))
      with (HasNonOptionalArguments (y :: l)).
    apply IH. discriminate.
Qed.

Lemma HasOptionalArguments_optionals (opt : list NativeType) (variadic : bool) :
  HasOptionalArguments (slot_types (map TOptional opt) variadic)
  = Some (negb (Nat.eqb (List.length opt) 0)).
Proof.
  induction opt as [|T opt IH].
  - destruct variadic; reflexivity.
  - change (slot_types (map TOptional (T :: opt)) variadic)
      with (P_val (TOptional T) :: slot_types (map TOptional opt) variadic).
    pose proof (HasNonOptionalArguments_optionals opt variadic) as Hn.
    destruct (slot_types (map TOptional opt) variadic) as [|y l] eqn:E;
      [reflexivity|].
    cbn [HasOptionalArguments]. cbn [HasOptionalArguments] in IH.
    rewrite IH. rewrite Hn by discriminate. reflexivity.
Qed.

Lemma slot_types_cons (T : NativeType) (regs : list NativeType) (variadic : bool) :
  slot_types (T :: regs) variadic = P_val T :: slot_types regs variadic.
Proof. reflexivity. Qed.

Lemma HasOptionalArguments_classified (req opt : list NativeType) (variadic : bool) :
  forallb (fun T => negb (is_optional T)) req = true ->
  HasOptionalArguments (slot_types (req ++ map TOptional opt) variadic)
  = Some (negb (Nat.eqb (List.length opt) 0)).
Proof.
  induction req as [|T req IH]; intros Hreq.
  - apply HasOptionalArguments_optionals.
  - simpl in Hreq. apply andb_prop in Hreq. destruct Hreq as [HT Hreq].
    specialize (IH Hreq).
    change ((T :: req) ++ map TOptional opt) with (T :: (req ++ map TOptional opt)).
    rewrite slot_types_cons.
    assert (HTo : IsOptionalArgument (P_val T) = false)
      by (destruct T; try reflexivity; discriminate).
    destruct (slot_types (req ++ map TOptional opt) variadic) as [|y l] eqn:E.
    + cbn [HasOptionalArguments]. rewrite HTo.
      destruct req; [|discriminate E]. destruct opt; [|discriminate E]. reflexivity.
    + cbn [HasOptionalArguments]. cbn [HasOptionalArguments] in IH.
      rewrite IH, HTo. reflexivity.
Qed.

Lemma FirstOptionalArgumentPosition_classified
      (req : list NativeType) (T : NativeType) (opt : list NativeType)
      (variadic : bool) (i : nat) :
  forallb (fun T => negb (is_optional T)) req = true ->
  FirstOptionalArgumentPositionHelper i
    (slot_types (req ++ map TOptional (T :: opt)) variadic)
  = i + List.length req.
Proof.
  revert i. induction req as [|R req IH]; intros i Hreq.
  - simpl. lia.
  - simpl in Hreq. apply andb_prop in Hreq. destruct Hreq as [HR Hreq].
    change ((R :: req) ++ map TOptional (T :: opt))
      with (R :: (req ++ map TOptional (T :: opt))).
    rewrite slot_types_cons.
    assert (HRo : IsOptionalArgument (P_val R) = false)
      by (destruct R; try reflexivity; discriminate).
    cbn [FirstOptionalArgumentPositionHelper]. rewrite HRo.
    destruct (slot_types (req ++ map TOptional (T :: opt)) variadic) as [|y l] eqn:E.
    + destruct req; discriminate E.
    + rewrite (IH (i + 1) Hreq). simpl. lia.
Qed.

Lemma slot_types_length (regs : list NativeType) (variadic : bool) :
  List.length (slot_types regs variadic)
  = List.length regs + (if variadic then 2 else 0).
Proof.
  unfold slot_types. rewrite length_app, length_map. destruct variadic; reflexivity.
Qed.

(** The least accepted argument count is the number of required slots. *)
Lemma PackMatchingSize_classified (req opt : list NativeType) (variadic : bool) :
  forallb (fun T => negb (is_optional T)) req = true ->
  PackMatchingSize (slot_types (req ++ map TOptional opt) variadic)
  = Some (List.length req).
Proof.
  intros Hreq. unfold PackMatchingSize.
  rewrite (HasOptionalArguments_classified req opt variadic Hreq).
  destruct opt as [|T opt].
  - simpl. rewrite app_nil_r.
    pose proof (HasVariableArguments_slot_types [] req variadic) as Hv.
    simpl in Hv. rewrite Hv. rewrite slot_types_length.
    destruct variadic; f_equal; lia.
  - simpl negb. cbv iota. unfold FirstOptionalArgumentPosition.
    rewrite (FirstOptionalArgumentPosition_classified req T opt variadic 0 Hreq).
    reflexivity.
Qed.

Lemma Unpacker_compiles_slot_types (regs : list NativeType) (variadic : bool) :
  Unpacker_compiles (slot_types regs variadic) = true.
Proof.
  induction regs as [|T regs IH].
  - destruct variadic; reflexivity.
  - rewrite slot_types_cons.
    pose proof (IsVariableArgumentPosition_slot_types (T :: regs) variadic) as Hv.
    rewrite slot_types_cons in Hv.
    cbn [Unpacker_compiles]. rewrite Hv. exact IH.
Qed.

End SignatureFacts.

(** ** Signatures: unpacking *)

Section Unpacking.

Local Open Scope nat_scope.

Variable h : Host.

Lemma tuple_set_app (done : list TupleElem) (x v : TupleElem) (rest : list TupleElem) :
  tuple_set (List.length done) v (done ++ x :: rest) = done ++ v :: rest.
Proof.
  induction done as [|d done IH]; simpl; [reflexivity|]. rewrite IH. reflexivity.
Qed.

Lemma Unpacker_UnpackInto_slots (packSize : nat) (pack : list Object) (variadic : bool)
      (regs : list NativeType) :
  forall (done : list TupleElem),
    Unpacker_UnpackInto h (slot_types regs variadic) (List.length done) packSize pack
      (done ++ map default_elem (slot_types regs variadic))
    = (r <- regular_slots h regs (List.length done) packSize pack ;;
       Ok (done ++ r ++
           (if variadic then variadic_slots (List.length done + List.length regs) packSize
            else []))).
Proof.
  induction regs as [|T regs IH]; intros done.
  - cbn [regular_slots bind List.length]. rewrite Nat.add_0_r.
    destruct variadic; [|reflexivity].
    cbn [slot_types map app variadic_pair Unpacker_UnpackInto].
    change (IsVariableArgumentPosition [P_size_t; P_ObjectPtr]) with true. cbv iota.
    unfold VariableUnpacker_UnpackInto, variadic_slots.
    destruct (packSize <=? List.length done); [reflexivity|].
    cbn [default_elem P_size_t default_value].
    rewrite tuple_set_app.
    replace (List.length done + 1)
      with (List.length (done ++ [elem_val (TIntrinsic c_uint64)
                                   (Z.of_nat (packSize - List.length done))]))
      by (rewrite length_app; reflexivity).
    change (done ++ elem_val (TIntrinsic c_uint64) (Z.of_nat (packSize - List.length done))
                 :: [elem_ptr None])
      with (done ++ [elem_val (TIntrinsic c_uint64) (Z.of_nat (packSize - List.length done))]
                 ++ [elem_ptr None]).
    rewrite app_assoc, tuple_set_app, <- app_assoc. reflexivity.
  - rewrite slot_types_cons.
    pose proof (IsVariableArgumentPosition_slot_types (T :: regs) variadic) as Hv.
    rewrite slot_types_cons in Hv.
    cbn [Unpacker_UnpackInto map regular_slots]. rewrite Hv.
    destruct (List.length done <? packSize).
    + destruct (pack_at pack (List.length done)) as [obj|e|]; cbn [bind]; try reflexivity.
      unfold UnboxObject.
      destruct (Unbox h T obj) as [v|e|]; cbn [bind]; try reflexivity.
      rewrite tuple_set_app.
      specialize (IH (done ++ [elem_val T v])).
      rewrite length_app in IH. cbn [List.length] in IH.
      rewrite <- app_assoc in IH. cbn [app] in IH. rewrite IH.
      destruct (regular_slots h regs (List.length done + 1) packSize pack) as [r|e|];
        cbn [bind]; try reflexivity.
      rewrite <- app_assoc. cbn [app List.length].
      replace (List.length done + 1 + List.length regs)
        with (List.length done + S (List.length regs)) by lia.
      reflexivity.
    + cbn [bind].
      specialize (IH (done ++ [elem_val T (default_value T)])).
      rewrite length_app in IH. cbn [List.length] in IH.
      rewrite <- app_assoc in IH. cbn [app default_elem] in *. rewrite IH.
      destruct (regular_slots h regs (List.length done + 1) packSize pack) as [r|e|];
        cbn [bind]; try reflexivity.
      rewrite <- app_assoc. cbn [app List.length].
      replace (List.length done + 1 + List.length regs)
        with (List.length done + S (List.length regs)) by lia.
      reflexivity.
Qed.

Lemma skipn_leading (leading : list NativeType) (l : list ParamType) :
  skipn (List.length leading) (map P_val leading ++ l) = l.
Proof.
  rewrite <- (length_map P_val leading). rewrite skipn_app, skipn_all, Nat.sub_diag.
  reflexivity.
Qed.

(** [UnpackValues] on a classified signature fills the slots as the rule
    words it. *)
Lemma UnpackValues_slots (leading regs : list NativeType) (variadic : bool)
      (packSize : nat) (pack : list Object) :
  UnpackValues h (List.length leading) (map P_val leading ++ slot_types regs variadic)
               packSize pack
  = (r <- regular_slots h regs 0 packSize pack ;;
     Ok (r ++ (if variadic then variadic_slots (List.length regs) packSize else []))).
Proof.
  unfold UnpackValues, TupleTypeExtractor. rewrite skipn_leading.
  exact (Unpacker_UnpackInto_slots packSize pack variadic regs []).
Qed.

Lemma regular_slots_length (packSize : nat) (pack : list Object) (regs : list NativeType) :
  forall i r, regular_slots h regs i packSize pack = Ok r ->
              List.length r = List.length regs.
Proof.
  induction regs as [|T regs IH]; intros i r Hr.
  - injection Hr as <-. reflexivity.
  - cbn [regular_slots] in Hr.
    destruct (if i <? packSize then _ else _) as [s|e|]; cbn [bind] in Hr;
      try discriminate.
    destruct (regular_slots h regs (i + 1) packSize pack) as [r'|e|] eqn:E;
      cbn [bind] in Hr; try discriminate.
    injection Hr as <-. simpl. f_equal. eapply IH. exact E.
Qed.

(** When every supplied argument unboxes, so do the regular slots. *)
Lemma regular_slots_succeed (pack : list Object) (regs : list NativeType) :
  forall i,
    (forall j T obj, nth_error regs j = Some T -> nth_error pack (i + j) = Some obj ->
                     exists v, Unbox h T obj = Ok v) ->
    exists r, regular_slots h regs i (List.length pack) pack = Ok r.
Proof.
  induction regs as [|T regs IH]; intros i Hall.
  - exists []. reflexivity.
  - cbn [regular_slots].
    destruct (IH (i + 1)) as [r Hr].
    { intros j T' obj HT Hobj. apply (Hall (S j) T' obj HT).
      replace (i + S j) with (i + 1 + j) by lia. exact Hobj. }
    rewrite Hr.
    destruct (Nat.ltb_spec i (List.length pack)) as [Hi|Hi].
    + unfold pack_at.
      destruct (nth_error pack i) as [obj|] eqn:Hobj.
      * destruct (Hall 0 T obj eq_refl) as [v Hv];
          [rewrite Nat.add_0_r; exact Hobj|].
        cbn [bind]. rewrite Hv. cbn [bind]. eexists. reflexivity.
      * apply nth_error_None in Hobj. lia.
    + cbn [bind]. eexists. reflexivity.
Qed.

(** The content of each regular slot. *)
Lemma regular_slots_nth (pack : list Object) (regs : list NativeType) :
  forall i r,
    regular_slots h regs i (List.length pack) pack = Ok r ->
    forall j T, nth_error regs j = Some T ->
      (forall obj, nth_error pack (i + j) = Some obj ->
                   exists v, Unbox h T obj = Ok v /\ nth_error r j = Some (elem_val T v)) /\
      (List.length pack <= i + j ->
       nth_error r j = Some (elem_val T (default_value T))).
Proof.
  induction regs as [|R regs IH]; intros i r Hr j T HT.
  - destruct j; discriminate HT.
  - cbn [regular_slots] in Hr.
    destruct (if i <? List.length pack then _ else _) as [s|e|] eqn:Es;
      cbn [bind] in Hr; try discriminate.
    destruct (regular_slots h regs (i + 1) (List.length pack) pack) as [r'|e|] eqn:E;
      cbn [bind] in Hr; try discriminate.
    injection Hr as <-.
    destruct j as [|j].
    + injection HT as ->. rewrite Nat.add_0_r. cbn [nth_error].
      destruct (Nat.ltb_spec i (List.length pack)) as [Hi|Hi].
      * split; [|lia]. intros obj Hobj. unfold pack_at in Es. rewrite Hobj in Es.
        cbn [bind] in Es.
        destruct (Unbox h T obj) as [v|e|]; cbn [bind] in Es; try discriminate.
        injection Es as <-. exists v. split; reflexivity.
      * injection Es as <-. split; [|reflexivity].
        intros obj Hobj.
        assert (nth_error pack i <> None) as Hn by (rewrite Hobj; discriminate).
        apply nth_error_Some in Hn. lia.
    + cbn [nth_error] in *.
      replace (i + S j) with (i + 1 + j) by lia.
      exact (IH (i + 1) r' E j T HT).
Qed.

End Unpacking.

Section PackTheorems.

Local Open Scope nat_scope.

Variable h : Host.

(** The capture pair of an unpacked tuple designates the arguments after
    the regular slots. *)
Lemma variadic_slots_view (pack : list Object) (n : nat) :
  exists count tail,
    variadic_slots n (List.length pack) = [count; tail] /\
    count = elem_val (TIntrinsic c_uint64) (Z.of_nat (List.length pack - n)) /\
    tail = elem_ptr (if n <? List.length pack then Some n else None) /\
    view pack count tail = Some (skipn n pack).
Proof.
  unfold variadic_slots.
  destruct (Nat.leb_spec (List.length pack) n) as [Hle|Hlt].
  - exists (elem_val (TIntrinsic c_uint64) 0%Z), (elem_ptr None).
    replace (List.length pack - n) with 0 by lia.
    destruct (Nat.ltb_spec n (List.length pack)); [lia|].
    repeat split. simpl. rewrite skipn_all2 by exact Hle. reflexivity.
  - exists (elem_val (TIntrinsic c_uint64) (Z.of_nat (List.length pack - n))),
      (elem_ptr (Some n)).
    destruct (Nat.ltb_spec n (List.length pack)); [|lia].
    repeat split. cbn [view]. rewrite Nat2Z.id.
    rewrite firstn_all2; [reflexivity|]. rewrite length_skipn. lia.
Qed.

Lemma unpacked_tuple (leading regs : list NativeType) (variadic : bool)
      (pack : list Object) :
  (forall i T obj, nth_error regs i = Some T -> nth_error pack i = Some obj ->
                   exists v, Unbox h T obj = Ok v) ->
  exists r,
    regular_slots h regs 0 (List.length pack) pack = Ok r /\
    List.length r = List.length regs /\
    UnpackValues h (List.length leading) (map P_val leading ++ slot_types regs variadic)
                 (List.length pack) pack
    = Ok (r ++ (if variadic then variadic_slots (List.length regs) (List.length pack)
                else [])).
Proof.
  intros Hall.
  destruct (regular_slots_succeed h pack regs 0 Hall) as [r Hr].
  exists r. split; [exact Hr|]. split.
  - eapply regular_slots_length. exact Hr.
  - rewrite UnpackValues_slots, Hr. reflexivity.
Qed.

(** C7.  Unpacking a pack into the slots of a signature with the regular
    (required or optional) slots [regs] and, when [variadic], a trailing
    capture pair: when the arguments supplied for the regular slots unbox,
    unpacking succeeds; slot [i] then holds the unboxed [i]-th argument
    for every [i] below the argument count; an optional slot at or beyond
    the argument count holds [std::nullopt] and causes no failure; the
    count slot of the capture pair holds the number of remaining
    arguments, and its tail slot the pointer [ppArgumentPack + n] into the
    caller's array (null when nothing remains), so that the pair
    designates exactly the remaining arguments, in place. *)
Theorem unpack_fills_slots (leading regs : list NativeType) (variadic : bool)
        (pack : list Object) :
  (forall i T obj, nth_error regs i = Some T -> nth_error pack i = Some obj ->
                   exists v, Unbox h T obj = Ok v) ->
  exists tuple,
    UnpackValues h (List.length leading) (map P_val leading ++ slot_types regs variadic)
                 (List.length pack) pack = Ok tuple /\
    (forall i T obj, nth_error regs i = Some T -> nth_error pack i = Some obj ->
                     exists v, Unbox h T obj = Ok v /\
                               nth_error tuple i = Some (elem_val T v)) /\
    (forall i T, nth_error regs i = Some (TOptional T) -> List.length pack <= i ->
                 nth_error tuple i = Some (elem_val (TOptional T) None)) /\
    (variadic = true ->
     exists count tail,
       nth_error tuple (List.length regs) = Some count /\
       nth_error tuple (List.length regs + 1) = Some tail /\
       count = elem_val (TIntrinsic c_uint64)
                        (Z.of_nat (List.length pack - List.length regs)) /\
       tail = elem_ptr (if List.length regs <? List.length pack
                        then Some (List.length regs) else None) /\
       view pack count tail = Some (skipn (List.length regs) pack)).
Proof.
  intros Hall.
  destruct (unpacked_tuple leading regs variadic pack Hall) as (r & Hr & Hlen & Hu).
  eexists. split; [exact Hu|].
  pose proof (regular_slots_nth h pack regs 0 r Hr) as Hnth.
  split; [|split].
  - intros i T obj HT Hobj.
    destruct (Hnth i T HT) as [Hsup _].
    destruct (Hsup obj Hobj) as (v & Hv & Hslot).
    exists v. split; [exact Hv|].
    rewrite nth_error_app1; [exact Hslot|].
    rewrite Hlen. apply nth_error_Some. rewrite HT. discriminate.
  - intros i T HT Hi.
    destruct (Hnth i (TOptional T) HT) as [_ Habs].
    rewrite nth_error_app1.
    + apply Habs. exact Hi.
    + rewrite Hlen. apply nth_error_Some. rewrite HT. discriminate.
  - intros ->.
    destruct (variadic_slots_view pack (List.length regs))
      as (count & tail & Hv & Hc & Ht & Hview).
    exists count, tail. rewrite Hv.
    repeat split; try assumption.
    + rewrite nth_error_app2 by lia. rewrite Hlen, Nat.sub_diag. reflexivity.
    + rewrite nth_error_app2 by lia. rewrite Hlen.
      replace (List.length regs + 1 - List.length regs) with 1 by lia. reflexivity.
Qed.

End PackTheorems.

Section Arity.

Local Open Scope nat_scope.

Variable h : Host.

Lemma classified_length (leading req opt : list NativeType) (variadic : bool) :
  List.length (classified leading req opt variadic)
  = List.length leading + List.length req + List.length opt
    + (if variadic then 2 else 0).
Proof.
  unfold classified. rewrite length_app, length_map, slot_types_length, length_app,
    length_map. lia.
Qed.

(** The count validation of [InvokeFunctionFromPack] on a classified
    signature, with its bounds in terms of the classification. *)
Lemma InvokeFunctionFromPack_classified
      (ctx : NativeType) (extras req opt : list NativeType) (variadic : bool)
      (call : list TupleElem -> result Object) (packSize : nat) (pack : list Object) :
  forallb (fun T => negb (is_optional T)) req = true ->
  InvokeFunctionFromPack h (classified (ctx :: extras) req opt variadic)
                         (List.length extras) call packSize pack
  = Some (if (packSize <? List.length req)
             || ((List.length req + List.length opt <? packSize) && negb variadic)
          then Throw illegal_number_of_arguments
          else parameters <- UnpackValues h (List.length (ctx :: extras))
                               (classified (ctx :: extras) req opt variadic)
                               packSize pack ;;
               call parameters).
Proof.
  intros Hreq. unfold InvokeFunctionFromPack, PackMatchingSize_WithIgnore.
  replace (List.length extras + 1) with (List.length (ctx :: extras))
    by (simpl; lia).
  rewrite classified_length.
  destruct (Nat.ltb_spec (List.length (ctx :: extras) + List.length req
                          + List.length opt + (if variadic then 2 else 0))
                         (List.length (ctx :: extras))) as [Hlt|_]; [lia|].
  unfold classified, TupleTypeExtractor. rewrite skipn_leading.
  rewrite (PackMatchingSize_classified req opt variadic Hreq).
  rewrite Unpacker_compiles_slot_types. cbn [negb].
  rewrite HasVariableArguments_slot_types.
  destruct variadic.
  - rewrite !andb_false_r. reflexivity.
  - replace (List.length (ctx :: extras) + List.length req + List.length opt + 0
             - List.length (ctx :: extras))
      with (List.length req + List.length opt) by lia.
    reflexivity.
Qed.

(** C3.  For a bound function whose parameters after the context object
    and the extra values classify into [k] required slots, [m] optional
    slots and possibly a trailing capture pair: fewer than [k] arguments
    raise [std::invalid_argument] with the message of the arity failure;
    every count from [k] to [k + m] passes the validation, and the call
    goes on to unpack and invoke; more than [k + m] arguments raise the
    same failure unless the signature is variadic; a variadic signature
    accepts every count from [k] on, and the capture pair then holds
    [argCount - k - m] as its count and designates that many arguments,
    the ones after the first [k + m]. *)
Theorem argument_count_validation
        (ctx : NativeType) (extras req opt : list NativeType) (variadic : bool)
        (call : list TupleElem -> result Object) (pack : list Object) :
  forallb (fun T => negb (is_optional T)) req = true ->
  let k := List.length req in
  let m := List.length opt in
  let argCount := List.length pack in
  let TArgs := classified (ctx :: extras) req opt variadic in
  let proceeds :=
    Some (parameters <- UnpackValues h (List.length (ctx :: extras)) TArgs argCount pack ;;
          call parameters) in
  (argCount < k ->
   InvokeFunctionFromPack h TArgs (List.length extras) call argCount pack
   = Some (Throw illegal_number_of_arguments)) /\
  (k <= argCount <= k + m ->
   InvokeFunctionFromPack h TArgs (List.length extras) call argCount pack = proceeds) /\
  (k + m < argCount -> variadic = false ->
   InvokeFunctionFromPack h TArgs (List.length extras) call argCount pack
   = Some (Throw illegal_number_of_arguments)) /\
  (k <= argCount -> variadic = true ->
   InvokeFunctionFromPack h TArgs (List.length extras) call argCount pack = proceeds /\
   forall tuple,
     UnpackValues h (List.length (ctx :: extras)) TArgs argCount pack = Ok tuple ->
     exists count tail,
       nth_error tuple (k + m) = Some count /\
       nth_error tuple (k + m + 1) = Some tail /\
       count = elem_val (TIntrinsic c_uint64) (Z.of_nat (argCount - k - m)) /\
       view pack count tail = Some (skipn (k + m) pack) /\
       List.length (skipn (k + m) pack) = argCount - k - m).
Proof.
  intros Hreq k m argCount TArgs proceeds.
  pose proof (fun variadic' =>
                InvokeFunctionFromPack_classified ctx extras req opt variadic' call
                  argCount pack Hreq) as HI.
  subst proceeds TArgs.
  repeat match goal with |- _ /\ _ => split end.
  - intros Hlt. rewrite HI.
    destruct (Nat.ltb_spec argCount (List.length req)); [reflexivity | lia].
  - intros [Hk Hm]. rewrite HI.
    destruct (Nat.ltb_spec argCount (List.length req)); [lia|].
    destruct (Nat.ltb_spec (List.length req + List.length opt) argCount); [lia|].
    reflexivity.
  - intros Hgt ->. rewrite HI.
    destruct (Nat.ltb_spec (List.length req + List.length opt) argCount); [|lia].
    rewrite orb_true_r. reflexivity.
  - intros Hk ->. split.
    + rewrite HI.
      destruct (Nat.ltb_spec argCount (List.length req)); [lia|].
      rewrite andb_false_r. reflexivity.
    + intros tuple Htuple.
      unfold classified in Htuple. rewrite UnpackValues_slots in Htuple.
      destruct (regular_slots h (req ++ map TOptional opt) 0 argCount pack)
        as [r|e|] eqn:Hr; cbn [bind] in Htuple; try discriminate.
      injection Htuple as <-.
      pose proof (regular_slots_length h argCount pack _ 0 r Hr) as Hlen.
      rewrite length_app, length_map in Hlen. fold k m in Hlen.
      destruct (variadic_slots_view pack (k + m))
        as (count & tail & Hv & Hc & Ht & Hview).
      rewrite length_app, length_map. fold k m argCount. fold argCount in Hv.
      rewrite Hv. exists count, tail.
      repeat split.
      * rewrite nth_error_app2 by lia. rewrite Hlen, Nat.sub_diag. reflexivity.
      * rewrite nth_error_app2 by lia. rewrite Hlen.
        replace (k + m + 1 - (k + m)) with 1 by lia. reflexivity.
      * rewrite Hc. fold argCount. do 2 f_equal. lia.
      * exact Hview.
      * rewrite length_skipn. fold argCount. lia.
Qed.

End Arity.

(** ** Signatures: the ordering rule *)

Section Ordering.

Local Open Scope nat_scope.

Lemma HasVariableArguments_cons (T : ParamType) (l : list ParamType) :
  HasVariableArguments l = true -> HasVariableArguments (T :: l) = true.
Proof.
  unfold HasVariableArguments.
  destruct l as [|a [|b l]]; try discriminate.
  intros H. exact H.
Qed.

Lemma trailing_pair_cons (T : ParamType) (l : list ParamType) (j : nat) :
  ~ (HasVariableArguments (T :: l) = true /\ List.length (T :: l) - 2 <= S j) ->
  ~ (HasVariableArguments l = true /\ List.length l - 2 <= j).
Proof.
  intros Hn [Hv Hj]. apply Hn. split.
  - apply HasVariableArguments_cons. exact Hv.
  - destruct l as [|a [|b l]]; try discriminate Hv. simpl in *. lia.
Qed.

(** A non-optional type outside a trailing capture pair is seen by
    [HasNonOptionalArguments]. *)
Lemma HasNonOptionalArguments_sees (l : list ParamType) :
  forall j Tj,
    nth_error l j = Some Tj -> IsOptionalArgument Tj = false ->
    ~ (HasVariableArguments l = true /\ List.length l - 2 <= j) ->
    HasNonOptionalArguments l = true.
Proof.
  induction l as [|T l IH]; intros j Tj Hj Hopt Hpair.
  - reflexivity.
  - destruct l as [|y r].
    + destruct j as [|[|j]]; try discriminate Hj. injection Hj as ->.
      destruct Tj as [|[]]; try reflexivity; discriminate.
    + cbn [HasNonOptionalArguments].
      destruct (IsVariableArgumentPosition (T :: y :: r)) eqn:Ev.
      * apply IsVariableArgumentPosition_inv in Ev.
        exfalso. apply Hpair. rewrite Ev. split; [reflexivity | simpl; lia].
      * destruct (IsNonOptionalArgument T) eqn:En; [reflexivity|].
        destruct j as [|j].
        -- injection Hj as ->. destruct Tj as [|[]]; discriminate.
        -- apply (IH j Tj Hj Hopt). eapply trailing_pair_cons. exact Hpair.
Qed.

Lemma HasOptionalArguments_cons (T y : ParamType) (r : list ParamType) :
  HasOptionalArguments (T :: y :: r)
  = match HasOptionalArguments (y :: r) with
    | None => None
    | Some nextOptional =>
        if negb (IsOptionalArgument T) || negb (HasNonOptionalArguments (y :: r))
        then Some (IsOptionalArgument T || nextOptional)
        else None
    end.
Proof. reflexivity. Qed.

(** Instantiating [HasOptionalArguments] on such a parameter list fires
    its [static_assert]. *)
Lemma static_assert_fires (l : list ParamType) :
  required_after_optional l -> HasOptionalArguments l = None.
Proof.
  intros (i & j & Ti & Tj & Hij & Hi & Hio & Hj & Hjo & Hpair).
  revert i j Hij Hi Hj Hpair.
  induction l as [|T l IH]; intros i j Hij Hi Hj Hpair.
  - destruct i; discriminate Hi.
  - destruct j as [|j]; [lia|]. cbn [nth_error] in Hj.
    pose proof (trailing_pair_cons T l j Hpair) as Hpair'.
    destruct l as [|y r]; [destruct j; discriminate Hj|].
    rewrite HasOptionalArguments_cons.
    destruct i as [|i].
    + injection Hi as ->. rewrite Hio.
      rewrite (HasNonOptionalArguments_sees (y :: r) j Tj Hj Hjo Hpair').
      destruct (HasOptionalArguments (y :: r)); reflexivity.
    + cbn [nth_error] in Hi.
      rewrite (IH i j ltac:(lia) Hi Hj Hpair'). reflexivity.
Qed.

(** C9.  A function whose parameters (after the context object and the
    extra values) have a required one after an optional one, the trailing
    capture pair apart, has no instantiation of [InvokeFunctionFromPack]:
    the [static_assert] rejects the binding when it is compiled, so for no
    argument count and no argument pack is there a call to make. *)
Theorem required_after_optional_is_rejected
        (h : Host) (TArgs : list ParamType) (extraArgumentCount : nat)
        (call : list TupleElem -> result Object) (packSize : nat) (pack : list Object) :
  required_after_optional (skipn (extraArgumentCount + 1) TArgs) ->
  InvokeFunctionFromPack h TArgs extraArgumentCount call packSize pack = None.
Proof.
  intros Hbad. unfold InvokeFunctionFromPack, PackMatchingSize_WithIgnore.
  destruct (List.length TArgs <? extraArgumentCount + 1); [reflexivity|].
  unfold PackMatchingSize. rewrite (static_assert_fires _ Hbad). reflexivity.
Qed.

End Ordering.

(** ** The lifetime guard and the iterator *)

Section Guard.

Local Open Scope nat_scope.

Variables T V : Type.
Variable h : Host.
Variable junk : Z.
Variable m_genProjector : World T -> Object -> result nat.
Variable m_itemProjector : T -> result V.
Variable BoxObject : V -> result Object.
Variable Dimensionality : nat.
Variable InvokeGetAt : World T -> Object -> nat -> list Object -> result Object.
Variable InvokeSetAt : World T -> Object -> nat -> list Object -> Object -> result Object.

Local Abbreviation GetNext_try' := (GetNext_try T V junk m_itemProjector BoxObject).
Local Abbreviation GetNext' := (GetNext T V h junk m_itemProjector BoxObject).
Local Abbreviation GetIterator_try' := (GetIterator_try T m_genProjector).
Local Abbreviation GetIterator' := (GetIterator T h m_genProjector).
Local Abbreviation GetAt_try' := (GetAt_try T V h m_genProjector m_itemProjector BoxObject).
Local Abbreviation GetAt' := (GetAt T V h m_genProjector m_itemProjector BoxObject).
Local Abbreviation step' := (step T V h junk m_genProjector m_itemProjector BoxObject).
Local Abbreviation run' := (run T V h junk m_genProjector m_itemProjector BoxObject).
Local Abbreviation flag_history' :=
  (flag_history T V h junk m_genProjector m_itemProjector BoxObject).

Lemma ThrowIfDetached_dead (w : World T) (r : DataModelReference) :
  live w r = false -> ThrowIfDetached w r = Throw object_detached_default.
Proof. unfold live, ThrowIfDetached. intros ->. reflexivity. Qed.

Lemma ThrowIfDetached_live (w : World T) (r : DataModelReference) :
  live w r = true -> ThrowIfDetached w r = Ok tt.
Proof. unfold live, ThrowIfDetached. intros ->. reflexivity. Qed.

Lemma teardown_clears (b : NativeBinding) (w : World T) :
  live (teardown b w) (m_dataRef b) = false.
Proof. unfold live, teardown. simpl. rewrite Nat.eqb_refl. reflexivity. Qed.

Lemma ReturnResult_detached (ppError : bool) :
  ReturnResult h object_detached_default ppError
  = Ok (E_FAIL, attached_error h E_FAIL object_detached_default ppError).
Proof. apply ReturnResult_status. Qed.

(** Every guarded operation refuses a dead flag before anything else. *)
Lemma GetNext_try_dead (w : World T) (it : BoundIterator) (dimensions : nat) :
  live w (m_linkReference it) = false ->
  GetNext_try' w it dimensions = Throw object_detached_default.
Proof.
  intros Hd. unfold GetNext_try. rewrite (ThrowIfDetached_dead _ _ Hd). reflexivity.
Qed.

Lemma GetNext_dead (w : World T) (it : BoundIterator) (dimensions : nat) :
  live w (m_linkReference it) = false ->
  GetNext' w it dimensions
  = (set_m_thrown it object_detached_default, Ok (E_FAIL, cleared dimensions)).
Proof.
  intros Hd. unfold GetNext. rewrite (GetNext_try_dead _ _ _ Hd).
  rewrite ReturnResult_detached. reflexivity.
Qed.

Lemma GetIterator_try_dead (w : World T) (r : DataModelReference) (obj : Object) :
  live w r = false -> GetIterator_try' r w obj = Throw object_detached_default.
Proof.
  intros Hd. unfold GetIterator_try. rewrite (ThrowIfDetached_dead _ _ Hd). reflexivity.
Qed.

Lemma GetAt_try_dead (w : World T) (r : DataModelReference) (obj : Object)
      (indexerCount : nat) (ppIndexers : list Object) :
  live w r = false ->
  GetAt_try' r w obj indexerCount ppIndexers = Throw object_detached_default.
Proof.
  intros Hd. unfold GetAt_try. rewrite (ThrowIfDetached_dead _ _ Hd). reflexivity.
Qed.

(** No operation but the teardown writes the flag. *)
Lemma step_flag (b : NativeBinding) (s : System T) (op : Operation) :
  live (world T (step' b s op)) (m_dataRef b)
  = live (world T s) (m_dataRef b) && negb (is_teardown op).
Proof.
  destruct op; simpl; rewrite ?andb_true_r.
  - rewrite teardown_clears, andb_false_r. reflexivity.
  - destruct (GetIterator' (m_dataRef b) (world T s) pContextObject)
      as [[hr [it|]]|e|]; reflexivity.
  - destruct (iterator T s); reflexivity.
  - destruct (iterator T s); reflexivity.
  - reflexivity.
  - reflexivity.
Qed.

Lemma run_flag (b : NativeBinding) (ops : list Operation) :
  forall s,
    live (world T (run' b s ops)) (m_dataRef b)
    = live (world T s) (m_dataRef b) && negb (existsb is_teardown ops).
Proof.
  induction ops as [|op ops IH]; intros s.
  - simpl. rewrite andb_true_r. reflexivity.
  - change (run' b s (op :: ops)) with (run' b (step' b s op) ops).
    rewrite IH, step_flag. simpl. rewrite negb_orb, andb_assoc. reflexivity.
Qed.

Lemma flag_history_head (b : NativeBinding) (s : System T) (ops : list Operation) :
  exists rest, flag_history' b s ops = live (world T s) (m_dataRef b) :: rest.
Proof. destruct ops; simpl; eexists; reflexivity. Qed.

Lemma transitions_cons (from to x y : bool) (l : list bool) :
  transitions from to (x :: y :: l)
  = (if Bool.eqb x from && Bool.eqb y to then 1 else 0) + transitions from to (y :: l).
Proof. reflexivity. Qed.

Lemma transitions_dead (b : NativeBinding) (ops : list Operation) :
  forall s to,
    live (world T s) (m_dataRef b) = false ->
    transitions true to (flag_history' b s ops) = 0.
Proof.
  induction ops as [|op ops IH]; intros s to Hd; [reflexivity|].
  cbn [flag_history].
  destruct (flag_history_head b (step' b s op) ops) as [rest Hrest].
  pose proof (IH (step' b s op) to) as IH'.
  rewrite Hrest in *. rewrite transitions_cons.
  fold (live (world T s) (m_dataRef b)). rewrite Hd. simpl.
  apply IH'. rewrite step_flag, Hd. reflexivity.
Qed.

Lemma never_revives (b : NativeBinding) (ops : list Operation) :
  forall s, transitions false true (flag_history' b s ops) = 0.
Proof.
  induction ops as [|op ops IH]; intros s; [reflexivity|].
  cbn [flag_history].
  destruct (flag_history_head b (step' b s op) ops) as [rest Hrest].
  pose proof (IH (step' b s op)) as IH'.
  rewrite Hrest in *. rewrite transitions_cons, IH'.
  fold (live (world T s) (m_dataRef b)).
  rewrite step_flag.
  destruct (live (world T s) (m_dataRef b)); reflexivity.
Qed.

Lemma dies_once (b : NativeBinding) (ops : list Operation) :
  forall s,
    transitions true false (flag_history' b s ops)
    = if live (world T s) (m_dataRef b) && existsb is_teardown ops then 1 else 0.
Proof.
  induction ops as [|op ops IH]; intros s.
  - simpl. rewrite andb_false_r. reflexivity.
  - cbn [flag_history].
    destruct (flag_history_head b (step' b s op) ops) as [rest Hrest].
    pose proof (IH (step' b s op)) as IH'.
    pose proof (transitions_dead b ops (step' b s op) false) as Hdead.
    rewrite Hrest in *. rewrite transitions_cons.
    fold (live (world T s) (m_dataRef b)).
    rewrite step_flag in *.
    cbn [existsb].
    destruct (live (world T s) (m_dataRef b)); destruct (is_teardown op);
      cbn [andb negb existsb orb Bool.eqb] in *.
    + rewrite Hdead by reflexivity. reflexivity.
    + rewrite IH'. reflexivity.
    + rewrite Hdead by reflexivity. reflexivity.
    + rewrite Hdead by reflexivity. reflexivity.
Qed.

Local Abbreviation WithIndexable_GetAt' :=
  (WithIndexable_GetAt T h Dimensionality InvokeGetAt).
Local Abbreviation WithIndexable_SetAt' :=
  (WithIndexable_SetAt T h Dimensionality InvokeSetAt).
Local Abbreviation GetNext_calls' :=
  (GetNext_calls T V h junk m_itemProjector BoxObject).

(** C2.  Once the teardown of a binding has cleared its flag, the flag
    stays cleared through every later operation; while it is cleared,
    acquiring an iterator, stepping an iterator, and the indexed get and
    set of the adapters that hold the flag each raise [object_detached]
    at their first statement (the host sees [E_FAIL]) and touch no native
    data, which is gone; an iterator then also stores that failure.  No
    operation but the teardown writes the flag: along any sequence of
    operations it goes from live to dead once, at the first teardown if it
    was live, and never from dead to live. *)
Theorem detached_after_teardown (b : NativeBinding) (w : World T) :
  let w' := teardown b w in
  live w' (m_dataRef b) = false /\
  natives w' (instance b) = None /\
  (forall s ops,
      world T s = w' -> live (world T (run' b s ops)) (m_dataRef b) = false) /\
  (forall wd, live wd (m_dataRef b) = false ->
     (forall obj,
         GetIterator_try' (m_dataRef b) wd obj = Throw object_detached_default /\
         GetIterator' (m_dataRef b) wd obj = Ok (E_FAIL, None)) /\
     (forall it dimensions, m_linkReference it = m_dataRef b ->
         GetNext_try' wd it dimensions = Throw object_detached_default /\
         GetNext' wd it dimensions
         = (set_m_thrown it object_detached_default, Ok (E_FAIL, cleared dimensions))) /\
     (forall obj indexerCount ppIndexers,
         GetAt_try' (m_dataRef b) wd obj indexerCount ppIndexers
         = Throw object_detached_default /\
         GetAt' (m_dataRef b) wd obj indexerCount ppIndexers
         = Ok (E_FAIL, attached_error h E_FAIL object_detached_default true)) /\
     (forall obj indexerCount ppIndexers,
         WithIndexable_GetAt' (m_dataRef b) wd obj indexerCount ppIndexers
         = Ok (E_FAIL, attached_error h E_FAIL object_detached_default true)) /\
     (forall obj indexerCount ppIndexers pValue,
         WithIndexable_SetAt' (m_dataRef b) wd obj indexerCount ppIndexers pValue
         = Ok E_FAIL)) /\
  (forall s ops,
      live (world T (run' b s ops)) (m_dataRef b)
      = live (world T s) (m_dataRef b) && negb (existsb is_teardown ops) /\
      transitions true false (flag_history' b s ops)
      = (if live (world T s) (m_dataRef b) && existsb is_teardown ops then 1 else 0) /\
      transitions false true (flag_history' b s ops) = 0).
Proof.
  intros w'. split; [apply teardown_clears|]. split.
  { subst w'. unfold teardown. simpl. rewrite Nat.eqb_refl. reflexivity. }
  split.
  { intros s ops Hs. rewrite run_flag, Hs. subst w'. rewrite teardown_clears.
    reflexivity. }
  split.
  - intros wd Hd. split; [|split; [|split; [|split]]].
    + intros obj. split.
      * apply GetIterator_try_dead. exact Hd.
      * unfold GetIterator. rewrite (GetIterator_try_dead _ _ obj Hd).
        rewrite ReturnResult_detached. reflexivity.
    + intros it dimensions Hlink. rewrite <- Hlink in Hd. split.
      * apply GetNext_try_dead. exact Hd.
      * apply GetNext_dead. exact Hd.
    + intros obj indexerCount ppIndexers. split.
      * apply GetAt_try_dead. exact Hd.
      * unfold GetAt. rewrite (GetAt_try_dead _ _ obj indexerCount ppIndexers Hd).
        apply ReturnResult_detached.
    + intros obj indexerCount ppIndexers.
      unfold WithIndexable_GetAt. rewrite (ThrowIfDetached_dead _ _ Hd).
      cbn [bind]. apply ReturnResult_detached.
    + intros obj indexerCount ppIndexers pValue.
      unfold WithIndexable_SetAt. rewrite (ThrowIfDetached_dead _ _ Hd).
      cbn [bind]. rewrite ReturnResult_detached. reflexivity.
  - intros s ops. split; [apply run_flag|]. split; [apply dies_once | apply never_revives].
Qed.

(** *** Sticky failure and the end of the sequence *)

Lemma set_m_thrown_same (it : BoundIterator) (e : exception) :
  m_thrown it = Some e -> set_m_thrown it e = it.
Proof. destruct it. simpl. intros ->. reflexivity. Qed.

Lemma GetNext_stores (w : World T) (it : BoundIterator) (dimensions : nat) (e : exception) :
  GetNext_try' w it dimensions = Throw e ->
  GetNext' w it dimensions = (set_m_thrown it e, Ok (status_of e, cleared dimensions)).
Proof.
  intros Ht. unfold GetNext. rewrite Ht, ReturnResult_status. reflexivity.
Qed.

Lemma GetNext_rethrows (w : World T) (it : BoundIterator) (dimensions : nat)
      (e : exception) :
  m_thrown it = Some e -> live w (m_linkReference it) = true ->
  GetNext' w it dimensions = (it, Ok (status_of e, cleared dimensions)).
Proof.
  intros He Hl.
  rewrite (GetNext_stores w it dimensions e).
  - rewrite (set_m_thrown_same it e He). reflexivity.
  - unfold GetNext_try. rewrite (ThrowIfDetached_live _ _ Hl). cbn [bind].
    rewrite He. reflexivity.
Qed.

Lemma GetNext_at_end (w : World T) (it : BoundIterator) (dimensions : nat) :
  m_thrown it = None -> m_itCur it = m_itEnd it -> live w (m_linkReference it) = true ->
  GetNext' w it dimensions = (it, Ok (E_BOUNDS, cleared dimensions)).
Proof.
  intros Hn He Hl. unfold GetNext, GetNext_try.
  rewrite (ThrowIfDetached_live _ _ Hl). cbn [bind].
  rewrite Hn, He, Nat.eqb_refl. reflexivity.
Qed.

(** A stuck iterator produces no element and stays stuck, whatever the
    flag says. *)
Lemma GetNext_stuck (w : World T) (it : BoundIterator) (dimensions : nat) :
  stuck it ->
  stuck (fst (GetNext' w it dimensions)) /\
  m_itCur (fst (GetNext' w it dimensions)) = m_itCur it /\
  m_itEnd (fst (GetNext' w it dimensions)) = m_itEnd it /\
  exists hr, snd (GetNext' w it dimensions) = Ok (hr, cleared dimensions).
Proof.
  intros Hs.
  destruct (live w (m_linkReference it)) eqn:Hl.
  - destruct (m_thrown it) as [e|] eqn:He.
    + rewrite (GetNext_rethrows w it dimensions e He Hl). cbn [fst snd].
      repeat split; try assumption. eexists. reflexivity.
    + destruct Hs as [Hs|Hs]; [contradiction|].
      rewrite (GetNext_at_end w it dimensions He Hs Hl). cbn [fst snd].
      repeat split; try (right; assumption). eexists. reflexivity.
  - rewrite (GetNext_dead w it dimensions Hl). cbn [fst snd].
    repeat split.
    + left. simpl. discriminate.
    + eexists. reflexivity.
Qed.

Lemma GetNext_calls_cons (w : World T) (ws : list (World T)) (it : BoundIterator)
      (dimensions : nat) :
  GetNext_calls' (w :: ws) it dimensions
  = (fst (GetNext_calls' ws (fst (GetNext' w it dimensions)) dimensions),
     snd (GetNext' w it dimensions)
     :: snd (GetNext_calls' ws (fst (GetNext' w it dimensions)) dimensions)).
Proof.
  cbn [GetNext_calls].
  destruct (GetNext' w it dimensions) as [it' r]. cbn [fst snd].
  destruct (GetNext_calls' ws it' dimensions) as [it'' rs]. reflexivity.
Qed.

Lemma GetNext_calls_stuck (ws : list (World T)) (dimensions : nat) :
  forall it,
    stuck it ->
    Forall (fun r => exists hr, r = Ok (hr, cleared dimensions))
           (snd (GetNext_calls' ws it dimensions)) /\
    m_itCur (fst (GetNext_calls' ws it dimensions)) = m_itCur it /\
    stuck (fst (GetNext_calls' ws it dimensions)).
Proof.
  induction ws as [|w ws IH]; intros it Hs.
  - simpl. repeat split; [constructor | assumption].
  - rewrite GetNext_calls_cons. cbn [fst snd].
    destruct (GetNext_stuck w it dimensions Hs) as (Hs' & Hc & _ & Hr).
    destruct (IH _ Hs') as (Hall & Hc' & Hs'').
    repeat split; try assumption.
    + constructor; assumption.
    + rewrite Hc'. exact Hc.
Qed.

Lemma GetNext_calls_same (ws : list (World T)) (it : BoundIterator) (dimensions : nat)
      (r : result (HRESULT * GetNextOut)) :
  (forall w, In w ws -> GetNext' w it dimensions = (it, r)) ->
  GetNext_calls' ws it dimensions = (it, repeat r (List.length ws)).
Proof.
  induction ws as [|w ws IH]; intros Hall; [reflexivity|].
  rewrite GetNext_calls_cons, (Hall w (or_introl eq_refl)). cbn [fst snd].
  rewrite IH by (intros w' Hw'; apply Hall; right; exact Hw'). reflexivity.
Qed.

(** C4 (as amended).  A failure that a step raises is stored in the
    iterator.  From then on every step made while the flag is live raises
    the stored failure again, with the same status, and leaves the
    iterator as it is; a step made after the flag was cleared raises
    [object_detached] instead, which becomes the stored failure.  An
    iterator at its end with no stored failure reports [E_BOUNDS] at every
    step made while the flag is live.  In all cases, as long as only
    [GetNext] is called, no later step produces an element or moves the
    cursor. *)
Theorem failure_and_end_are_sticky (it : BoundIterator) (dimensions : nat) :
  (forall w e, GetNext_try' w it dimensions = Throw e ->
               GetNext' w it dimensions
               = (set_m_thrown it e, Ok (status_of e, cleared dimensions))) /\
  (forall e ws, m_thrown it = Some e ->
                (forall w, In w ws -> live w (m_linkReference it) = true) ->
                GetNext_calls' ws it dimensions
                = (it, repeat (Ok (status_of e, cleared dimensions)) (List.length ws))) /\
  (forall w, live w (m_linkReference it) = false ->
             GetNext' w it dimensions
             = (set_m_thrown it object_detached_default,
                Ok (E_FAIL, cleared dimensions))) /\
  (forall ws, m_thrown it = None -> m_itCur it = m_itEnd it ->
              (forall w, In w ws -> live w (m_linkReference it) = true) ->
              GetNext_calls' ws it dimensions
              = (it, repeat (Ok (E_BOUNDS, cleared dimensions)) (List.length ws))) /\
  (forall ws, stuck it ->
              Forall (fun r => exists hr, r = Ok (hr, cleared dimensions))
                     (snd (GetNext_calls' ws it dimensions)) /\
              m_itCur (fst (GetNext_calls' ws it dimensions)) = m_itCur it /\
              stuck (fst (GetNext_calls' ws it dimensions))).
Proof.
  split; [|split; [|split; [|split]]].
  - intros w e. apply GetNext_stores.
  - intros e ws He Hl. apply GetNext_calls_same.
    intros w Hw. apply GetNext_rethrows; [exact He | apply Hl; exact Hw].
  - intros w. apply GetNext_dead.
  - intros ws Hn He Hl. apply GetNext_calls_same.
    intros w Hw. apply GetNext_at_end; [exact Hn | exact He | apply Hl; exact Hw].
  - intros ws. apply GetNext_calls_stuck.
Qed.

(** C10 (as amended).  [Reset] takes no look at the flag or at the stored
    failure: on every iterator it returns [S_OK], moves the cursor to the
    begin position and changes nothing else.  After it, an iterator with a
    stored failure raises that failure again at the next step made while
    the flag is live, without producing an element; at a step made after
    the flag was cleared it raises [object_detached], as it does without a
    [Reset]. *)
Theorem Reset_keeps_the_stored_failure (it : BoundIterator) :
  snd (Reset it) = S_OK /\
  m_itCur (fst (Reset it)) = m_itBegin it /\
  m_thrown (fst (Reset it)) = m_thrown it /\
  m_linkReference (fst (Reset it)) = m_linkReference it /\
  m_generator (fst (Reset it)) = m_generator it /\
  m_itBegin (fst (Reset it)) = m_itBegin it /\
  m_itEnd (fst (Reset it)) = m_itEnd it /\
  (forall w dimensions e,
      m_thrown it = Some e -> live w (m_linkReference it) = true ->
      GetNext' w (fst (Reset it)) dimensions
      = (fst (Reset it), Ok (status_of e, cleared dimensions))) /\
  (forall w dimensions,
      live w (m_linkReference it) = false ->
      GetNext' w (fst (Reset it)) dimensions
      = (set_m_thrown (fst (Reset it)) object_detached_default,
         Ok (E_FAIL, cleared dimensions))).
Proof.
  repeat match goal with |- _ /\ _ => split end; try reflexivity.
  - intros w dimensions e He Hl. apply GetNext_rethrows; assumption.
  - intros w dimensions Hl. apply GetNext_dead. exact Hl.
Qed.

(** *** Traversal *)

Local Abbreviation drain' := (drain T V h junk m_itemProjector BoxObject).
Local Abbreviation traverse' :=
  (traverse T V h junk m_genProjector m_itemProjector BoxObject).
Local Abbreviation logical_sequence' :=
  (logical_sequence junk m_itemProjector BoxObject).

Lemma skipn_cons_nth (l : list T) :
  forall c x rest, skipn c l = x :: rest -> nth_error l c = Some x /\ skipn (S c) l = rest.
Proof.
  induction l as [|y l IH]; intros c x rest H.
  - destruct c; discriminate H.
  - destruct c as [|c].
    + injection H as -> ->. split; reflexivity.
    + apply IH. exact H.
Qed.

Lemma indexers_produced (objVal : Object) (c dimensions : nat) :
  (pIdxs <- CreateIndexers junk 0 c dimensions (repeat NullObject (Nat.max dimensions 1)) ;;
   Ok (FillIndexers dimensions pIdxs (repeat None dimensions)))
  = Ok (ppIndexers (produced junk objVal c dimensions)).
Proof.
  unfold CreateIndexers, FillIndexers, produced. cbn [ppIndexers].
  destruct (Nat.eqb dimensions 1) eqn:Hd; [|reflexivity].
  apply Nat.eqb_eq in Hd. subst dimensions.
  cbn [Box]. unfold BoxObjectIntrinsic_Box, CreateIntrinsicObject, FillVariant.
  cbn [vt raw VariantType VARTYPE_bits bits]. change (CheckHr S_OK) with (Ok tt).
  cbn [bind hd tl repeat Nat.max]. rewrite Nat.sub_0_r.
  rewrite store_low_mod by reflexivity.
  unfold object_bits. cbn [bits]. rewrite Z.mod_mod by (change (2 ^ 64)%Z with 18446744073709551616%Z; lia).
  reflexivity.
Qed.

(** One successful step. *)
Lemma GetNext_produces (w : World T) (l : list T) (it : BoundIterator) (c : nat)
      (dimensions : nat) (x : T) (objVal : Object) :
  positioned w l it c ->
  nth_error l c = Some x ->
  (val <- m_itemProjector x ;; BoxObject val) = Ok objVal ->
  GetNext' w it dimensions
  = (set_m_itCur it (c + 1), Ok (S_OK, produced junk objVal c dimensions)) /\
  positioned w l (set_m_itCur it (c + 1)) (c + 1).
Proof.
  intros (Hl & Hn & Hg & Hb & He & Hc & _) Hx Hbox.
  assert (Hlt : c < List.length l) by (apply nth_error_Some; rewrite Hx; discriminate).
  split.
  - unfold GetNext, GetNext_try.
    rewrite (ThrowIfDetached_live _ _ Hl). cbn [bind].
    rewrite Hn, Hc, He, Hb.
    destruct (Nat.eqb_spec c (List.length l)) as [Heq|_]; [lia|].
    unfold deref. rewrite Hg, Hx. cbn [bind].
    destruct (m_itemProjector x) as [val|e|]; cbn [bind] in *; try discriminate.
    rewrite Hbox. cbn [bind].
    pose proof (indexers_produced objVal c dimensions) as Hi.
    destruct (CreateIndexers junk 0 c dimensions (repeat NullObject (Nat.max dimensions 1)))
      as [pIdxs|e|]; cbn [bind] in *; try discriminate.
    injection Hi as Hi. rewrite Hi. reflexivity.
  - unfold positioned. simpl. repeat split; try assumption. lia.
Qed.

(** Draining from position [c] hands out the rest of the logical
    sequence and ends with [E_BOUNDS]. *)
Lemma drain_rest (w : World T) (l : list T) (dimensions : nat) (rest : list T) :
  forall c it fuel outs,
    positioned w l it c ->
    skipn c l = rest ->
    logical_sequence' rest c dimensions = Some outs ->
    List.length rest < fuel ->
    drain' fuel w it dimensions = Some (outs, Ok E_BOUNDS).
Proof.
  induction rest as [|x rest IH]; intros c it fuel outs Hp Hs Hseq Hfuel.
  - destruct fuel as [|fuel]; [simpl in Hfuel; lia|].
    injection Hseq as <-.
    destruct Hp as (Hl & Hn & Hg & Hb & He & Hc & Hle).
    assert (Hend : m_itCur it = m_itEnd it).
    { rewrite Hc, He.
      pose proof (length_skipn c l) as Hk. rewrite Hs in Hk. simpl in Hk. lia. }
    cbn [drain]. rewrite (GetNext_at_end w it dimensions Hn Hend Hl). reflexivity.
  - destruct fuel as [|fuel]; [simpl in Hfuel; lia|].
    destruct (skipn_cons_nth l c x rest Hs) as [Hx Hs'].
    cbn [logical_sequence] in Hseq.
    destruct (val <- m_itemProjector x ;; BoxObject val) as [objVal|e|] eqn:Hbox;
      try discriminate.
    destruct (logical_sequence' rest (S c) dimensions) as [outs'|] eqn:Hrest;
      try discriminate.
    injection Hseq as <-.
    destruct (GetNext_produces w l it c dimensions x objVal Hp Hx Hbox) as [Hstep Hp'].
    cbn [drain]. rewrite Hstep. change (S_OK =? S_OK)%Z with true. cbv iota.
    replace (c + 1) with (S c) in * by lia.
    rewrite (IH (S c) _ fuel outs' Hp' Hs' Hrest) by (simpl in Hfuel; lia).
    reflexivity.
Qed.

Lemma drain_fuel (w : World T) (dimensions : nat) :
  forall fuel1 fuel2 it r1 r2,
    drain' fuel1 w it dimensions = Some r1 ->
    drain' fuel2 w it dimensions = Some r2 ->
    r1 = r2.
Proof.
  induction fuel1 as [|fuel1 IH]; intros fuel2 it r1 r2 H1 H2; [discriminate H1|].
  destruct fuel2 as [|fuel2]; [discriminate H2|].
  cbn [drain] in H1, H2.
  destruct (GetNext' w it dimensions) as [it' [[hr out]|e|]].
  - destruct (hr =? S_OK)%Z.
    + destruct (drain' fuel1 w it' dimensions) as [[outs1 f1]|] eqn:E1; try discriminate.
      destruct (drain' fuel2 w it' dimensions) as [[outs2 f2]|] eqn:E2; try discriminate.
      pose proof (IH fuel2 it' _ _ E1 E2) as Heq. injection Heq as -> ->.
      congruence.
    + congruence.
  - congruence.
  - congruence.
Qed.

(** *** Index lookup *)

(** [GetAt] with one index that reads as [i], on a live adapter over the
    sequence [l]. *)
Lemma GetAt_linear (linkReference : DataModelReference) (w : World T) (obj : Object)
      (gen : nat) (l : list T) (idx0 : Object) (vtIdx : VARIANT) (i : nat) :
  live w linkReference = true ->
  m_genProjector w obj = Ok gen ->
  natives w gen = Some l ->
  GetIntrinsicValueAs h VT_UI8 idx0 = Ok (S_OK, vtIdx) ->
  Z.to_nat (raw vtIdx mod 2 ^ 64) = i ->
  GetAt' linkReference w obj 1 [idx0]
  = if List.length l <? i then Ok (E_BOUNDS, None)
    else match nth_error l i with
         | None => Undefined
         | Some x =>
             match (val <- m_itemProjector x ;; BoxObject val) with
             | Ok valObject => Ok (S_OK, Some valObject)
             | Throw e => ReturnResult h e true
             | Undefined => Undefined
             end
         end.
Proof.
  intros Hl Hgen Hnat Hidx Hi. unfold GetAt, GetAt_try.
  rewrite (ThrowIfDetached_live _ _ Hl). cbn [bind Nat.eqb negb].
  rewrite Hgen. cbn [bind pack_at nth_error]. rewrite Hidx. cbn [bind].
  change (CheckHr S_OK) with (Ok tt). cbn [bind].
  unfold distance. rewrite Hnat. cbn [bind]. rewrite Hi.
  destruct (List.length l <? i); [reflexivity|].
  unfold deref. rewrite Hnat. cbn [Nat.add].
  destruct (nth_error l i) as [x|]; [|reflexivity]. cbn [bind].
  destruct (m_itemProjector x) as [val|e|]; cbn [bind]; try reflexivity.
  destruct (BoxObject val) as [o|e|]; reflexivity.
Qed.

(** The bound of [GetAt] lets the position one past the last element
    through: there is no element to read there. *)
Lemma GetAt_one_past_the_end (linkReference : DataModelReference) (w : World T)
      (obj : Object) (gen : nat) (l : list T) (idx0 : Object) (vtIdx : VARIANT) :
  live w linkReference = true ->
  m_genProjector w obj = Ok gen ->
  natives w gen = Some l ->
  GetIntrinsicValueAs h VT_UI8 idx0 = Ok (S_OK, vtIdx) ->
  Z.to_nat (raw vtIdx mod 2 ^ 64) = List.length l ->
  GetAt' linkReference w obj 1 [idx0] = Undefined.
Proof.
  intros Hl Hgen Hnat Hidx Hi.
  rewrite (GetAt_linear linkReference w obj gen l idx0 vtIdx (List.length l))
    by assumption.
  rewrite Nat.ltb_irrefl.
  destruct (nth_error l (List.length l)) eqn:E; [|reflexivity].
  assert (nth_error l (List.length l) <> None) as Hn by (rewrite E; discriminate).
  apply nth_error_Some in Hn. lia.
Qed.

End Guard.

(** ** The scenario: the collection 10, 20, 30 *)

Section Scenario.

Local Abbreviation GetAt_example :=
  (GetAt Z Z example_host example_genProjector example_itemProjector example_BoxObject
         0%nat example_world example_context 1%nat).

(** C1.  On the native collection [10, 20, 30], bound with linear
    indexing, [GetAt] returns the boxed element at the positions 0, 1 and
    2 and the range failure [E_BOUNDS] at position 4; at position 3, the
    size of the collection, its test [stIdx > delta] lets the index
    through and the adapter dereferences the end iterator, which is
    undefined behaviour and not the range failure. *)
Theorem GetAt_at_the_size_of_the_collection :
  GetAt_example [index_object 0] = Ok (S_OK, Some (boxed_int 10)) /\
  GetAt_example [index_object 1] = Ok (S_OK, Some (boxed_int 20)) /\
  GetAt_example [index_object 2] = Ok (S_OK, Some (boxed_int 30)) /\
  GetAt_example [index_object 4] = Ok (E_BOUNDS, None) /\
  GetAt_example [index_object 3] = Undefined /\
  GetAt_example [index_object 3] <> Ok (E_BOUNDS, None).
Proof.
  repeat split; try (vm_compute; reflexivity). vm_compute. discriminate.
Qed.

(** Iterating the collection yields (10,0), (20,1), (30,2) in order. *)
Lemma iterating_the_collection :
  traverse Z Z example_host 0 example_genProjector example_itemProjector
           example_BoxObject 4 0%nat example_world example_context 1
  = Some ([produced 0 (boxed_int 10) 0 1; produced 0 (boxed_int 20) 1 1;
           produced 0 (boxed_int 30) 2 1], Ok E_BOUNDS).
Proof. vm_compute. reflexivity. Qed.

End Scenario.

(** ** Instances *)

Lemma unpack_fills_slots_witness :
  (forall i T obj,
      nth_error [TIntrinsic c_int; TOptional (TIntrinsic c_int)] i = Some T ->
      nth_error [boxed_int 7] i = Some obj ->
      exists v, Unbox example_host T obj = Ok v) /\
  exists tuple,
    UnpackValues example_host 1
      (map P_val [TObject]
       ++ slot_types [TIntrinsic c_int; TOptional (TIntrinsic c_int)] true)
      1 [boxed_int 7] = Ok tuple /\
    nth_error tuple 0 = Some (elem_val (TIntrinsic c_int) 7) /\
    nth_error tuple 1 = Some (elem_val (TOptional (TIntrinsic c_int)) None).
Proof.
  assert (H : forall i T obj,
             nth_error [TIntrinsic c_int; TOptional (TIntrinsic c_int)] i = Some T ->
             nth_error [boxed_int 7] i = Some obj ->
             exists v, Unbox example_host T obj = Ok v).
  { intros i T obj HT Hobj. destruct i as [|[|i]]; simpl in HT, Hobj.
    - injection HT as <-. injection Hobj as <-. eexists. vm_compute. reflexivity.
    - discriminate Hobj.
    - discriminate Hobj. }
  split; [exact H|].
  destruct (unpack_fills_slots example_host [TObject]
              [TIntrinsic c_int; TOptional (TIntrinsic c_int)] true [boxed_int 7] H)
    as (tuple & Hu & Hsup & Habs & _).
  exists tuple. split; [exact Hu|]. split.
  - destruct (Hsup 0%nat (TIntrinsic c_int) (boxed_int 7) eq_refl eq_refl) as (v & Hv & Hs).
    vm_compute in Hv. injection Hv as <-. exact Hs.
  - apply (Habs 1%nat (TIntrinsic c_int) eq_refl). simpl. lia.
Defined.

Lemma argument_count_validation_witness :
  forallb (fun T => negb (is_optional T)) [TIntrinsic c_int] = true /\
  InvokeFunctionFromPack example_host
    (classified [TObject] [TIntrinsic c_int] [TIntrinsic c_int] false)
    0 example_call 0 [] = Some (Throw illegal_number_of_arguments) /\
  InvokeFunctionFromPack example_host
    (classified [TObject] [TIntrinsic c_int] [TIntrinsic c_int] false)
    0 example_call 3 [boxed_int 1; boxed_int 2; boxed_int 3]
  = Some (Throw illegal_number_of_arguments).
Proof.
  split; [reflexivity|]. split.
  - apply (proj1 (argument_count_validation example_host TObject []
                    [TIntrinsic c_int] [TIntrinsic c_int] false example_call []
                    eq_refl)).
    simpl. lia.
  - apply (proj1 (proj2 (proj2 (argument_count_validation example_host TObject []
                    [TIntrinsic c_int] [TIntrinsic c_int] false example_call
                    [boxed_int 1; boxed_int 2; boxed_int 3] eq_refl)))).
    + simpl. lia.
    + reflexivity.
Defined.

Lemma required_after_optional_is_rejected_witness :
  required_after_optional
    (skipn (0 + 1) [P_val TObject; P_val (TOptional (TIntrinsic c_int));
                    P_val (TIntrinsic c_int)]) /\
  InvokeFunctionFromPack example_host
    [P_val TObject; P_val (TOptional (TIntrinsic c_int)); P_val (TIntrinsic c_int)]
    0 example_call 2 [boxed_int 1; boxed_int 2] = None.
Proof.
  assert (H : required_after_optional
                (skipn (0 + 1) [P_val TObject; P_val (TOptional (TIntrinsic c_int));
                                P_val (TIntrinsic c_int)])).
  { exists 0%nat, 1%nat, (P_val (TOptional (TIntrinsic c_int))), (P_val (TIntrinsic c_int)).
    simpl. repeat split; try lia. intros [Hv _]. discriminate Hv. }
  split; [exact H|].
  exact (required_after_optional_is_rejected example_host _ 0 example_call 2
           [boxed_int 1; boxed_int 2] H).
Defined.

Lemma detached_after_teardown_witness :
  m_linkReference example_iterator = m_dataRef example_binding /\
  GetNext Z Z example_host 0 example_itemProjector example_BoxObject
          (teardown example_binding example_world) example_iterator 0
  = (set_m_thrown example_iterator object_detached_default, Ok (E_FAIL, cleared 0)).
Proof.
  split; [reflexivity|].
  pose proof (detached_after_teardown Z Z example_host 0 example_genProjector
                example_itemProjector example_BoxObject 1 example_InvokeGetAt
                example_InvokeSetAt example_binding example_world) as H.
  cbv zeta in H. destruct H as (Hdead & _ & _ & Hops & _).
  destruct (Hops _ Hdead) as (_ & Hnext & _).
  exact (proj2 (Hnext example_iterator 0%nat eq_refl)).
Defined.

Lemma failure_and_end_are_sticky_witness :
  m_thrown failed_iterator = Some (std_range_error "bad element") /\
  (forall w, In w [example_world; example_world] ->
             live w (m_linkReference failed_iterator) = true) /\
  GetNext_calls Z Z example_host 0 failing_itemProjector example_BoxObject
                [example_world; example_world] failed_iterator 0
  = (failed_iterator, [Ok (E_BOUNDS, cleared 0); Ok (E_BOUNDS, cleared 0)]).
Proof.
  assert (Hl : forall w, In w [example_world; example_world] ->
                         live w (m_linkReference failed_iterator) = true).
  { intros w [<-|[<-|[]]]; reflexivity. }
  split; [reflexivity|]. split; [exact Hl|].
  exact (proj1 (proj2 (failure_and_end_are_sticky Z Z example_host 0
                         failing_itemProjector example_BoxObject failed_iterator 0))
               (std_range_error "bad element") [example_world; example_world]
               eq_refl Hl).
Defined.

Lemma Reset_keeps_the_stored_failure_witness :
  m_thrown failed_iterator = Some (std_range_error "bad element") /\
  live example_world (m_linkReference failed_iterator) = true /\
  GetNext Z Z example_host 0 failing_itemProjector example_BoxObject
          example_world (fst (Reset failed_iterator)) 0
  = (fst (Reset failed_iterator), Ok (E_BOUNDS, cleared 0)).
Proof.
  split; [reflexivity|]. split; [reflexivity|].
  destruct (Reset_keeps_the_stored_failure Z Z example_host 0 failing_itemProjector
              example_BoxObject failed_iterator)
    as (_ & _ & _ & _ & _ & _ & _ & Hlive & _).
  exact (Hlive example_world 0%nat (std_range_error "bad element") eq_refl eq_refl).
Defined.

(** ** Counterexamples *)

(** C4, counterexample.  In the scenario with an item projector that
    fails on 20, the second step raises [std::range_error] ([E_BOUNDS]) and
    stores it; after the teardown of the binding the next step on the same
    iterator raises [object_detached] ([E_FAIL]) and stores that instead.
    And an iterator that has reported its end yields the first element
    again at the step after a [Reset]. *)
Lemma stored_failure_is_replaced_after_teardown :
  GetNext_calls Z Z example_host 0 failing_itemProjector example_BoxObject
                [example_world; example_world] example_iterator 0
  = (failed_iterator,
     [Ok (S_OK, produced 0 (boxed_int 10) 0 0); Ok (E_BOUNDS, cleared 0)]) /\
  m_thrown failed_iterator = Some (std_range_error "bad element") /\
  GetNext Z Z example_host 0 failing_itemProjector example_BoxObject
          (teardown example_binding example_world) failed_iterator 0
  = (set_m_thrown failed_iterator object_detached_default, Ok (E_FAIL, cleared 0)) /\
  E_FAIL <> E_BOUNDS /\
  object_detached_default <> std_range_error "bad element" /\
  GetNext Z Z example_host 0 example_itemProjector example_BoxObject
          example_world ended_iterator 0
  = (ended_iterator, Ok (E_BOUNDS, cleared 0)) /\
  snd (GetNext Z Z example_host 0 example_itemProjector example_BoxObject
               example_world (fst (Reset ended_iterator)) 0)
  = Ok (S_OK, produced 0 (boxed_int 10) 0 0).
Proof.
  repeat split; try (vm_compute; reflexivity); vm_compute; discriminate.
Qed.

(** C10, counterexample.  The same failed iterator, once its binding is
    torn down: [Reset] returns [S_OK], and the next step raises
    [object_detached] ([E_FAIL]), not the stored [std::range_error]
    ([E_BOUNDS]). *)
Lemma detached_iterator_does_not_reraise_after_Reset :
  GetNext_calls Z Z example_host 0 failing_itemProjector example_BoxObject
                [example_world; example_world] example_iterator 0
  = (failed_iterator,
     [Ok (S_OK, produced 0 (boxed_int 10) 0 0); Ok (E_BOUNDS, cleared 0)]) /\
  m_thrown failed_iterator = Some (std_range_error "bad element") /\
  status_of (std_range_error "bad element") = E_BOUNDS /\
  snd (Reset failed_iterator) = S_OK /\
  GetNext Z Z example_host 0 failing_itemProjector example_BoxObject
          (teardown example_binding example_world) (fst (Reset failed_iterator)) 0
  = (set_m_thrown (fst (Reset failed_iterator)) object_detached_default,
     Ok (E_FAIL, cleared 0)) /\
  E_FAIL <> E_BOUNDS /\
  object_detached_default <> std_range_error "bad element".
Proof.
  repeat split; try (vm_compute; reflexivity); vm_compute; discriminate.
Qed.

(** ** Status codes through exceptions and back *)

Lemma status_of_ThrowHr (hr : HRESULT) (msg : string) :
  status_of (ThrowHr hr msg) = status_after_rethrow hr.
Proof.
  unfold ThrowHr, status_after_rethrow.
  destruct (Z.eqb_spec hr E_INVALIDARG) as [->|_]; [reflexivity|].
  destruct (Z.eqb_spec hr DISP_E_TYPEMISMATCH) as [->|_]; [reflexivity|].
  cbn [orb].
  destruct (Z.eqb_spec hr E_OUTOFMEMORY) as [->|_]; [reflexivity|].
  destruct (Z.eqb_spec hr E_BOUNDS) as [->|_]; [reflexivity|].
  destruct (Z.eqb_spec hr E_NOTIMPL) as [->|_]; [reflexivity|].
  destruct (Z.eqb_spec hr E_UNEXPECTED) as [->|_]; [reflexivity|].
  destruct (Z.eqb_spec hr E_ILLEGAL_METHOD_CALL) as [->|_]; [reflexivity|].
  destruct (Z.eqb_spec hr E_NOT_SET) as [->|_]; reflexivity.
Qed.

(** X1.  A status code that [ThrowHr] turns into an exception and that
    [ReturnResult] then catches at a boundary comes out as the same status
    code, whatever the code and the message; the one exception is
    [DISP_E_TYPEMISMATCH], which comes out as [E_INVALIDARG]. *)
Theorem status_survives_the_exception (h : Host) (hr : HRESULT) (msg : string)
        (ppError : bool) :
  exists err,
    ReturnResult h (ThrowHr hr msg) ppError = Ok (status_after_rethrow hr, err).
Proof.
  rewrite ReturnResult_status, status_of_ThrowHr. eexists. reflexivity.
Qed.

(** X2.  An exception that [ReturnResult] turns into a status code and
    that [ThrowHr] raises again from that code keeps its class when the
    class has a code of its own; an [object_detached], any other standard
    exception and a thrown object of another type come back as an
    [hr_exception] of [E_FAIL], and an [hr_exception] comes back as what
    [ThrowHr] makes of its code. *)
Theorem class_survives_the_status_code (h : Host) (e : exception) (ppError : bool)
        (msg : string) :
  exists hr err,
    ReturnResult h e ppError = Ok (hr, err) /\
    ThrowHr hr msg = rethrown e msg.
Proof.
  rewrite ReturnResult_status. eexists. eexists. split; [reflexivity|].
  destruct e; reflexivity.
Qed.

(** ** Signatures: which ones compile *)

Section SignatureShapes.

Local Open Scope nat_scope.

Lemma HasVariableArgumentHelper2_inv (l : list ParamType) :
  HasVariableArgumentHelper2 l = true -> exists front, l = front ++ variadic_pair.
Proof.
  induction l as [|x l IH]; [discriminate|].
  destruct l as [|y [|z l]].
  - destruct x as [|[[]| | | |]]; discriminate.
  - intros H. change (IsVariableArgumentPosition [x; y] = true) in H.
    apply IsVariableArgumentPosition_inv in H. exists []. exact H.
  - intros H. destruct (IH H) as [front Hf]. exists (x :: front).
    rewrite Hf. reflexivity.
Qed.

(** X3.  A parameter list is variadic exactly when it ends with the pair
    [(size_t, Object * )]. *)
Theorem variadic_iff_trailing_pair (TArgs : list ParamType) :
  HasVariableArguments TArgs = true <-> exists front, TArgs = front ++ variadic_pair.
Proof.
  split.
  - unfold HasVariableArguments.
    destruct (List.length TArgs) as [|[|n]]; try discriminate.
    apply HasVariableArgumentHelper2_inv.
  - intros [front ->]. apply HasVariableArguments_app_pair.
Qed.

Lemma HasVariableArguments_uncons (T a b : ParamType) (l : list ParamType) :
  HasVariableArguments (T :: a :: b :: l) = HasVariableArguments (a :: b :: l).
Proof. reflexivity. Qed.

(** A required type that [HasNonOptionalArguments] reports is there. *)
Lemma HasNonOptionalArguments_finds (l : list ParamType) :
  l <> [] ->
  HasNonOptionalArguments l = true ->
  exists j Tj,
    nth_error l j = Some Tj /\ IsOptionalArgument Tj = false /\
    ~ (HasVariableArguments l = true /\ List.length l - 2 <= j).
Proof.
  induction l as [|T l IH]; intros Hne H; [contradiction|].
  destruct l as [|y r].
  - exists 0, T. split; [reflexivity|]. split.
    + destruct T as [|[]]; try reflexivity. discriminate H.
    + intros [Hv _]. discriminate Hv.
  - change (HasNonOptionalArguments (T :: y :: r))
      with (if IsVariableArgumentPosition (T :: y :: r) then false
            else if IsNonOptionalArgument T then true
                 else HasNonOptionalArguments (y :: r)) in H.
    destruct (IsVariableArgumentPosition (T :: y :: r)) eqn:Hp; [discriminate|].
    destruct (IsNonOptionalArgument T) eqn:HT.
    + exists 0, T. split; [reflexivity|]. split.
      * destruct T as [|[]]; try reflexivity. discriminate HT.
      * intros [Hv Hlen]. destruct r as [|z r]; [|simpl in Hlen; lia].
        change (IsVariableArgumentPosition [T; y] = true) in Hv. congruence.
    + destruct (IH ltac:(discriminate) H) as (j & Tj & Hj & Hjo & Hpair).
      exists (S j), Tj. split; [exact Hj|]. split; [exact Hjo|].
      intros [Hv Hlen]. destruct r as [|z r].
      * change (IsVariableArgumentPosition [T; y] = true) in Hv. congruence.
      * apply Hpair. split.
        -- rewrite <- Hv. symmetry. apply HasVariableArguments_uncons.
        -- simpl in *. lia.
Qed.

Lemma static_assert_only_then (l : list ParamType) :
  HasOptionalArguments l = None -> required_after_optional l.
Proof.
  induction l as [|T l IH]; [discriminate|].
  destruct l as [|y r]; [discriminate|].
  rewrite HasOptionalArguments_cons.
  destruct (HasOptionalArguments (y :: r)) as [nextOptional|] eqn:Hn.
  - destruct (IsOptionalArgument T) eqn:HT; [|discriminate].
    destruct (HasNonOptionalArguments (y :: r)) eqn:Hno; [|discriminate].
    intros _.
    destruct (HasNonOptionalArguments_finds (y :: r) ltac:(discriminate) Hno)
      as (j & Tj & Hj & Hjo & Hpair).
    exists 0, (S j), T, Tj. repeat split; try assumption; try lia.
    intros [Hv Hlen]. destruct r as [|z r].
    + destruct j; [|destruct j; discriminate Hj].
      change (IsVariableArgumentPosition [T; y] = true) in Hv.
      apply IsVariableArgumentPosition_inv in Hv. injection Hv as -> ->.
      discriminate HT.
    + apply Hpair. split; [exact Hv | simpl in *; lia].
  - intros _. destruct (IH eq_refl) as (i & j & Ti & Tj & Hij & Hi & Hio & Hj & Hjo & Hpair).
    exists (S i), (S j), Ti, Tj. repeat split; try assumption; try lia.
    intros [Hv Hlen]. destruct r as [|z r].
    + destruct j; [lia|]. destruct j; discriminate Hj.
    + apply Hpair. split; [exact Hv | simpl in *; lia].
Qed.

(** X4.  Instantiating [HasOptionalArguments] fires its [static_assert]
    exactly for the parameter lists that have a required parameter after
    an optional one (outside a trailing capture pair): every other list
    compiles. *)
Theorem static_assert_iff_required_after_optional (TArgs : list ParamType) :
  HasOptionalArguments TArgs = None <-> required_after_optional TArgs.
Proof.
  split; [apply static_assert_only_then | apply static_assert_fires].
Qed.

End SignatureShapes.

(** ** Signatures: the ones that compile are the classified ones *)

Section Classification.

Local Open Scope nat_scope.

Lemma Unpacker_compiles_inv (l : list ParamType) :
  Unpacker_compiles l = true -> exists regs variadic, l = slot_types regs variadic.
Proof.
  induction l as [|A l IH]; intros H.
  - exists [], false. reflexivity.
  - cbn [Unpacker_compiles] in H.
    destruct (IsVariableArgumentPosition (A :: l)) eqn:Hp.
    + apply IsVariableArgumentPosition_inv in Hp. exists [], true. exact Hp.
    + destruct A as [|T]; [discriminate|].
      destruct (IH H) as (regs & v & ->).
      exists (T :: regs), v. reflexivity.
Qed.

Lemma HasOptionalArguments_slot_types_inv (regs : list NativeType) (variadic : bool) :
  HasOptionalArguments (slot_types regs variadic) <> None ->
  exists req opt,
    regs = req ++ map TOptional opt /\
    forallb (fun T => negb (is_optional T)) req = true.
Proof.
  induction regs as [|T regs IH]; intros H.
  - exists [], []. split; reflexivity.
  - rewrite slot_types_cons in H.
    assert (Hrest : HasOptionalArguments (slot_types regs variadic) <> None).
    { destruct (slot_types regs variadic) as [|y l]; [discriminate|].
      rewrite HasOptionalArguments_cons in H.
      destruct (HasOptionalArguments (y :: l)); [discriminate|].
      intros _. apply H. reflexivity. }
    destruct (IH Hrest) as (req & opt & -> & Hreq).
    destruct (is_optional T) eqn:HT.
    + destruct T as [| | |T'|]; try discriminate HT.
      destruct req as [|R req].
      * exists [], (T' :: opt). split; reflexivity.
      * exfalso. apply H.
        change ((R :: req) ++ map TOptional opt)
          with (R :: (req ++ map TOptional opt)) in *.
        pose proof (IsVariableArgumentPosition_slot_types
                      (R :: (req ++ map TOptional opt)) variadic) as Hv.
        rewrite slot_types_cons in *.
        rewrite HasOptionalArguments_cons.
        destruct (HasOptionalArguments
                    (P_val R :: slot_types (req ++ map TOptional opt) variadic));
          [|reflexivity].
        simpl in Hreq. apply andb_prop in Hreq. destruct Hreq as [HR _].
        assert (HRn : IsNonOptionalArgument (P_val R) = true)
          by (destruct R; try reflexivity; discriminate HR).
        assert (Hno : HasNonOptionalArguments
                        (P_val R :: slot_types (req ++ map TOptional opt) variadic)
                      = true).
        { destruct (slot_types (req ++ map TOptional opt) variadic) as [|y l].
          - exact HRn.
          - change (HasNonOptionalArguments (P_val R :: y :: l))
              with (if IsVariableArgumentPosition (P_val R :: y :: l) then false
                    else if IsNonOptionalArgument (P_val R) then true
                         else HasNonOptionalArguments (y :: l)).
            rewrite Hv, HRn. reflexivity. }
        rewrite Hno. reflexivity.
    + exists (T :: req), opt. split; [reflexivity|].
      simpl. rewrite HT, Hreq. reflexivity.
Qed.

Lemma compiling_signature_shape (TArgs : list ParamType) (n : nat) :
  PackMatchingSize TArgs = Some n ->
  Unpacker_compiles TArgs = true ->
  exists req opt variadic,
    TArgs = slot_types (req ++ map TOptional opt) variadic /\
    forallb (fun T => negb (is_optional T)) req = true /\
    n = List.length req.
Proof.
  intros Hn Hc.
  destruct (Unpacker_compiles_inv TArgs Hc) as (regs & variadic & ->).
  assert (Ho : HasOptionalArguments (slot_types regs variadic) <> None).
  { unfold PackMatchingSize in Hn.
    destruct (HasOptionalArguments (slot_types regs variadic)); discriminate. }
  destruct (HasOptionalArguments_slot_types_inv regs variadic Ho)
    as (req & opt & -> & Hreq).
  exists req, opt, variadic. split; [reflexivity|]. split; [exact Hreq|].
  rewrite (PackMatchingSize_classified req opt variadic Hreq) in Hn.
  injection Hn as <-. reflexivity.
Qed.

(** X5.  Whenever [InvokeFunctionFromPack] has an instantiation, the
    parameters after the context object and the extra values are some
    required slots, then some optional slots, then possibly the capture
    pair: no other shape of signature compiles. *)
Theorem accepted_signatures_are_classified
        (h : Host) (TArgs : list ParamType) (extraArgumentCount : nat)
        (call : list TupleElem -> result Object) (packSize : nat) (pack : list Object)
        (r : result Object) :
  InvokeFunctionFromPack h TArgs extraArgumentCount call packSize pack = Some r ->
  extraArgumentCount + 1 <= List.length TArgs /\
  exists req opt variadic,
    skipn (extraArgumentCount + 1) TArgs = slot_types (req ++ map TOptional opt) variadic /\
    forallb (fun T => negb (is_optional T)) req = true.
Proof.
  unfold InvokeFunctionFromPack, PackMatchingSize_WithIgnore, TupleTypeExtractor.
  destruct (Nat.ltb_spec (List.length TArgs) (extraArgumentCount + 1)) as [|Hle];
    [discriminate|].
  destruct (PackMatchingSize (skipn (extraArgumentCount + 1) TArgs)) as [n|] eqn:Hn;
    [|discriminate].
  destruct (Unpacker_compiles (skipn (extraArgumentCount + 1) TArgs)) eqn:Hc;
    [|discriminate].
  intros _. split; [exact Hle|].
  destruct (compiling_signature_shape _ n Hn Hc) as (req & opt & variadic & H1 & H2 & _).
  exists req, opt, variadic. split; assumption.
Qed.

End Classification.

Lemma accepted_signatures_are_classified_witness :
  InvokeFunctionFromPack example_host
    [P_val TObject; P_val (TIntrinsic c_int); P_val (TOptional TBool); P_size_t; P_ObjectPtr]
    0 example_call 1 [boxed_int 5] = Some (Ok NoValueObject) /\
  exists req opt variadic,
    skipn (0 + 1)
      [P_val TObject; P_val (TIntrinsic c_int); P_val (TOptional TBool); P_size_t; P_ObjectPtr]
    = slot_types (req ++ map TOptional opt) variadic /\
    forallb (fun T => negb (is_optional T)) req = true.
Proof.
  split; [reflexivity|].
  exact (proj2 (accepted_signatures_are_classified example_host
                  [P_val TObject; P_val (TIntrinsic c_int); P_val (TOptional TBool);
                   P_size_t; P_ObjectPtr]
                  0 example_call 1 [boxed_int 5] (Ok NoValueObject) eq_refl)).
Defined.

(** ** Packed arguments, bound methods, constructors and properties *)

Section Calls.

Local Open Scope nat_scope.

Variable h : Host.
Variable junk : Z.

Lemma Box_total (T : NativeType) (x : value T) : exists o, Box junk T x = Ok o.
Proof.
  revert x. induction T as [t| |u|T' IH|]; cbn [Box]; intros x.
  - destruct (BoxObjectIntrinsic_Box_kind junk t x) as [v Hv]. eexists. exact Hv.
  - eexists. reflexivity.
  - destruct (BoxObjectIntrinsic_Box_kind junk u (enumerator x)) as [v Hv].
    eexists. exact Hv.
  - destruct x as [y|]; [apply IH | eexists; reflexivity].
  - eexists. reflexivity.
Qed.

Lemma pack_set_app (done : list Object) (x o : Object) (rest : list Object) :
  Packing.pack_set (List.length done) o (done ++ x :: rest) = done ++ o :: rest.
Proof.
  induction done as [|d done IH]; simpl; [reflexivity|]. rewrite IH. reflexivity.
Qed.

Lemma Packer_PackInto_boxed (args : list Packing.Arg) :
  forall done slots,
    List.length slots = List.length args ->
    Packing.Packer_PackInto junk (List.length done) (done ++ slots) args
    = (os <- boxed_all junk args ;; Ok (done ++ os)).
Proof.
  induction args as [|[T x] args IH]; intros done slots Hlen.
  - destruct slots; [|discriminate Hlen]. reflexivity.
  - destruct slots as [|s slots]; [discriminate Hlen|].
    cbn [Packing.Packer_PackInto boxed_all projT1 projT2].
    destruct (Box junk T x) as [o|e|]; cbn [bind]; try reflexivity.
    rewrite pack_set_app.
    replace (List.length done + 1) with (List.length (done ++ [o]))
      by (rewrite length_app; reflexivity).
    change (done ++ o :: slots) with (done ++ [o] ++ slots).
    rewrite app_assoc. rewrite IH by (simpl in Hlen; lia).
    destruct (boxed_all junk args) as [os|e|]; cbn [bind]; try reflexivity.
    rewrite <- app_assoc. reflexivity.
Qed.

Lemma PackValues_boxed (args : list Packing.Arg) :
  Packing.PackValues junk args = boxed_all junk args.
Proof.
  unfold Packing.PackValues.
  pose proof (Packer_PackInto_boxed args [] (repeat NullObject (List.length args))
                (repeat_length _ _)) as H.
  cbn [List.length app] in H. rewrite H.
  destruct (boxed_all junk args); reflexivity.
Qed.

Lemma boxed_all_total (args : list Packing.Arg) :
  exists pack, boxed_all junk args = Ok pack /\ List.length pack = List.length args.
Proof.
  induction args as [|[T x] args (pack & Hp & Hl)].
  - exists []. split; reflexivity.
  - destruct (Box_total T x) as [o Ho]. exists (o :: pack).
    cbn [boxed_all projT1 projT2]. rewrite Ho, Hp. split; [reflexivity|].
    simpl. rewrite Hl. reflexivity.
Qed.

Lemma regular_slots_of_boxed (args : list Packing.Arg) :
  forall pack done,
    boxed_all junk args = Ok pack ->
    Forall arg_round_trips args ->
    regular_slots h (map arg_type args) (List.length done)
      (List.length done + List.length pack) (done ++ pack)
    = Ok (map arg_elem args).
Proof.
  induction args as [|[T x] args IH]; intros pack done Hb Hall.
  - reflexivity.
  - cbn [boxed_all projT1 projT2] in Hb.
    inversion Hall as [|a l [Hw Hp] Hall']; subst a l. cbn [projT1 projT2] in Hw, Hp.
    pose proof (Box_then_Unbox h junk T x Hw Hp) as Hrt.
    destruct (Box junk T x) as [o|e|]; cbn [bind] in Hb, Hrt; try discriminate.
    destruct (boxed_all junk args) as [os|e|] eqn:Hos; cbn [bind] in Hb;
      try discriminate.
    injection Hb as <-.
    cbn [map regular_slots arg_type arg_elem projT1 projT2].
    destruct (Nat.ltb_spec (List.length done) (List.length done + List.length (o :: os)))
      as [_|Hge]; [|simpl in Hge; lia].
    unfold pack_at. rewrite nth_error_app2 by lia. rewrite Nat.sub_diag.
    cbn [nth_error bind]. rewrite Hrt. cbn [bind].
    specialize (IH os (done ++ [o]) eq_refl Hall').
    rewrite length_app in IH. cbn [List.length] in IH.
    rewrite <- app_assoc in IH. cbn [app] in IH.
    replace (List.length done + 1 + List.length os)
      with (List.length done + List.length (o :: os)) in IH by (simpl; lia).
    rewrite IH. reflexivity.
Qed.

Lemma UnpackValues_of_packed (args : list Packing.Arg) (pack : list Object)
      (leading : list NativeType) :
  boxed_all junk args = Ok pack ->
  Forall arg_round_trips args ->
  UnpackValues h (List.length leading)
    (map P_val leading ++ slot_types (map arg_type args) false)
    (List.length pack) pack
  = Ok (map arg_elem args).
Proof.
  intros Hb Hall. rewrite UnpackValues_slots.
  pose proof (regular_slots_of_boxed args pack [] Hb Hall) as Hr.
  cbn [List.length app Nat.add] in Hr. rewrite Hr. cbn [bind].
  rewrite app_nil_r. reflexivity.
Qed.

(** X6.  What [PackValues] packs, [UnpackValues] unpacks: the native
    arguments of a call, boxed in order into an array of their number,
    come back as the tuple of the same values when they are unpacked at
    their own types (each value being one its boxed form unboxes to). *)
Theorem pack_then_unpack (args : list Packing.Arg) :
  Forall arg_round_trips args ->
  exists pack,
    Packing.PackValues junk args = Ok pack /\
    List.length pack = List.length args /\
    UnpackValues h 0 (slot_types (map arg_type args) false) (List.length pack) pack
    = Ok (map arg_elem args).
Proof.
  intros Hall. destruct (boxed_all_total args) as (pack & Hp & Hl).
  exists pack. rewrite PackValues_boxed. split; [exact Hp|]. split; [exact Hl|].
  apply (UnpackValues_of_packed args pack [] Hp Hall).
Qed.

End Calls.

Lemma pack_then_unpack_witness :
  Forall arg_round_trips
    [existT value (TIntrinsic c_int) (-1); existT value (TOptional TBool) (Some true)] /\
  exists pack,
    Packing.PackValues 77
      [existT value (TIntrinsic c_int) (-1); existT value (TOptional TBool) (Some true)]
    = Ok pack /\
    List.length pack = 2%nat /\
    UnpackValues example_host 0
      (slot_types [TIntrinsic c_int; TOptional TBool] false) (List.length pack) pack
    = Ok [elem_val (TIntrinsic c_int) (-1); elem_val (TOptional TBool) (Some true)].
Proof.
  assert (H : Forall arg_round_trips
                [existT value (TIntrinsic c_int) (-1);
                 existT value (TOptional TBool) (Some true)]).
  { repeat constructor; unfold in_range, min_value, max_value; simpl; lia. }
  split; [exact H|].
  exact (pack_then_unpack example_host 77
           [existT value (TIntrinsic c_int) (-1);
            existT value (TOptional TBool) (Some true)] H).
Defined.

Section Methods.

Local Open Scope nat_scope.

Variable h : Host.
Variable junk : Z.

Lemma HasVariableArguments_after_context (ctx : ParamType) (TArgs : list ParamType) :
  Unpacker_compiles TArgs = true ->
  HasVariableArguments (ctx :: TArgs) = HasVariableArguments TArgs.
Proof.
  destruct TArgs as [|a [|b l]]; intros Hc; try reflexivity.
  destruct a as [|T]; [discriminate Hc|].
  destruct ctx as [|[[]| | | |]]; reflexivity.
Qed.

Lemma LiteralInvoke_as_Invoke (ctx : ParamType) (TArgs : list ParamType)
      (call : list TupleElem -> result Object) (packSize : nat) (pack : list Object) :
  Packing.LiteralInvokeFunctionFromPack h TArgs call packSize pack
  = InvokeFunctionFromPack h (ctx :: TArgs) 0 call packSize pack.
Proof.
  unfold Packing.LiteralInvokeFunctionFromPack, InvokeFunctionFromPack,
    PackMatchingSize_WithIgnore, TupleTypeExtractor, UnpackValues, TupleTypeExtractor.
  cbn [Nat.add skipn List.length Nat.ltb Nat.leb Nat.sub].
  rewrite Nat.sub_0_r.
  destruct (PackMatchingSize TArgs) as [n|]; [|reflexivity].
  destruct (Unpacker_compiles TArgs) eqn:Hc; [|reflexivity].
  rewrite (HasVariableArguments_after_context ctx TArgs Hc). reflexivity.
Qed.

(** X7.  A constructor validates and unpacks its arguments exactly as a
    method whose parameters after the context object are the
    constructor's parameters: [LiteralInvokeFunctionFromPack] on [TArgs]
    is [InvokeFunctionFromPack] on a context type followed by [TArgs],
    for the rejected instantiations as well. *)
Theorem constructors_take_arguments_as_methods_do
        (ctx : ParamType) (TArgs : list ParamType)
        (call : list TupleElem -> result Object) (packSize : nat) (pack : list Object) :
  Packing.LiteralInvokeFunctionFromPack h TArgs call packSize pack
  = InvokeFunctionFromPack h (ctx :: TArgs) 0 call packSize pack.
Proof. apply LiteralInvoke_as_Invoke. Qed.

Lemma at_the_boundary_spec (r : result Object) :
  match r with
  | Ok result => Ok (S_OK, Some result)
  | Throw e => ReturnResult h e true
  | Undefined => Undefined
  end = at_the_boundary h r.
Proof. destruct r; try reflexivity. apply ReturnResult_status. Qed.

Lemma BoxedMethod_Call_classified
      (ctx : NativeType) (req opt : list NativeType) (variadic : bool)
      (m_func : Object -> list TupleElem -> result Object) (obj : Object)
      (argCount : nat) (args : list Object) :
  forallb (fun T => negb (is_optional T)) req = true ->
  Packing.BoxedMethod_Call h (classified [ctx] req opt variadic) m_func obj argCount args
  = Some (at_the_boundary h
            (if (argCount <? List.length req)
                || ((List.length req + List.length opt <? argCount) && negb variadic)
             then Throw illegal_number_of_arguments
             else parameters <- UnpackValues h 1 (classified [ctx] req opt variadic)
                                  argCount args ;;
                  m_func obj parameters)).
Proof.
  intros Hreq. unfold Packing.BoxedMethod_Call, Packing.InvokeMethodFromPack.
  pose proof (InvokeFunctionFromPack_classified h ctx [] req opt variadic
                (m_func obj) argCount args Hreq) as HI.
  cbn [List.length] in HI. rewrite HI. rewrite at_the_boundary_spec. reflexivity.
Qed.

(** X8.  A bound method whose parameters are [k] required and [m]
    optional slots (and possibly the capture pair), called with fewer
    than [k] arguments, or with more than [k + m] when it is not
    variadic, returns [E_INVALIDARG] with the error object of the arity
    message; the bound function is not run. *)
Theorem method_call_with_a_wrong_argument_count
        (ctx : NativeType) (req opt : list NativeType) (variadic : bool)
        (m_func : Object -> list TupleElem -> result Object) (obj : Object)
        (argCount : nat) (args : list Object) :
  forallb (fun T => negb (is_optional T)) req = true ->
  argCount < List.length req
  \/ (List.length req + List.length opt < argCount /\ variadic = false) ->
  Packing.BoxedMethod_Call h (classified [ctx] req opt variadic) m_func obj argCount args
  = Some (Ok (E_INVALIDARG,
              attached_error h E_INVALIDARG illegal_number_of_arguments true)).
Proof.
  intros Hreq Hbad. rewrite (BoxedMethod_Call_classified _ _ _ _ _ _ _ _ Hreq).
  destruct Hbad as [Hlt|[Hgt ->]].
  - destruct (Nat.ltb_spec argCount (List.length req)); [reflexivity | lia].
  - destruct (Nat.ltb_spec (List.length req + List.length opt) argCount); [|lia].
    rewrite orb_true_r. reflexivity.
Qed.

(** X9.  A bound method of required parameters, called with the packed
    form of native arguments of the parameters' types, runs the bound
    function on the context object and on those same native values; the
    call returns [S_OK] and the function's result, or the status of the
    exception the function raised. *)
Theorem method_call_reaches_the_function
        (ctx : NativeType) (native : list Packing.Arg)
        (m_func : Object -> list TupleElem -> result Object) (obj : Object)
        (pack : list Object) :
  Forall arg_round_trips native ->
  forallb (fun T => negb (is_optional T)) (map arg_type native) = true ->
  Packing.PackValues junk native = Ok pack ->
  Packing.BoxedMethod_Call h (classified [ctx] (map arg_type native) [] false)
    m_func obj (List.length pack) pack
  = Some (at_the_boundary h (m_func obj (map arg_elem native))).
Proof.
  intros Hall Hreq Hpack. rewrite PackValues_boxed in Hpack.
  rewrite (BoxedMethod_Call_classified _ _ _ _ _ _ _ _ Hreq).
  destruct (boxed_all_total junk native) as (pack' & Hp' & Hl).
  rewrite Hp' in Hpack. injection Hpack as ->.
  rewrite length_map, Hl.
  destruct (Nat.ltb_spec (List.length native) (List.length native)); [lia|].
  cbn [orb List.length map Nat.add]. rewrite Nat.add_0_r.
  destruct (Nat.ltb_spec (List.length native) (List.length native)); [lia|].
  cbn [andb]. unfold classified. cbn [map]. rewrite app_nil_r.
  rewrite <- Hl.
  pose proof (UnpackValues_of_packed h junk native pack [ctx] Hp' Hall) as HU.
  cbn [List.length map] in HU. rewrite HU.
  reflexivity.
Qed.

Lemma CreateInstance_classified
      (req opt : list NativeType) (variadic : bool)
      (m_constructableProjector : list TupleElem -> result Object)
      (argCount : nat) (args : list Object) :
  forallb (fun T => negb (is_optional T)) req = true ->
  Packing.BoundConstructable_CreateInstance h
    (slot_types (req ++ map TOptional opt) variadic)
    m_constructableProjector argCount args
  = Some match (if (argCount <? List.length req)
                   || ((List.length req + List.length opt <? argCount) && negb variadic)
                then Throw illegal_number_of_arguments
                else parameters <- UnpackValues h 1
                                     (classified [TObject] req opt variadic)
                                     argCount args ;;
                     m_constructableProjector parameters) with
         | Ok result => Ok (S_OK, Some result)
         | Throw e => Ok (status_of e, None)
         | Undefined => Undefined
         end.
Proof.
  intros Hreq. unfold Packing.BoundConstructable_CreateInstance.
  rewrite (LiteralInvoke_as_Invoke (P_val TObject)).
  pose proof (InvokeFunctionFromPack_classified h TObject [] req opt variadic
                m_constructableProjector argCount args Hreq) as HI.
  cbn [List.length] in HI.
  change (P_val TObject :: slot_types (req ++ map TOptional opt) variadic)
    with (classified [TObject] req opt variadic).
  rewrite HI.
  match goal with
  | |- context [if ?c then _ else _] => destruct c
  end.
  - rewrite ReturnResult_status. reflexivity.
  - match goal with
    | |- Some (match ?r with _ => _ end) = _ => destruct r as [o|e|]
    end; try reflexivity.
    rewrite ReturnResult_status. reflexivity.
Qed.

(** X10.  A bound constructor whose parameters are [k] required and [m]
    optional slots (and possibly the capture pair), called with fewer
    than [k] arguments, or with more than [k + m] when it is not
    variadic, returns [E_INVALIDARG] and no instance; the constructor
    function is not run. *)
Theorem constructor_call_with_a_wrong_argument_count
        (req opt : list NativeType) (variadic : bool)
        (m_constructableProjector : list TupleElem -> result Object)
        (argCount : nat) (args : list Object) :
  forallb (fun T => negb (is_optional T)) req = true ->
  argCount < List.length req
  \/ (List.length req + List.length opt < argCount /\ variadic = false) ->
  Packing.BoundConstructable_CreateInstance h
    (slot_types (req ++ map TOptional opt) variadic)
    m_constructableProjector argCount args
  = Some (Ok (E_INVALIDARG, None)).
Proof.
  intros Hreq Hbad. rewrite (CreateInstance_classified _ _ _ _ _ _ Hreq).
  destruct Hbad as [Hlt|[Hgt ->]].
  - destruct (Nat.ltb_spec argCount (List.length req)); [reflexivity | lia].
  - destruct (Nat.ltb_spec (List.length req + List.length opt) argCount); [|lia].
    rewrite orb_true_r. reflexivity.
Qed.

(** X12.  A value set through a bound property reaches the setter
    unboxed, and reading the property boxes what the getter returns: when
    the setter stores the value and the getter returns it, [SetValue] and
    then [GetValue] both return [S_OK] and the object read is the object
    written.  An object that does not unbox to the property's type is
    refused with the status of the unboxing failure, and the setter is
    not run: the native state is as before. *)
Theorem property_set_then_get
        (T : NativeType) (S : Type)
        (setter : S -> Object -> value T -> S * result unit)
        (getter : S -> Object -> result (value T))
        (s : S) (obj pValue : Object) :
  (forall x s',
      well_typed T x -> present_values_box_to_values T x ->
      Box junk T x = Ok pValue ->
      setter s obj x = (s', Ok tt) ->
      getter s' obj = Ok x ->
      Packing.BoxedProperty_SetValue h T setter s obj pValue = (s', Ok S_OK) /\
      Packing.BoxedProperty_GetValue h junk T (getter s') obj = Ok (S_OK, Some pValue)) /\
  (forall e,
      Unbox h T pValue = Throw e ->
      Packing.BoxedProperty_SetValue h T setter s obj pValue = (s, Ok (status_of e))).
Proof.
  split.
  - intros x s' Hw Hp Hbox Hset Hget.
    pose proof (Box_then_Unbox h junk T x Hw Hp) as Hrt.
    rewrite Hbox in Hrt. cbn [bind] in Hrt.
    unfold Packing.BoxedProperty_SetValue, Packing.BoxedProperty_GetValue.
    rewrite Hrt, Hset, Hget. cbn [bind]. rewrite Hbox. split; reflexivity.
  - intros e He. unfold Packing.BoxedProperty_SetValue. rewrite He.
    rewrite ReturnResult_status. reflexivity.
Qed.

End Methods.

Lemma method_call_with_a_wrong_argument_count_witness :
  (forallb (fun T => negb (is_optional T)) [TIntrinsic c_int] = true /\
   ((0 < List.length [TIntrinsic c_int])%nat
    \/ ((List.length [TIntrinsic c_int] + List.length [TBool] < 0)%nat /\ false = false))) /\
  Packing.BoxedMethod_Call example_host
    (classified [TObject] [TIntrinsic c_int] [TBool] false)
    (fun _ => example_call) example_context 0 []
  = Some (Ok (E_INVALIDARG,
              attached_error example_host E_INVALIDARG illegal_number_of_arguments true)).
Proof.
  split; [split; [reflexivity | left; simpl; lia]|].
  apply (method_call_with_a_wrong_argument_count example_host TObject
           [TIntrinsic c_int] [TBool] false (fun _ => example_call) example_context 0 []
           eq_refl).
  left. simpl. lia.
Defined.

Lemma method_call_reaches_the_function_witness :
  (Forall arg_round_trips [existT value (TIntrinsic c_int) 7; existT value TBool true] /\
   forallb (fun T => negb (is_optional T))
     (map arg_type [existT value (TIntrinsic c_int) 7; existT value TBool true]) = true /\
   Packing.PackValues 0 [existT value (TIntrinsic c_int) 7; existT value TBool true]
   = Ok [boxed_int 7;
         IntrinsicObject ObjectIntrinsic {| vt := VT_BOOL; raw := 65535 |}]) /\
  Packing.BoxedMethod_Call example_host
    (classified [TObject] [TIntrinsic c_int; TBool] [] false)
    (fun _ => example_call) example_context 2
    [boxed_int 7; IntrinsicObject ObjectIntrinsic {| vt := VT_BOOL; raw := 65535 |}]
  = Some (Ok (S_OK, Some NoValueObject)).
Proof.
  assert (H : Forall arg_round_trips
                [existT value (TIntrinsic c_int) 7; existT value TBool true]).
  { repeat constructor; unfold in_range, min_value, max_value; simpl; lia. }
  split; [split; [exact H | split; reflexivity]|].
  exact (method_call_reaches_the_function example_host 0 TObject
           [existT value (TIntrinsic c_int) 7; existT value TBool true]
           (fun _ => example_call) example_context
           [boxed_int 7; IntrinsicObject ObjectIntrinsic {| vt := VT_BOOL; raw := 65535 |}]
           H eq_refl eq_refl).
Defined.

Lemma constructor_call_with_a_wrong_argument_count_witness :
  (forallb (fun T => negb (is_optional T)) [TIntrinsic c_int] = true /\
   ((2 < List.length [TIntrinsic c_int])%nat
    \/ ((List.length [TIntrinsic c_int] + List.length (@nil NativeType) < 2)%nat
        /\ false = false))) /\
  Packing.BoundConstructable_CreateInstance example_host
    (slot_types ([TIntrinsic c_int] ++ map TOptional []) false)
    example_call 2 [boxed_int 1; boxed_int 2]
  = Some (Ok (E_INVALIDARG, None)).
Proof.
  split; [split; [reflexivity | right; split; [simpl; lia | reflexivity]]|].
  apply (constructor_call_with_a_wrong_argument_count example_host
           [TIntrinsic c_int] [] false example_call 2 [boxed_int 1; boxed_int 2] eq_refl).
  right. split; [simpl; lia | reflexivity].
Defined.

Lemma property_set_then_get_witness :
  (well_typed (TIntrinsic c_int) 42 /\
   present_values_box_to_values (TIntrinsic c_int) 42 /\
   Box 0 (TIntrinsic c_int) 42 = Ok (boxed_int 42) /\
   (fun (s : Z) (_ : Object) (x : Z) => (x, Ok tt)) 0 example_context 42 = (42, Ok tt) /\
   (fun (s : Z) (_ : Object) => Ok s) 42 example_context = Ok 42) /\
  Packing.BoxedProperty_SetValue example_host (TIntrinsic c_int)
    (fun (s : Z) (_ : Object) (x : Z) => (x, Ok tt)) 0 example_context (boxed_int 42)
  = (42, Ok S_OK) /\
  Packing.BoxedProperty_GetValue example_host 0 (TIntrinsic c_int)
    ((fun (s : Z) (_ : Object) => Ok s) 42) example_context
  = Ok (S_OK, Some (boxed_int 42)).
Proof.
  assert (Hw : well_typed (TIntrinsic c_int) 42).
  { unfold well_typed, in_range, min_value, max_value. simpl. lia. }
  split; [repeat split; try reflexivity; apply Hw|].
  exact (proj1 (property_set_then_get example_host 0 (TIntrinsic c_int) Z
                  (fun (s : Z) (_ : Object) (x : Z) => (x, Ok tt))
                  (fun (s : Z) (_ : Object) => Ok s)
                  0 example_context (boxed_int 42))
           42 42 Hw I eq_refl eq_refl eq_refl).
Defined.

(** ** Boxed arrays *)

Section Arrays.

Local Open Scope nat_scope.

Variable h : Host.
Variable junk : Z.
Variable T : NativeType.

Local Abbreviation GetAt' := (BoxedArray.GetAt h junk T).
Local Abbreviation SetAt' := (BoxedArray.SetAt h T).
Local Abbreviation GetNext' := (BoxedArray.GetNext h junk T).
Local Abbreviation drain' := (BoxedArray.drain h junk T).

Lemma array_set_length (i : nat) (v : value T) (a : list (value T)) :
  List.length (BoxedArray.array_set T i v a) = List.length a.
Proof.
  revert i. induction a as [|x a IH]; intros [|i]; simpl; try reflexivity.
  rewrite IH. reflexivity.
Qed.

Lemma array_set_same (i : nat) (v : value T) (a : list (value T)) :
  i < List.length a -> nth_error (BoxedArray.array_set T i v a) i = Some v.
Proof.
  revert i. induction a as [|x a IH]; intros [|i] Hi; simpl in *; try lia.
  - reflexivity.
  - apply IH. lia.
Qed.

Lemma array_set_other (i j : nat) (v : value T) (a : list (value T)) :
  j <> i -> nth_error (BoxedArray.array_set T i v a) j = nth_error a j.
Proof.
  revert i j. induction a as [|x a IH]; intros [|i] [|j] Hij; simpl; try reflexivity.
  - contradiction.
  - apply IH. intros ->. apply Hij. reflexivity.
Qed.

Lemma to_ULONG64_range (idxObj : Object) (i : Z) :
  BoxedArray.to_ULONG64 h idxObj = Ok i -> (0 <= i < 2 ^ 64)%Z.
Proof.
  unfold BoxedArray.to_ULONG64, BoxObjectIntrinsic_Unbox.
  destruct (GetIntrinsicValueAs h (VariantType c_uint64) idxObj) as [[hr v]|e|];
    cbn [bind]; try discriminate.
  destruct (CheckHr hr); cbn [bind]; try discriminate.
  intros H. injection H as <-. unfold ExtractFromVariant, value_of_bits. cbn.
  apply Z.mod_pos_bound. reflexivity.
Qed.

(** X13.  [BoxedArray::GetAt] with one index that reads as [i]: when [i]
    is at or past the size of the array, the size itself included, the
    call returns [E_BOUNDS] with the error object of the out-of-bounds
    message; when the array has an element at [i], the call returns
    [S_OK] and that element boxed.  Any other number of indices is
    refused with [E_INVALIDARG]. *)
Theorem BoxedArray_GetAt_checks_the_index
        (a : BoxedArray.BoxedArray T) (idxObj : Object) (i : Z) :
  BoxedArray.to_ULONG64 h idxObj = Ok i ->
  ((Z.of_nat (BoxedArray.m_arraySize a) <= i)%Z ->
   GetAt' a 1 [idxObj]
   = Ok (E_BOUNDS, attached_error h E_BOUNDS out_of_bounds true)) /\
  (forall x,
      (i < Z.of_nat (BoxedArray.m_arraySize a))%Z ->
      nth_error (BoxedArray.m_spArray a) (Z.to_nat i) = Some x ->
      exists o, Box junk T x = Ok o /\ GetAt' a 1 [idxObj] = Ok (S_OK, Some o)) /\
  (forall n idxs, n <> 1 -> GetAt' a n idxs = Ok (E_INVALIDARG, None)).
Proof.
  intros Hi. repeat match goal with |- _ /\ _ => split end.
  - intros Hge. unfold BoxedArray.GetAt, BoxedArray.GetAt_try.
    cbn [Nat.eqb negb pack_at nth_error bind]. rewrite Hi. cbn [bind].
    destruct (Z.leb_spec (Z.of_nat (BoxedArray.m_arraySize a)) i); [|lia].
    apply ReturnResult_status.
  - intros x Hlt Hx. destruct (Box_total junk T x) as [o Ho]. exists o.
    split; [exact Ho|].
    unfold BoxedArray.GetAt, BoxedArray.GetAt_try.
    cbn [Nat.eqb negb pack_at nth_error bind]. rewrite Hi. cbn [bind].
    destruct (Z.leb_spec (Z.of_nat (BoxedArray.m_arraySize a)) i); [lia|].
    unfold BoxedArray.array_at. rewrite Hx. cbn [bind]. rewrite Ho. reflexivity.
  - intros n idxs Hn. unfold BoxedArray.GetAt, BoxedArray.GetAt_try.
    destruct (Nat.eqb_spec n 1); [contradiction | reflexivity].
Qed.

Lemma SetAt_in_bounds (a : BoxedArray.BoxedArray T) (idxObj pValue : Object)
      (i : Z) (v : value T) :
  BoxedArray.m_allowWrite a = true ->
  BoxedArray.to_ULONG64 h idxObj = Ok i ->
  (i < Z.of_nat (BoxedArray.m_arraySize a))%Z ->
  Unbox h T pValue = Ok v ->
  SetAt' a 1 [idxObj] pValue
  = ({| BoxedArray.m_spArray :=
          BoxedArray.array_set T (Z.to_nat i) v (BoxedArray.m_spArray a);
        BoxedArray.m_arraySize := BoxedArray.m_arraySize a;
        BoxedArray.m_allowWrite := BoxedArray.m_allowWrite a |}, Ok S_OK).
Proof.
  intros Hw Hi Hlt Hv. unfold BoxedArray.SetAt, BoxedArray.SetAt_try.
  rewrite Hw. cbn [Nat.eqb negb pack_at nth_error bind]. rewrite Hi. cbn [bind].
  destruct (Z.leb_spec (Z.of_nat (BoxedArray.m_arraySize a)) i); [lia|].
  rewrite Hv. reflexivity.
Qed.

(** X14.  A write through [BoxedArray::SetAt] at an index inside the
    array returns [S_OK], stores the unboxed value at that index and
    changes no other element nor the size; [GetAt] at the same index then
    returns the stored value boxed, and so does the next step of an
    iterator that stands at that index, an iterator created before the
    write included, since it reads the array of its [BoxedArray]. *)
Theorem BoxedArray_SetAt_then_GetAt
        (a : BoxedArray.BoxedArray T) (idxObj pValue : Object) (i : Z) (v : value T) :
  sized a ->
  BoxedArray.m_allowWrite a = true ->
  BoxedArray.to_ULONG64 h idxObj = Ok i ->
  (i < Z.of_nat (BoxedArray.m_arraySize a))%Z ->
  Unbox h T pValue = Ok v ->
  exists a' o,
    SetAt' a 1 [idxObj] pValue = (a', Ok S_OK) /\
    sized a' /\
    BoxedArray.m_arraySize a' = BoxedArray.m_arraySize a /\
    nth_error (BoxedArray.m_spArray a') (Z.to_nat i) = Some v /\
    (forall j, j <> Z.to_nat i ->
               nth_error (BoxedArray.m_spArray a') j
               = nth_error (BoxedArray.m_spArray a) j) /\
    Box junk T v = Ok o /\
    GetAt' a' 1 [idxObj] = Ok (S_OK, Some o) /\
    snd (GetNext' a' {| BoxedArray.it_arraySize := BoxedArray.m_arraySize a;
                        BoxedArray.m_pos := Z.to_nat i |} 0)
    = Ok (S_OK, {| ppObject := Some o; ppIndexers := [] |}).
Proof.
  intros Hs Hw Hi Hlt Hv.
  pose proof (to_ULONG64_range idxObj i Hi) as Hr.
  destruct (Box_total junk T v) as [o Ho].
  eexists. exists o. split; [apply (SetAt_in_bounds a idxObj pValue i v Hw Hi Hlt Hv)|].
  assert (Hin : Z.to_nat i < List.length (BoxedArray.m_spArray a))
    by (rewrite Hs; lia).
  pose proof (array_set_same (Z.to_nat i) v (BoxedArray.m_spArray a) Hin) as Hsame.
  repeat match goal with |- _ /\ _ => split end.
  - unfold sized. cbn. rewrite array_set_length. exact Hs.
  - reflexivity.
  - exact Hsame.
  - intros j Hj. cbn. apply array_set_other. exact Hj.
  - exact Ho.
  - unfold BoxedArray.GetAt, BoxedArray.GetAt_try.
    cbn [Nat.eqb negb pack_at nth_error bind]. rewrite Hi. cbn [bind].
    cbn [BoxedArray.m_arraySize BoxedArray.m_spArray].
    destruct (Z.leb_spec (Z.of_nat (BoxedArray.m_arraySize a)) i); [lia|].
    unfold BoxedArray.array_at. rewrite Hsame. cbn [bind]. rewrite Ho. reflexivity.
  - unfold BoxedArray.GetNext, BoxedArray.GetNext_try.
    cbn [Nat.eqb negb andb BoxedArray.it_arraySize BoxedArray.m_pos
         BoxedArray.m_spArray].
    destruct (Nat.leb_spec (BoxedArray.m_arraySize a) (Z.to_nat i)); [lia|].
    unfold BoxedArray.array_at. rewrite Hsame. cbn [bind]. rewrite Ho. reflexivity.
Qed.

(** X15.  A call of [BoxedArray::SetAt] that does not return [S_OK]
    leaves the array as it was; such are a call with an index at or past
    the size, which returns [E_BOUNDS], a call with a number of indices
    other than one, which returns [E_INVALIDARG], and a call with a value
    that does not unbox to the element type, which returns the status of
    the exception the unboxing raised. *)
Theorem BoxedArray_SetAt_failure_writes_nothing
        (a : BoxedArray.BoxedArray T) (indexerCount : nat) (ppIndexers : list Object)
        (pValue : Object) :
  (snd (SetAt' a indexerCount ppIndexers pValue) <> Ok S_OK ->
   fst (SetAt' a indexerCount ppIndexers pValue) = a) /\
  (BoxedArray.m_allowWrite a = true ->
   (indexerCount <> 1 ->
    SetAt' a indexerCount ppIndexers pValue = (a, Ok E_INVALIDARG)) /\
   (forall idxObj i,
       BoxedArray.to_ULONG64 h idxObj = Ok i ->
       (Z.of_nat (BoxedArray.m_arraySize a) <= i)%Z ->
       SetAt' a 1 [idxObj] pValue = (a, Ok E_BOUNDS)) /\
   (forall idxObj i e,
       BoxedArray.to_ULONG64 h idxObj = Ok i ->
       (i < Z.of_nat (BoxedArray.m_arraySize a))%Z ->
       Unbox h T pValue = Throw e ->
       SetAt' a 1 [idxObj] pValue = (a, Ok (status_of e)))).
Proof.
  split.
  - unfold BoxedArray.SetAt.
    destruct (BoxedArray.m_allowWrite a); cbn [negb]; [|reflexivity].
    destruct (BoxedArray.SetAt_try h T a indexerCount ppIndexers pValue)
      as [[a' hr]|e|] eqn:Htry; cbn [fst snd]; try reflexivity.
    intros Hne. unfold BoxedArray.SetAt_try in Htry.
    destruct (negb (Nat.eqb indexerCount 1)); [injection Htry as <- _; reflexivity|].
    destruct (pack_at ppIndexers 0) as [idxObj|e|]; cbn [bind] in Htry;
      try discriminate.
    destruct (BoxedArray.to_ULONG64 h idxObj) as [i|e|]; cbn [bind] in Htry;
      try discriminate.
    destruct (Z.of_nat (BoxedArray.m_arraySize a) <=? i)%Z; [discriminate|].
    destruct (Unbox h T pValue) as [v|e|]; cbn [bind] in Htry; try discriminate.
    injection Htry as _ <-. contradiction Hne. reflexivity.
  - intros Hw. split; [|split].
    + intros Hn. unfold BoxedArray.SetAt, BoxedArray.SetAt_try. rewrite Hw.
      destruct (Nat.eqb_spec indexerCount 1); [contradiction | reflexivity].
    + intros idxObj i Hi Hge. unfold BoxedArray.SetAt, BoxedArray.SetAt_try.
      rewrite Hw. cbn [Nat.eqb negb pack_at nth_error bind]. rewrite Hi. cbn [bind].
      destruct (Z.leb_spec (Z.of_nat (BoxedArray.m_arraySize a)) i); [|lia].
      rewrite ReturnResult_status. reflexivity.
    + intros idxObj i e Hi Hlt He. unfold BoxedArray.SetAt, BoxedArray.SetAt_try.
      rewrite Hw. cbn [Nat.eqb negb pack_at nth_error bind]. rewrite Hi. cbn [bind].
      destruct (Z.leb_spec (Z.of_nat (BoxedArray.m_arraySize a)) i); [lia|].
      rewrite He. cbn [bind]. rewrite ReturnResult_status. reflexivity.
Qed.

Local Abbreviation elements :=
  (logical_sequence junk (fun x : value T => Ok x) (Box junk T)).

Lemma elements_total (items : list (value T)) (index dimensions : nat) :
  exists outs, elements items index dimensions = Some outs.
Proof.
  revert index. induction items as [|x items IH]; intros index.
  - exists []. reflexivity.
  - destruct (Box_total junk T x) as [o Ho]. destruct (IH (S index)) as [outs Houts].
    eexists. cbn [logical_sequence bind]. rewrite Ho, Houts. reflexivity.
Qed.

Lemma BoxedArray_GetNext_produces (a : BoxedArray.BoxedArray T) (it : BoxedArray.Iterator)
      (dimensions : nat) (x : value T) (o : Object) :
  dimensions <= 1 ->
  BoxedArray.m_pos it < BoxedArray.it_arraySize it ->
  nth_error (BoxedArray.m_spArray a) (BoxedArray.m_pos it) = Some x ->
  Box junk T x = Ok o ->
  GetNext' a it dimensions
  = ({| BoxedArray.it_arraySize := BoxedArray.it_arraySize it;
        BoxedArray.m_pos := BoxedArray.m_pos it + 1 |},
     Ok (S_OK, produced junk o (BoxedArray.m_pos it) dimensions)).
Proof.
  intros Hd Hlt Hx Ho. unfold BoxedArray.GetNext, BoxedArray.GetNext_try.
  assert (Hdim : negb (Nat.eqb dimensions 0) && negb (Nat.eqb dimensions 1) = false)
    by (destruct dimensions as [|[|d]]; try reflexivity; lia).
  rewrite Hdim.
  destruct (Nat.leb_spec (BoxedArray.it_arraySize it) (BoxedArray.m_pos it)); [lia|].
  unfold BoxedArray.array_at. rewrite Hx. cbn [bind]. rewrite Ho. cbn [bind].
  unfold produced.
  destruct (Nat.eqb dimensions 1); [|reflexivity].
  cbn [Box]. unfold BoxObjectIntrinsic_Box, CreateIntrinsicObject, FillVariant.
  cbn [vt raw VariantType VARTYPE_bits bits]. change (CheckHr S_OK) with (Ok tt).
  cbn [bind]. rewrite store_low_mod by reflexivity.
  unfold object_bits. cbn [bits].
  rewrite Z.mod_mod by (change (2 ^ 64)%Z with 18446744073709551616%Z; lia).
  reflexivity.
Qed.

Lemma BoxedArray_drain_rest (a : BoxedArray.BoxedArray T) (dimensions : nat)
      (rest : list (value T)) :
  forall it fuel outs,
    dimensions <= 1 ->
    sized a ->
    BoxedArray.it_arraySize it = BoxedArray.m_arraySize a ->
    BoxedArray.m_pos it <= BoxedArray.m_arraySize a ->
    skipn (BoxedArray.m_pos it) (BoxedArray.m_spArray a) = rest ->
    elements rest (BoxedArray.m_pos it) dimensions = Some outs ->
    List.length rest < fuel ->
    drain' fuel a it dimensions = Some (outs, Ok E_BOUNDS).
Proof.
  induction rest as [|x rest IH]; intros it fuel outs Hd Hs Hsz Hle Hskip Hseq Hfuel.
  - destruct fuel as [|fuel]; [simpl in Hfuel; lia|].
    injection Hseq as <-.
    pose proof (length_skipn (BoxedArray.m_pos it) (BoxedArray.m_spArray a)) as Hk.
    rewrite Hskip, Hs in Hk. simpl in Hk.
    cbn [BoxedArray.drain]. unfold BoxedArray.GetNext, BoxedArray.GetNext_try.
    assert (Hdim : negb (Nat.eqb dimensions 0) && negb (Nat.eqb dimensions 1) = false)
      by (destruct dimensions as [|[|d]]; try reflexivity; lia).
    rewrite Hdim.
    destruct (Nat.leb_spec (BoxedArray.it_arraySize it) (BoxedArray.m_pos it)); [|lia].
    reflexivity.
  - destruct fuel as [|fuel]; [simpl in Hfuel; lia|].
    pose proof (length_skipn (BoxedArray.m_pos it) (BoxedArray.m_spArray a)) as Hk.
    rewrite Hskip, Hs in Hk. simpl in Hk.
    destruct (skipn_cons_nth _ _ _ x rest Hskip) as [Hx Hskip'].
    cbn [logical_sequence bind] in Hseq.
    destruct (Box junk T x) as [o|e|] eqn:Ho; try discriminate.
    destruct (elements rest (S (BoxedArray.m_pos it)) dimensions) as [outs'|] eqn:Hrest;
      try discriminate.
    injection Hseq as <-.
    cbn [BoxedArray.drain].
    rewrite (BoxedArray_GetNext_produces a it dimensions x o Hd ltac:(lia) Hx Ho).
    change (S_OK =? S_OK)%Z with true. cbv iota.
    rewrite (IH _ fuel outs' Hd Hs); try reflexivity.
    + cbn [BoxedArray.it_arraySize]. exact Hsz.
    + cbn [BoxedArray.m_pos]. lia.
    + cbn [BoxedArray.m_pos]. rewrite Nat.add_1_r. exact Hskip'.
    + cbn [BoxedArray.m_pos]. rewrite Nat.add_1_r. exact Hrest.
    + simpl in Hfuel. lia.
Qed.

(** X16.  The iterator of a [BoxedArray], asked for no index or for one,
    hands out every element of the array in order, boxed, each with its
    position as the index when one is asked for, and then returns
    [E_BOUNDS]; [size + 1] calls are enough.  [Reset] puts an iterator
    back at the first element, wherever it stands, so the same sequence
    is handed out again. *)
Theorem BoxedArray_iterator_hands_out_the_array
        (a : BoxedArray.BoxedArray T) (dimensions : nat) :
  sized a ->
  dimensions <= 1 ->
  exists outs,
    elements (BoxedArray.m_spArray a) 0 dimensions = Some outs /\
    List.length outs = BoxedArray.m_arraySize a /\
    drain' (S (BoxedArray.m_arraySize a)) a (snd (BoxedArray.GetIterator T a)) dimensions
    = Some (outs, Ok E_BOUNDS) /\
    forall pos,
      drain' (S (BoxedArray.m_arraySize a)) a
        (fst (BoxedArray.Reset {| BoxedArray.it_arraySize := BoxedArray.m_arraySize a;
                                  BoxedArray.m_pos := pos |})) dimensions
      = Some (outs, Ok E_BOUNDS).
Proof.
  intros Hs Hd.
  destruct (elements_total (BoxedArray.m_spArray a) 0 dimensions) as [outs Houts].
  exists outs. split; [exact Houts|].
  assert (Hdrain : drain' (S (BoxedArray.m_arraySize a)) a
                     {| BoxedArray.it_arraySize := BoxedArray.m_arraySize a;
                        BoxedArray.m_pos := 0 |} dimensions
                   = Some (outs, Ok E_BOUNDS)).
  { apply (BoxedArray_drain_rest a dimensions (BoxedArray.m_spArray a)); cbn; try lia;
      try assumption; try reflexivity.
    rewrite Hs. lia. }
  split; [|split; [exact Hdrain | intros pos; exact Hdrain]].
  clear Hdrain. rewrite <- Hs.
  revert Houts. generalize 0 as index. revert outs.
  induction (BoxedArray.m_spArray a) as [|x l IH]; intros outs index Houts.
  - injection Houts as <-. reflexivity.
  - cbn [logical_sequence bind] in Houts.
    destruct (Box junk T x); try discriminate.
    destruct (elements l (S index) dimensions) as [outs'|] eqn:E; try discriminate.
    injection Houts as <-. simpl. f_equal. apply (IH outs' (S index) E).
Qed.

End Arrays.

Lemma BoxedArray_GetAt_checks_the_index_witness :
  BoxedArray.to_ULONG64 example_host (index_object 3) = Ok 3 /\
  BoxedArray.GetAt example_host 0 (TIntrinsic c_int)
    (BoxedArray.construct (TIntrinsic c_int) [10; 20; 30] 3) 1 [index_object 3]
  = Ok (E_BOUNDS, attached_error example_host E_BOUNDS out_of_bounds true).
Proof.
  split; [reflexivity|].
  apply (proj1 (BoxedArray_GetAt_checks_the_index example_host 0 (TIntrinsic c_int)
                  (BoxedArray.construct (TIntrinsic c_int) [10; 20; 30] 3)
                  (index_object 3) 3 eq_refl)).
  simpl. lia.
Defined.

Lemma BoxedArray_SetAt_then_GetAt_witness :
  (sized (BoxedArray.construct (TIntrinsic c_int) [10; 20; 30] 3) /\
   BoxedArray.m_allowWrite (BoxedArray.construct (TIntrinsic c_int) [10; 20; 30] 3) = true /\
   BoxedArray.to_ULONG64 example_host (index_object 1) = Ok 1 /\
   1 < Z.of_nat (BoxedArray.m_arraySize
                   (BoxedArray.construct (TIntrinsic c_int) [10; 20; 30] 3)) /\
   Unbox example_host (TIntrinsic c_int) (boxed_int 99) = Ok 99) /\
  exists a' o,
    BoxedArray.SetAt example_host (TIntrinsic c_int)
      (BoxedArray.construct (TIntrinsic c_int) [10; 20; 30] 3) 1 [index_object 1]
      (boxed_int 99) = (a', Ok S_OK) /\
    BoxedArray.m_spArray a' = [10; 99; 30] /\
    BoxedArray.GetAt example_host 0 (TIntrinsic c_int) a' 1 [index_object 1]
    = Ok (S_OK, Some o) /\
    o = boxed_int 99.
Proof.
  split; [repeat split; simpl; lia|].
  destruct (BoxedArray_SetAt_then_GetAt example_host 0 (TIntrinsic c_int)
              (BoxedArray.construct (TIntrinsic c_int) [10; 20; 30] 3)
              (index_object 1) (boxed_int 99) 1 99
              eq_refl eq_refl eq_refl eq_refl eq_refl)
    as (a' & o & Hset & _ & _ & _ & _ & Hbox & Hget & _).
  exists a', o. split; [exact Hset|].
  vm_compute in Hset. injection Hset as <-.
  vm_compute in Hbox. injection Hbox as <-.
  split; [reflexivity|]. split; [exact Hget | reflexivity].
Defined.

Lemma BoxedArray_SetAt_failure_writes_nothing_witness :
  (BoxedArray.m_allowWrite (BoxedArray.construct (TIntrinsic c_int) [10; 20; 30] 3) = true /\
   BoxedArray.to_ULONG64 example_host (index_object 3) = Ok 3 /\
   Z.of_nat (BoxedArray.m_arraySize
               (BoxedArray.construct (TIntrinsic c_int) [10; 20; 30] 3)) <= 3 /\
   BoxedArray.to_ULONG64 example_host (index_object 1) = Ok 1 /\
   1 < Z.of_nat (BoxedArray.m_arraySize
                   (BoxedArray.construct (TIntrinsic c_int) [10; 20; 30] 3)) /\
   Unbox example_host (TIntrinsic c_int) NoValueObject
   = Throw (std_invalid_argument EmptyString)) /\
  BoxedArray.SetAt example_host (TIntrinsic c_int)
    (BoxedArray.construct (TIntrinsic c_int) [10; 20; 30] 3) 1 [index_object 3]
    (boxed_int 99)
  = (BoxedArray.construct (TIntrinsic c_int) [10; 20; 30] 3, Ok E_BOUNDS) /\
  BoxedArray.SetAt example_host (TIntrinsic c_int)
    (BoxedArray.construct (TIntrinsic c_int) [10; 20; 30] 3) 1 [index_object 1]
    NoValueObject
  = (BoxedArray.construct (TIntrinsic c_int) [10; 20; 30] 3, Ok E_INVALIDARG).
Proof.
  split; [repeat split; simpl; lia|].
  split.
  - destruct (proj2 (BoxedArray_SetAt_failure_writes_nothing example_host
                       (TIntrinsic c_int)
                       (BoxedArray.construct (TIntrinsic c_int) [10; 20; 30] 3)
                       1 [index_object 3] (boxed_int 99)) eq_refl)
      as (_ & Hbounds & _).
    apply (Hbounds (index_object 3) 3 eq_refl). simpl. lia.
  - destruct (proj2 (BoxedArray_SetAt_failure_writes_nothing example_host
                       (TIntrinsic c_int)
                       (BoxedArray.construct (TIntrinsic c_int) [10; 20; 30] 3)
                       1 [index_object 1] NoValueObject) eq_refl)
      as (_ & _ & Hunbox).
    apply (Hunbox (index_object 1) 1 (std_invalid_argument EmptyString) eq_refl);
      [simpl; lia | reflexivity].
Defined.

Lemma BoxedArray_iterator_hands_out_the_array_witness :
  (sized (BoxedArray.construct (TIntrinsic c_int) [10; 20; 30] 3) /\ (1 <= 1)%nat) /\
  exists outs,
    List.length outs = 3%nat /\
    BoxedArray.drain example_host 0 (TIntrinsic c_int) 4
      (BoxedArray.construct (TIntrinsic c_int) [10; 20; 30] 3)
      (snd (BoxedArray.GetIterator (TIntrinsic c_int)
              (BoxedArray.construct (TIntrinsic c_int) [10; 20; 30] 3))) 1
    = Some (outs, Ok E_BOUNDS).
Proof.
  split; [split; [reflexivity | lia]|].
  destruct (BoxedArray_iterator_hands_out_the_array example_host 0 (TIntrinsic c_int)
              (BoxedArray.construct (TIntrinsic c_int) [10; 20; 30] 3) 1
              eq_refl (le_n 1))
    as (outs & _ & Hlen & Hdrain & _).
  exists outs. split; [exact Hlen | exact Hdrain].
Defined.

(** ** Bound iterators: dimensions and restarts *)

Section BoundIterators.

Local Open Scope nat_scope.

Variables T V : Type.
Variable h : Host.
Variable junk : Z.
Variable m_itemProjector : T -> result V.
Variable BoxObject : V -> result Object.

(** X17.  [BoundIterator::GetNext] does not act on the answer of
    [CheckDimensions]: asked for two or more indices, which the linear
    index does not support, a step on a live iterator that stands at an
    element still returns [S_OK], hands out the element, moves on, and
    leaves every index slot null.  The iterator of a [BoxedArray] refuses
    the same request with [E_INVALIDARG] and does not move. *)
Theorem BoundIterator_accepts_unsupported_dimensions
        (w : World T) (l : list T) (it : BoundIterator) (c dimensions : nat)
        (x : T) (objVal : Object)
        (E : NativeType) (a : BoxedArray.BoxedArray E) (ait : BoxedArray.Iterator) :
  2 <= dimensions ->
  positioned w l it c ->
  nth_error l c = Some x ->
  (val <- m_itemProjector x ;; BoxObject val) = Ok objVal ->
  CheckDimensions dimensions = false /\
  GetNext T V h junk m_itemProjector BoxObject w it dimensions
  = (set_m_itCur it (c + 1),
     Ok (S_OK, {| ppObject := Some objVal; ppIndexers := repeat None dimensions |})) /\
  BoxedArray.GetNext h junk E a ait dimensions
  = (ait, Ok (E_INVALIDARG, cleared dimensions)).
Proof.
  intros Hd Hp Hx Hbox.
  assert (H0 : Nat.eqb dimensions 0 = false) by (apply Nat.eqb_neq; lia).
  assert (H1 : Nat.eqb dimensions 1 = false) by (apply Nat.eqb_neq; lia).
  split; [unfold CheckDimensions; rewrite H0, H1; reflexivity|]. split.
  - destruct (GetNext_produces T V h junk m_itemProjector BoxObject w l it c
                dimensions x objVal Hp Hx Hbox) as [Hstep _].
    rewrite Hstep. unfold produced. rewrite H1. reflexivity.
  - unfold BoxedArray.GetNext. rewrite H0, H1. reflexivity.
Qed.

End BoundIterators.

Lemma BoundIterator_accepts_unsupported_dimensions_witness :
  ((2 <= 2)%nat /\
   positioned example_world [10; 20; 30] example_iterator 0 /\
   nth_error [10; 20; 30] 0 = Some 10 /\
   (val <- example_itemProjector 10 ;; example_BoxObject val) = Ok (boxed_int 10)) /\
  GetNext Z Z example_host 0 example_itemProjector example_BoxObject
    example_world example_iterator 2
  = (set_m_itCur example_iterator 1,
     Ok (S_OK, {| ppObject := Some (boxed_int 10); ppIndexers := [None; None] |})).
Proof.
  assert (Hp : positioned example_world [10; 20; 30] example_iterator 0).
  { unfold positioned. simpl. repeat split; try reflexivity; lia. }
  split; [repeat split; try reflexivity; try lia; apply Hp|].
  exact (proj1 (proj2 (BoundIterator_accepts_unsupported_dimensions Z Z example_host 0
                         example_itemProjector example_BoxObject
                         example_world [10; 20; 30] example_iterator 0 2 10 (boxed_int 10)
                         (TIntrinsic c_int)
                         (BoxedArray.construct (TIntrinsic c_int) [10; 20; 30] 3)
                         {| BoxedArray.it_arraySize := 3; BoxedArray.m_pos := 0 |}
                         (le_n 2) Hp eq_refl eq_refl))).
Defined.

(** ** Link references that move *)

(** X19.  Only the object that holds the block clears its flag.  After a
    move construction the destructor of the moved-from [SpotLinkReference]
    changes nothing, and the destructor of the new object detaches the
    adapters of the block.  After a move assignment the block the target
    held before is released without its flag being cleared: once both
    objects are destroyed, the block that was moved in is detached, and an
    adapter that captured the earlier block still passes
    [ThrowIfDetached]. *)
Theorem SpotLinkReference_moves
        (mem : SpotLink.Blocks) (this src : SpotLink.SpotLinkReference)
        (a b : DataModelReference) :
  SpotLink.m_dataRef this = Some a ->
  SpotLink.m_dataRef src = Some b ->
  a <> b ->
  TypeIsLive (mem a) = true ->
  (let '(dst, src') := SpotLink.move_construct src in
   (forall r, SpotLink.destroy src' mem r = mem r) /\
   SpotLink.ThrowIfDetached (SpotLink.destroy dst mem) b = Throw object_detached_default) /\
  (let '(this', src') := SpotLink.move_assign this src in
   let mem' := SpotLink.destroy src' (SpotLink.destroy this' mem) in
   SpotLink.ThrowIfDetached mem' b = Throw object_detached_default /\
   SpotLink.ThrowIfDetached mem' a = Ok tt).
Proof.
  intros Ha Hb Hab Hlive. split.
  - cbn. split; [reflexivity|].
    unfold SpotLink.ThrowIfDetached, ThrowIfDetached, SpotLink.destroy. cbn.
    rewrite Hb. rewrite Nat.eqb_refl. reflexivity.
  - cbn. unfold SpotLink.ThrowIfDetached, ThrowIfDetached, SpotLink.destroy. cbn.
    rewrite Hb. rewrite Nat.eqb_refl. split; [reflexivity|].
    destruct (Nat.eqb_spec a b); [contradiction|]. rewrite Hlive. reflexivity.
Qed.

Lemma SpotLinkReference_moves_witness :
  let mem := fst (SpotLink.construct 1%nat (fst (SpotLink.construct 0%nat
                    (fun _ => {| TypeIsLive := false |})))) in
  let this := {| SpotLink.m_dataRef := Some 0%nat |} in
  let src := {| SpotLink.m_dataRef := Some 1%nat |} in
  let mem' := SpotLink.destroy (snd (SpotLink.move_assign this src))
                (SpotLink.destroy (fst (SpotLink.move_assign this src)) mem) in
  (SpotLink.m_dataRef this = Some 0%nat /\ SpotLink.m_dataRef src = Some 1%nat /\
   0%nat <> 1%nat /\ TypeIsLive (mem 0%nat) = true) /\
  SpotLink.ThrowIfDetached mem' 1%nat = Throw object_detached_default /\
  SpotLink.ThrowIfDetached mem' 0%nat = Ok tt.
Proof.
  cbv zeta.
  split; [repeat split; try reflexivity; discriminate|].
  exact (proj2 (SpotLinkReference_moves
                  (fst (SpotLink.construct 1%nat (fst (SpotLink.construct 0%nat
                          (fun _ => {| TypeIsLive := false |})))))
                  {| SpotLink.m_dataRef := Some 0%nat |}
                  {| SpotLink.m_dataRef := Some 1%nat |}
                  0%nat 1%nat eq_refl eq_refl ltac:(discriminate) eq_refl)).
Defined.

(** ** Boxed interfaces *)

Section BoxedInterfaces.

Variable GetIntrinsicValue : Object -> result (HRESULT * VARIANT).
Variable junk : Z.

Lemma ObjectKind_injective (I I' : Interfaces.Interface) :
  Interfaces.ModelObjectKind_eqb (Interfaces.ObjectKind I) (Interfaces.ObjectKind I') = true ->
  I = I'.
Proof. destruct I, I'; simpl; intros H; try reflexivity; discriminate H. Qed.

(** X20.  An object does not unbox as an interface it was not boxed as:
    unboxing the boxed form of an interface pointer as any of the other
    interfaces, and unboxing a boxed scalar as any interface, raise
    [std::invalid_argument] on the kind of the object, before the host is
    asked for the value.  When the host hands back the variant an object
    was created from, an interface pointer unboxes as its own interface
    to the same pointer. *)
Theorem boxed_interfaces_are_checked_by_kind
        (I I' : Interfaces.Interface) (interfacePointer : Z) :
  (I <> I' ->
   (o <- Interfaces.BoxObjectInterface_Box junk I interfacePointer ;;
    Interfaces.BoxObjectInterface_Unbox GetIntrinsicValue I' o)
   = Throw (std_invalid_argument "Illegal object type")) /\
  (forall t x,
      (o <- Box junk (TIntrinsic t) x ;;
       Interfaces.BoxObjectInterface_Unbox GetIntrinsicValue I' o)
      = Throw (std_invalid_argument "Illegal object type")) /\
  ((forall kind v, GetIntrinsicValue (IntrinsicObject kind v) = Ok (S_OK, v)) ->
   0 <= interfacePointer < 2 ^ 64 ->
   (o <- Interfaces.BoxObjectInterface_Box junk I interfacePointer ;;
    Interfaces.BoxObjectInterface_Unbox GetIntrinsicValue I o)
   = Ok interfacePointer).
Proof.
  repeat match goal with |- _ /\ _ => split end.
  - intros Hne.
    unfold Interfaces.BoxObjectInterface_Box, Interfaces.BoxObjectInterface_Unbox,
      Interfaces.CheckType, CreateIntrinsicObject.
    change (CheckHr S_OK) with (Ok tt). cbn [bind GetKind].
    destruct (Interfaces.ModelObjectKind_eqb (Interfaces.ObjectKind I)
                (Interfaces.ObjectKind I')) eqn:E; [|reflexivity].
    apply ObjectKind_injective in E. contradiction.
  - intros t x. destruct (BoxObjectIntrinsic_Box_kind junk t x) as [v Hv].
    cbn [Box]. rewrite Hv.
    unfold Interfaces.BoxObjectInterface_Unbox, Interfaces.CheckType.
    cbn [bind GetKind]. change (CheckHr S_OK) with (Ok tt). cbn [bind].
    destruct I'; reflexivity.
  - intros Hhost Hp.
    unfold Interfaces.BoxObjectInterface_Box, Interfaces.BoxObjectInterface_Unbox,
      Interfaces.CheckType, Interfaces.ExtractInterface, CreateIntrinsicObject.
    change (CheckHr S_OK) with (Ok tt). cbn [bind GetKind].
    assert (Hk : Interfaces.ModelObjectKind_eqb (Interfaces.ObjectKind I)
                   (Interfaces.ObjectKind I) = true) by (destruct I; reflexivity).
    rewrite Hk. cbn [negb bind]. rewrite Hhost. cbn [bind vt raw VARTYPE_bits].
    change (CheckHr S_OK) with (Ok tt). cbn [bind VARTYPE_eqb negb].
    rewrite Z.mod_mod by (change (2 ^ 64) with 18446744073709551616; lia).
    rewrite store_low_mod by reflexivity.
    rewrite Z.mod_mod by (change (2 ^ 64) with 18446744073709551616; lia).
    rewrite Z.mod_small by exact Hp. reflexivity.
Qed.

End BoxedInterfaces.

Lemma boxed_interfaces_are_checked_by_kind_witness :
  (Interfaces.IModelMethod <> Interfaces.IModelKeyReference) /\
  (o <- Interfaces.BoxObjectInterface_Box 0 Interfaces.IModelMethod 4096 ;;
   Interfaces.BoxObjectInterface_Unbox
     (fun o => match o with
               | IntrinsicObject _ v => Ok (S_OK, v)
               | _ => Ok (E_FAIL, {| vt := VT_EMPTY; raw := 0 |})
               end)
     Interfaces.IModelKeyReference o)
  = Throw (std_invalid_argument "Illegal object type").
Proof.
  split; [discriminate|].
  apply (proj1 (boxed_interfaces_are_checked_by_kind
                  (fun o => match o with
                            | IntrinsicObject _ v => Ok (S_OK, v)
                            | _ => Ok (E_FAIL, {| vt := VT_EMPTY; raw := 0 |})
                            end)
                  0 Interfaces.IModelMethod Interfaces.IModelKeyReference 4096)).
  discriminate.
Defined.

(** ** Indexing a pointer *)

Section PointerIndexing.

Variable h : Host.
Variables DebugHostType TypeKind PointerKind : Type.
Variable TypePointer : TypeKind.
Variable PointerStandard : PointerKind.
Variable TypeKind_eqb : TypeKind -> TypeKind -> bool.
Variable PointerKind_eqb : PointerKind -> PointerKind -> bool.
Variable GetTypeInfo : Object -> result (HRESULT * option DebugHostType).
Variable GetTypeKind : DebugHostType -> HRESULT * TypeKind.
Variable GetPointerKind : DebugHostType -> HRESULT * PointerKind.
Variable GetBaseType : DebugHostType -> HRESULT * DebugHostType.
Variable GetSize : DebugHostType -> HRESULT * Z.
Variable CreateTypedObject : Z -> DebugHostType -> HRESULT * Object.

Local Abbreviation GetAt' :=
  (PointerIndexer.GetAt h DebugHostType TypeKind PointerKind TypePointer PointerStandard
     TypeKind_eqb PointerKind_eqb GetTypeInfo GetTypeKind GetPointerKind GetBaseType
     GetSize CreateTypedObject).

Lemma adjusted_pointer (p s i : Z) :
  (p + ((s mod 2 ^ 64) * (i mod 2 ^ 64)) mod 2 ^ 64) mod 2 ^ 64
  = (p + s * i) mod 2 ^ 64.
Proof.
  rewrite <- Z.mul_mod by (change (2 ^ 64) with 18446744073709551616; lia).
  rewrite Z.add_mod_idemp_r by (change (2 ^ 64) with 18446744073709551616; lia).
  reflexivity.
Qed.

(** X21.  Indexing a pointer is pointer arithmetic modulo 2^64 with a
    signed index: for a context object whose type is a standard pointer
    to a type of size [baseSize] and whose value is [vtPtr], and an index
    that reads as the signed 64-bit [llVal vtAdjustment], [GetAt] asks
    the host for the typed object of the base type at the address
    [ullVal vtPtr + baseSize * llVal vtAdjustment] reduced modulo 2^64,
    and returns it with [S_OK]; a negative index designates an address
    below the pointer. *)
Theorem pointer_indexing_is_pointer_arithmetic
        (pContextObject pIndex : Object) (spType spBaseType : DebugHostType)
        (tk : TypeKind) (pk : PointerKind) (baseSize : Z) (vtPtr vtAdjustment : VARIANT)
        (spObject : Object) :
  GetTypeInfo pContextObject = Ok (S_OK, Some spType) ->
  GetTypeKind spType = (S_OK, tk) ->
  GetPointerKind spType = (S_OK, pk) ->
  TypeKind_eqb tk TypePointer = true ->
  PointerKind_eqb pk PointerStandard = true ->
  GetBaseType spType = (S_OK, spBaseType) ->
  GetSize spBaseType = (S_OK, baseSize) ->
  GetIntrinsicValueAs h VT_UI8 pContextObject = Ok (S_OK, vtPtr) ->
  GetIntrinsicValueAs h VT_I8 pIndex = Ok (S_OK, vtAdjustment) ->
  CreateTypedObject
    ((PointerIndexer.ullVal vtPtr + baseSize * PointerIndexer.llVal vtAdjustment)
     mod 2 ^ 64) spBaseType = (S_OK, spObject) ->
  - 2 ^ 63 <= PointerIndexer.llVal vtAdjustment < 2 ^ 63 /\
  GetAt' pContextObject 1%nat [pIndex] = Ok (S_OK, Some spObject).
Proof.
  intros HT Htk Hpk Etk Epk Hb Hs Hp Hi Hc. split.
  - unfold PointerIndexer.llVal, value_of_bits. cbn [is_signed bits andb].
    change (2 ^ (64 - 1)) with (2 ^ 63).
    pose proof (Z.mod_pos_bound (raw vtAdjustment) (2 ^ 64) eq_refl) as Hr.
    destruct (Z.leb_spec (2 ^ 63) (raw vtAdjustment mod 2 ^ 64)); lia.
  - unfold PointerIndexer.GetAt, PointerIndexer.GetAt_try,
      PointerIndexer.GetAdjustedLocationAndBaseType.
    cbn [Nat.eqb negb pack_at nth_error bind].
    rewrite HT. cbn [bind]. change (CheckHr S_OK) with (Ok tt). cbn [bind].
    rewrite Htk, Hpk. cbn [bind]. rewrite Etk, Epk. cbn [negb orb].
    rewrite Hb, Hs. cbn [bind]. rewrite Hp. cbn [bind]. rewrite Hi. cbn [bind].
    rewrite adjusted_pointer. change (CheckHr S_OK) with (Ok tt). cbn [bind].
    rewrite Hc. reflexivity.
Qed.

(** X22.  What pointer indexing refuses: a number of indices other than
    one is an illegal operation, [E_ILLEGAL_METHOD_CALL], and a context
    object that has no type, or whose type is not a standard pointer, is
    an unexpected error, [E_UNEXPECTED]; both come with the error object
    of their message, and the host is not asked to create an object. *)
Theorem pointer_indexing_refusals
        (pContextObject : Object) (indexerCount : nat) (ppIndexers : list Object) :
  (indexerCount <> 1%nat ->
   GetAt' pContextObject indexerCount ppIndexers
   = Ok (E_ILLEGAL_METHOD_CALL,
         attached_error h E_ILLEGAL_METHOD_CALL
           (illegal_operation "Pointer indexing may only be single dimensional") true)) /\
  (forall pIndex,
      GetTypeInfo pContextObject = Ok (S_OK, None) ->
      GetAt' pContextObject 1%nat [pIndex]
      = Ok (E_UNEXPECTED, attached_error h E_UNEXPECTED unexpected_error_default true)) /\
  (forall pIndex spType tk pk,
      GetTypeInfo pContextObject = Ok (S_OK, Some spType) ->
      GetTypeKind spType = (S_OK, tk) ->
      GetPointerKind spType = (S_OK, pk) ->
      TypeKind_eqb tk TypePointer = false \/ PointerKind_eqb pk PointerStandard = false ->
      GetAt' pContextObject 1%nat [pIndex]
      = Ok (E_UNEXPECTED, attached_error h E_UNEXPECTED unexpected_error_default true)).
Proof.
  repeat match goal with |- _ /\ _ => split end.
  - intros Hn. unfold PointerIndexer.GetAt, PointerIndexer.GetAt_try.
    destruct (Nat.eqb_spec indexerCount 1); [contradiction|].
    cbn [negb]. apply ReturnResult_status.
  - intros pIndex HT.
    unfold PointerIndexer.GetAt, PointerIndexer.GetAt_try,
      PointerIndexer.GetAdjustedLocationAndBaseType.
    cbn [Nat.eqb negb pack_at nth_error bind].
    rewrite HT. cbn [bind]. change (CheckHr S_OK) with (Ok tt). cbn [bind].
    apply ReturnResult_status.
  - intros pIndex spType tk pk HT Htk Hpk Hbad.
    unfold PointerIndexer.GetAt, PointerIndexer.GetAt_try,
      PointerIndexer.GetAdjustedLocationAndBaseType.
    cbn [Nat.eqb negb pack_at nth_error bind].
    rewrite HT. cbn [bind]. change (CheckHr S_OK) with (Ok tt). cbn [bind].
    rewrite Htk, Hpk. cbn [bind].
    assert (Hc : negb (TypeKind_eqb tk TypePointer)
                 || negb (PointerKind_eqb pk PointerStandard) = true).
    { destruct Hbad as [-> | ->]; [reflexivity | apply orb_true_r]. }
    rewrite Hc. cbn [bind]. apply ReturnResult_status.
Qed.

End PointerIndexing.

Lemma pointer_indexing_is_pointer_arithmetic_witness :
  example_pointer_GetAt example_pointer 1%nat [example_minus_one]
  = Ok (S_OK, Some (SyntheticObject 4092)).
Proof.
  exact (proj2 (pointer_indexing_is_pointer_arithmetic example_host nat bool bool
                  true true Bool.eqb Bool.eqb
                  example_GetTypeInfo example_GetTypeKind example_GetPointerKind
                  example_GetBaseType example_GetSize example_CreateTypedObject
                  example_pointer example_minus_one 0%nat 1%nat true true 4
                  {| vt := VT_UI8; raw := 4096 |}
                  {| vt := VT_I8; raw := 18446744073709551615 |}
                  (SyntheticObject 4092)
                  eq_refl eq_refl eq_refl eq_refl eq_refl eq_refl eq_refl eq_refl
                  eq_refl eq_refl)).
Defined.

Lemma pointer_indexing_refusals_witness :
  (2 <> 1)%nat /\
  example_pointer_GetAt example_pointer 2%nat [example_minus_one; example_minus_one]
  = Ok (E_ILLEGAL_METHOD_CALL,
        attached_error example_host E_ILLEGAL_METHOD_CALL
          (illegal_operation "Pointer indexing may only be single dimensional") true).
Proof.
  split; [discriminate|].
  apply (proj1 (pointer_indexing_refusals example_host nat bool bool
                  true true Bool.eqb Bool.eqb
                  example_GetTypeInfo example_GetTypeKind example_GetPointerKind
                  example_GetBaseType example_GetSize example_CreateTypedObject
                  example_pointer 2%nat [example_minus_one; example_minus_one])).
  discriminate.
Defined.

(** ** The hash of a type signature *)

Lemma lxor_mod_pow2 (a b n : Z) :
  0 <= n -> Z.lxor a b mod 2 ^ n = Z.lxor (a mod 2 ^ n) (b mod 2 ^ n).
Proof.
  intros Hn. apply Z.bits_inj'. intros i Hi.
  rewrite Z.lxor_spec, !Z.testbit_mod_pow2, Z.lxor_spec by exact Hn.
  destruct (i <? n); reflexivity.
Qed.

Lemma GetSigHash_loop_range (pc : string) :
  forall hash, 0 <= hash < 2 ^ 64 -> 0 <= SigHash.GetSigHash_loop pc hash < 2 ^ 64.
Proof.
  induction pc as [|c rest IH]; intros hash Hh; cbn [SigHash.GetSigHash_loop].
  - exact Hh.
  - destruct (Z.of_N (Ascii.N_of_ascii c) =? 0); [exact Hh|].
    apply IH. apply Z.mod_pos_bound. reflexivity.
Qed.

Lemma GetSigHash_loop_low_bits (pc : string) :
  forall hash,
    seven_bit pc ->
    SigHash.GetSigHash_loop pc hash mod 2 ^ 32
    = SigHash.fnv1a_32_from (hash mod 2 ^ 32) (SigHash.bytes_of pc).
Proof.
  induction pc as [|c rest IH]; intros hash Hs.
  - reflexivity.
  - unfold seven_bit, SigHash.bytes_of in Hs. cbn [list_ascii_of_string map] in Hs.
    inversion Hs as [|b bs Hb Hrest]; subst b bs.
    cbn [SigHash.GetSigHash_loop]. unfold SigHash.bytes_of.
    cbn [list_ascii_of_string map SigHash.fnv1a_32_from].
    set (b := Z.of_N (Ascii.N_of_ascii c)) in *.
    destruct (Z.eqb_spec b 0) as [E|_]; [lia|].
    rewrite (IH _ Hrest). f_equal.
    assert (Hc : SigHash.char_to_ULONG64 c = b).
    { unfold SigHash.char_to_ULONG64. fold b.
      destruct (Z.leb_spec 128 b); [lia|].
      apply Z.mod_small. change (2 ^ 64) with 18446744073709551616. lia. }
    rewrite Hc.
    rewrite Z.mod_mod_divide by (exists (2 ^ 32); reflexivity).
    rewrite <- Z.mul_mod_idemp_l by (change (2 ^ 32) with 4294967296; lia).
    rewrite (lxor_mod_pow2 hash b 32) by lia.
    rewrite (Z.mod_small b) by (change (2 ^ 32) with 4294967296; lia).
    symmetry.
    rewrite <- Z.mul_mod_idemp_l by (change (2 ^ 32) with 4294967296; lia).
    rewrite (lxor_mod_pow2 (hash mod 2 ^ 32) b 32) by lia.
    rewrite Z.mod_mod by (change (2 ^ 32) with 4294967296; lia).
    rewrite (Z.mod_small b) by (change (2 ^ 32) with 4294967296; lia).
    reflexivity.
Qed.

(** X23.  [GetSigHash] is an unsigned 64-bit number whose low 32 bits are
    the 32-bit FNV-1a hash of the string: the function runs the FNV-1a
    recurrence with the 32-bit offset basis and prime in 64-bit arithmetic,
    over strings of 7-bit characters. *)
Theorem GetSigHash_low_bits_are_FNV1a_32 (pc : string) :
  seven_bit pc ->
  0 <= SigHash.GetSigHash pc < 2 ^ 64 /\
  SigHash.GetSigHash pc mod 2 ^ 32 = SigHash.fnv1a_32 (SigHash.bytes_of pc).
Proof.
  intros Hs. split.
  - apply GetSigHash_loop_range. split; [discriminate | reflexivity].
  - unfold SigHash.GetSigHash. rewrite (GetSigHash_loop_low_bits pc _ Hs). reflexivity.
Qed.

Lemma GetSigHash_low_bits_are_FNV1a_32_witness :
  seven_bit "a" /\
  SigHash.GetSigHash "a" mod 2 ^ 32 = 0xE40C292C /\
  SigHash.fnv1a_32 (SigHash.bytes_of "a") = 0xE40C292C.
Proof.
  assert (H : seven_bit "a").
  { unfold seven_bit. simpl. repeat constructor. }
  split; [exact H|].
  pose proof (proj2 (GetSigHash_low_bits_are_FNV1a_32 "a" H)) as E.
  split; [rewrite E|]; vm_compute; reflexivity.
Defined.

Lemma variadic_iff_trailing_pair_witness :
  HasVariableArguments [P_val TBool; P_size_t; P_ObjectPtr] = true.
Proof.
  apply (proj2 (variadic_iff_trailing_pair [P_val TBool; P_size_t; P_ObjectPtr])).
  exists [P_val TBool]. reflexivity.
Defined.

Lemma static_assert_iff_required_after_optional_witness :
  required_after_optional [P_val (TOptional TBool); P_val TBool].
Proof.
  apply (proj1 (static_assert_iff_required_after_optional
                  [P_val (TOptional TBool); P_val TBool])).
  reflexivity.
Defined.

(** ** Deconstruction and construction *)

Section Deconstruction.

Local Open Scope nat_scope.

Variable h : Host.
Variable junk : Z.

Lemma PackTuple_boxed (tuple : list Packing.Arg) :
  Packing.PackTuple junk tuple = boxed_all junk tuple.
Proof. apply (PackValues_boxed junk tuple). Qed.

(** X24.  The arguments a deconstructor hands out rebuild the object:
    [GetConstructorArguments], asked for as many arguments as the
    deconstructor's tuple has, returns [S_OK] and the boxed elements of
    the tuple, and [CreateInstance] of a constructor whose required
    parameters have the types of the tuple, called with those objects,
    runs the constructor on the same native values.  Asked for any other
    number of arguments, [GetConstructorArguments] returns
    [E_INVALIDARG] and leaves every slot null. *)
Theorem deconstructed_arguments_construct
        (m_deconstructableProjector : Object -> result (list Packing.Arg))
        (m_constructableProjector : list TupleElem -> result Object)
        (obj : Object) (native : list Packing.Arg) :
  m_deconstructableProjector obj = Ok native ->
  (Forall arg_round_trips native ->
   forallb (fun T => negb (is_optional T)) (map arg_type native) = true ->
   exists pack,
     Packing.BoundDeconstructable_GetConstructorArguments h junk
       m_deconstructableProjector obj (List.length native)
     = Ok (S_OK, map Some pack) /\
     Packing.BoundConstructable_CreateInstance h
       (slot_types (map arg_type native ++ map TOptional []) false)
       m_constructableProjector (List.length pack) pack
     = Some match m_constructableProjector (map arg_elem native) with
            | Ok instance => Ok (S_OK, Some instance)
            | Throw e => Ok (status_of e, None)
            | Undefined => Undefined
            end) /\
  (forall argCount,
      argCount <> List.length native ->
      Packing.BoundDeconstructable_GetConstructorArguments h junk
        m_deconstructableProjector obj argCount
      = Ok (E_INVALIDARG, repeat None argCount)).
Proof.
  intros Hproj. split.
  - intros Hall Hreq.
    destruct (boxed_all_total junk native) as (pack & Hp & Hl).
    exists pack. split.
    + unfold Packing.BoundDeconstructable_GetConstructorArguments.
      rewrite Hproj. cbn [bind]. rewrite Nat.eqb_refl. cbn [negb].
      rewrite PackTuple_boxed, Hp. reflexivity.
    + rewrite (CreateInstance_classified h _ _ _ _ _ _ Hreq).
      rewrite length_map, Hl.
      destruct (Nat.ltb_spec (List.length native) (List.length native)); [lia|].
      cbn [orb List.length map Nat.add]. rewrite Nat.add_0_r.
      destruct (Nat.ltb_spec (List.length native) (List.length native)); [lia|].
      cbn [andb]. unfold classified. cbn [map]. rewrite app_nil_r.
      rewrite <- Hl.
      pose proof (UnpackValues_of_packed h junk native pack [TObject] Hp Hall) as HU.
      cbn [List.length map] in HU. rewrite HU. reflexivity.
  - intros argCount Hne.
    unfold Packing.BoundDeconstructable_GetConstructorArguments.
    rewrite Hproj. cbn [bind].
    destruct (Nat.eqb_spec (List.length native) argCount) as [E|_];
      [symmetry in E; contradiction|].
    cbn [negb]. rewrite ReturnResult_status. reflexivity.
Qed.

End Deconstruction.

Lemma deconstructed_arguments_construct_witness :
  ((fun _ : Object => Ok [existT value (TIntrinsic c_int) 7; existT value TBool true])
     example_context
   = Ok [existT value (TIntrinsic c_int) 7; existT value TBool true] /\
   Forall arg_round_trips [existT value (TIntrinsic c_int) 7; existT value TBool true] /\
   forallb (fun T => negb (is_optional T))
     (map arg_type [existT value (TIntrinsic c_int) 7; existT value TBool true]) = true /\
   3%nat <> List.length [existT value (TIntrinsic c_int) 7; existT value TBool true]) /\
  (exists pack,
      Packing.BoundDeconstructable_GetConstructorArguments example_host 0
        (fun _ : Object => Ok [existT value (TIntrinsic c_int) 7; existT value TBool true])
        example_context 2
      = Ok (S_OK, map Some pack) /\
      Packing.BoundConstructable_CreateInstance example_host
        [P_val (TIntrinsic c_int); P_val TBool] example_call (List.length pack) pack
      = Some (Ok (S_OK, Some NoValueObject))) /\
  Packing.BoundDeconstructable_GetConstructorArguments example_host 0
    (fun _ : Object => Ok [existT value (TIntrinsic c_int) 7; existT value TBool true])
    example_context 3
  = Ok (E_INVALIDARG, [None; None; None]).
Proof.
  assert (H : Forall arg_round_trips
                [existT value (TIntrinsic c_int) 7; existT value TBool true]).
  { repeat constructor; unfold in_range, min_value, max_value; simpl; lia. }
  pose proof (deconstructed_arguments_construct example_host 0
                (fun _ : Object =>
                   Ok [existT value (TIntrinsic c_int) 7; existT value TBool true])
                example_call example_context
                [existT value (TIntrinsic c_int) 7; existT value TBool true]
                eq_refl) as [Hmain Hcount].
  split; [split; [reflexivity | split; [exact H | split; [reflexivity | simpl; lia]]]|].
  split.
  - destruct (Hmain H eq_refl) as (pack & Hargs & Hcreate).
    exists pack. split; [exact Hargs | exact Hcreate].
  - apply (Hcount 3%nat). simpl. lia.
Defined.

(** ** Indexing agrees with iteration *)

Section IndexingAndIteration.

Local Open Scope nat_scope.

Variables T V : Type.
Variable h : Host.
Variable junk : Z.
Variable m_genProjector : World T -> Object -> result nat.
Variable m_itemProjector : T -> result V.
Variable BoxObject : V -> result Object.

Lemma logical_sequence_nth (dimensions : nat) (items : list T) :
  forall index outs i x,
    logical_sequence junk m_itemProjector BoxObject items index dimensions = Some outs ->
    nth_error items i = Some x ->
    exists o,
      (val <- m_itemProjector x ;; BoxObject val) = Ok o /\
      nth_error outs i = Some (produced junk o (index + i) dimensions).
Proof.
  induction items as [|y items IH]; intros index outs i x Hseq Hx.
  - destruct i; discriminate Hx.
  - cbn [logical_sequence] in Hseq.
    destruct (val <- m_itemProjector y ;; BoxObject val) as [o|e|] eqn:Ho;
      try discriminate.
    destruct (logical_sequence junk m_itemProjector BoxObject items (S index) dimensions)
      as [outs'|] eqn:Hrest; try discriminate.
    injection Hseq as <-.
    destruct i as [|i].
    + injection Hx as <-. exists o. rewrite Nat.add_0_r. split; [exact Ho | reflexivity].
    + destruct (IH (S index) outs' i x Hrest Hx) as (o' & Ho' & Hn).
      exists o'. split; [exact Ho'|]. cbn [nth_error].
      replace (index + S i) with (S index + i) by lia. exact Hn.
Qed.

(** X25.  Indexing a bound sequence agrees with iterating it: on a live
    adapter whose elements all project and box, a drained traversal
    hands out the logical sequence, and [GetAt] with an index [i] inside
    the sequence returns [S_OK] and the very object that the traversal
    hands out at its step [i], whose index, when one is asked for, is
    [i]. *)
Theorem GetAt_agrees_with_the_traversal
        (linkReference : DataModelReference) (w : World T) (obj : Object)
        (gen : nat) (l : list T) (idx0 : Object) (vtIdx : VARIANT)
        (i dimensions fuel : nat) (outs : list GetNextOut) :
  live w linkReference = true ->
  m_genProjector w obj = Ok gen ->
  natives w gen = Some l ->
  logical_sequence junk m_itemProjector BoxObject l 0 dimensions = Some outs ->
  List.length l < fuel ->
  GetIntrinsicValueAs h VT_UI8 idx0 = Ok (S_OK, vtIdx) ->
  Z.to_nat (raw vtIdx mod 2 ^ 64) = i ->
  i < List.length l ->
  traverse T V h junk m_genProjector m_itemProjector BoxObject fuel linkReference w obj
    dimensions
  = Some (outs, Ok E_BOUNDS) /\
  exists o,
    nth_error outs i = Some (produced junk o i dimensions) /\
    GetAt T V h m_genProjector m_itemProjector BoxObject linkReference w obj 1 [idx0]
    = Ok (S_OK, Some o).
Proof.
  intros Hl Hgen Hnat Hseq Hfuel Hidx Hi Hlt. split.
  - unfold traverse, GetIterator, GetIterator_try.
    rewrite (ThrowIfDetached_live _ _ _ Hl). cbn [bind]. rewrite Hgen. cbn [bind].
    unfold distance. rewrite Hnat. cbn [bind].
    eapply drain_rest; [|reflexivity|exact Hseq|exact Hfuel].
    unfold positioned. simpl. repeat split; try assumption. lia.
  - destruct (nth_error l i) as [x|] eqn:Hx;
      [|apply nth_error_None in Hx; lia].
    destruct (logical_sequence_nth dimensions l 0 outs i x Hseq Hx) as (o & Ho & Hn).
    exists o. split; [exact Hn|].
    rewrite (GetAt_linear T V h m_genProjector m_itemProjector BoxObject
               linkReference w obj gen l idx0 vtIdx i Hl Hgen Hnat Hidx Hi).
    destruct (Nat.ltb_spec (List.length l) i); [lia|].
    rewrite Hx, Ho. reflexivity.
Qed.

End IndexingAndIteration.

Lemma GetAt_agrees_with_the_traversal_witness :
  (live example_world 0%nat = true /\
   example_genProjector example_world example_context = Ok 0%nat /\
   natives example_world 0%nat = Some [10; 20; 30] /\
   (List.length [10; 20; 30] < 4)%nat /\
   GetIntrinsicValueAs example_host VT_UI8 (index_object 2)
   = Ok (S_OK, {| vt := VT_UI8; raw := 2 |}) /\
   (2 < List.length [10; 20; 30])%nat) /\
  GetAt Z Z example_host example_genProjector example_itemProjector example_BoxObject
    0%nat example_world example_context 1 [index_object 2]
  = Ok (S_OK, Some (boxed_int 30)).
Proof.
  split; [repeat split; simpl; lia|].
  destruct (GetAt_agrees_with_the_traversal Z Z example_host 0 example_genProjector
              example_itemProjector example_BoxObject 0%nat example_world example_context
              0%nat [10; 20; 30] (index_object 2) {| vt := VT_UI8; raw := 2 |}
              2%nat 1%nat 4%nat
              [produced 0 (boxed_int 10) 0 1; produced 0 (boxed_int 20) 1 1;
               produced 0 (boxed_int 30) 2 1]
              eq_refl eq_refl eq_refl eq_refl ltac:(simpl; lia) eq_refl eq_refl
              ltac:(simpl; lia))
    as (_ & o & Hn & Hget).
  vm_compute in Hn. injection Hn as <-. exact Hget.
Defined.

(** ** The boundary and the conversion of the message *)

Lemma GetWideString_deterministic (h : Host) (s : string) :
  Platform.GetWideString (Platform.deterministic h) s = GetWideString h s.
Proof.
  unfold Platform.GetWideString, GetWideString, Platform.deterministic.
  cbn [Platform.first_pass Platform.resize Platform.second_pass negb].
  reflexivity.
Qed.

(** On a platform whose conversion is one function of the string, the
    boundary with the conversion spelled out is the boundary of the
    adapters above. *)
Lemma ReturnResult_deterministic (h : Host) (e : exception) (ppError : bool) :
  Platform.ReturnResult h (Platform.deterministic h) e ppError = ReturnResult h e ppError.
Proof.
  unfold Platform.ReturnResult, ReturnResult.
  destruct e; rewrite ?GetWideString_deterministic; reflexivity.
Qed.

Lemma ReturnResult_converts (h : Host) (c : Platform.Conversion) (e : exception)
      (ppError : bool) :
  Platform.ReturnResult h c e ppError
  = (errMsg <- converted c e ;;
     Ok (status_of e, attached h (status_of e) errMsg ppError)).
Proof.
  unfold Platform.ReturnResult, converted, attached.
  destruct e; cbn [message status_of];
    try (destruct (Platform.GetWideString c what) as [errMsg|e'|]; cbn [bind];
         try reflexivity);
    cbn [bind];
    match goal with
    | |- context [if ?b then _ else _] => destruct b
    end;
    try match goal with
    | |- context [CreateErrorObject ?a ?b ?d] => destruct (CreateErrorObject a b d)
    end; reflexivity.
Qed.

Lemma ReturnResult_converted (h : Host) (c : Platform.Conversion) (e : exception)
      (ppError : bool) (errMsg : wstring) :
  converted c e = Ok errMsg ->
  Platform.ReturnResult h c e ppError
  = Ok (status_of e, attached h (status_of e) errMsg ppError).
Proof. intros H. rewrite ReturnResult_converts, H. reflexivity. Qed.

Lemma ReturnResult_escapes (h : Host) (c : Platform.Conversion) (e e' : exception)
      (ppError : bool) :
  converted c e = Throw e' ->
  Platform.ReturnResult h c e ppError = Throw e'.
Proof. intros H. rewrite ReturnResult_converts, H. reflexivity. Qed.

Section Boundary.

Variables T V : Type.
Variable h : Host.
Variable c : Platform.Conversion.
Variable junk : Z.
Variable m_genProjector : World T -> Object -> result nat.
Variable m_itemProjector : T -> result V.
Variable BoxObject : V -> result Object.
Variable Dimensionality : nat.
Variable InvokeGetAt : World T -> Object -> nat -> list Object -> result Object.
Variable InvokeSetAt : World T -> Object -> nat -> list Object -> Object -> result Object.


End Boundary.



Section CallsAtTheBoundary.

Variable h : Host.
Variable c : Platform.Conversion.
Variable junk : Z.

(** X11.  [BoxedMethod::Call], [BoundConstructable::CreateInstance],
    [BoxedProperty::GetValue] and [BoxedProperty::SetValue] return the
    status of the exception their body raises whenever [ReturnResult] can
    convert its message ([Call] and [GetValue] with the error object).
    The exceptions that leave them are the ones [GetWideString] raises
    inside [ReturnResult], and no others. *)
Theorem bound_calls_throw_only_from_the_conversion :
  (forall TArgs m_func obj argCount args r,
      Packing.InvokeMethodFromPack h TArgs m_func obj argCount args = Some r ->
      Platform.BoxedMethod_Call h c TArgs m_func obj argCount args
      = Some match r with
             | Ok result => Ok (S_OK, Some result)
             | Throw e =>
                 errMsg <- converted c e ;;
                 Ok (status_of e, attached h (status_of e) errMsg true)
             | Undefined => Undefined
             end) /\
  (forall TArgs ctor argCount args r,
      Packing.LiteralInvokeFunctionFromPack h TArgs ctor argCount args = Some r ->
      Platform.BoundConstructable_CreateInstance h c TArgs ctor argCount args
      = Some match r with
             | Ok result => Ok (S_OK, Some result)
             | Throw e => errMsg <- converted c e ;; Ok (status_of e, None)
             | Undefined => Undefined
             end) /\
  (forall T getter obj,
      Platform.BoxedProperty_GetValue h c junk T getter obj
      = match (result <- getter obj ;; Box junk T result) with
        | Ok resultObject => Ok (S_OK, Some resultObject)
        | Throw e =>
            errMsg <- converted c e ;;
            Ok (status_of e, attached h (status_of e) errMsg true)
        | Undefined => Undefined
        end) /\
  (forall T (S : Type) (setter : S -> Object -> value T -> S * result unit) s obj v,
      Platform.BoxedProperty_SetValue h c T setter s obj v
      = match Unbox h T v with
        | Ok val =>
            (fst (setter s obj val),
             match snd (setter s obj val) with
             | Ok _ => Ok S_OK
             | Throw e => errMsg <- converted c e ;; Ok (status_of e)
             | Undefined => Undefined
             end)
        | Throw e => (s, errMsg <- converted c e ;; Ok (status_of e))
        | Undefined => (s, Undefined)
        end) /\
  (forall TArgs m_func obj argCount args e e',
      Packing.InvokeMethodFromPack h TArgs m_func obj argCount args = Some (Throw e) ->
      converted c e = Throw e' ->
      Platform.BoxedMethod_Call h c TArgs m_func obj argCount args = Some (Throw e')) /\
  (forall TArgs m_func obj argCount args r e',
      Platform.BoxedMethod_Call h c TArgs m_func obj argCount args = Some (Throw e') ->
      Packing.InvokeMethodFromPack h TArgs m_func obj argCount args = Some r ->
      exists e, r = Throw e /\ converted c e = Throw e').
Proof.
  repeat match goal with |- _ /\ _ => split end.
  - intros TArgs m_func obj argCount args r Hr. unfold Platform.BoxedMethod_Call.
    rewrite Hr. destruct r as [o|e|]; try reflexivity.
    rewrite ReturnResult_converts. reflexivity.
  - intros TArgs ctor argCount args r Hr.
    unfold Platform.BoundConstructable_CreateInstance.
    rewrite Hr. destruct r as [o|e|]; try reflexivity.
    rewrite ReturnResult_converts.
    destruct (converted c e); reflexivity.
  - intros T getter obj. unfold Platform.BoxedProperty_GetValue.
    destruct (result <- getter obj ;; Box junk T result) as [o|e|]; try reflexivity.
    apply ReturnResult_converts.
  - intros T S setter s obj v. unfold Platform.BoxedProperty_SetValue.
    destruct (Unbox h T v) as [val|e|]; try reflexivity.
    + destruct (setter s obj val) as [s' [u|e|]]; cbn [fst snd]; try reflexivity.
      rewrite ReturnResult_converts. destruct (converted c e); reflexivity.
    + rewrite ReturnResult_converts. destruct (converted c e); reflexivity.
  - intros TArgs m_func obj argCount args e e' Hr Hc.
    unfold Platform.BoxedMethod_Call. rewrite Hr.
    rewrite (ReturnResult_escapes h c e e' true Hc). reflexivity.
  - intros TArgs m_func obj argCount args r e' Hcall Hr.
    unfold Platform.BoxedMethod_Call in Hcall. rewrite Hr in Hcall.
    destruct r as [o|e|]; try discriminate Hcall.
    exists e. split; [reflexivity|].
    rewrite ReturnResult_converts in Hcall.
    destruct (converted c e) as [errMsg|e''|]; cbn [bind] in Hcall;
      try discriminate Hcall.
    injection Hcall as ->. reflexivity.
Qed.

End CallsAtTheBoundary.

Lemma bound_calls_throw_only_from_the_conversion_witness :
  (Packing.InvokeMethodFromPack example_host
     (classified [TObject] [TIntrinsic c_int] [] false)
     (fun _ => example_call) example_context 0 []
   = Some (Throw illegal_number_of_arguments) /\
   converted disagreeing illegal_number_of_arguments = Throw unexpected_error_default) /\
  Platform.BoxedMethod_Call example_host disagreeing
    (classified [TObject] [TIntrinsic c_int] [] false)
    (fun _ => example_call) example_context 0 []
  = Some (Throw unexpected_error_default).
Proof.
  split; [split; reflexivity|].
  destruct (bound_calls_throw_only_from_the_conversion example_host disagreeing 0)
    as (_ & _ & _ & _ & Hescapes & _).
  exact (Hescapes (classified [TObject] [TIntrinsic c_int] [] false)
           (fun _ => example_call) example_context 0%nat []
           illegal_number_of_arguments unexpected_error_default eq_refl eq_refl).
Defined.

(** ** Traversals of sequences that may be single-pass *)

(** ** Containers among the native sequences *)

(** Over containers with random-access iterators, and on a platform whose
    conversion is one function of the string, a step of the iterator that
    can also read single-pass sequences is the step of [Iteration]: same
    status, same out parameters, same iterator afterwards, and the memory
    is not touched. *)
Lemma GetNext_over_a_container (T V : Type) (h : Host) (junk : Z)
      (m_itemProjector : T -> result V) (BoxObject : V -> result Object)
      (w : World T) (it : BoundIterator) (dimensions : nat) :
  Generators.GetNext T V h (Platform.deterministic h) junk true m_itemProjector BoxObject
    (containers w) (over_a_container it) dimensions
  = (containers w,
     over_a_container (fst (GetNext T V h junk m_itemProjector BoxObject w it dimensions)),
     snd (GetNext T V h junk m_itemProjector BoxObject w it dimensions)).
Proof.
  unfold Generators.GetNext, GetNext, Generators.GetNext_try, GetNext_try.
  unfold Generators.ThrowIfDetached, ThrowIfDetached.
  cbn [containers over_a_container Generators.references Generators.m_linkReference
       Generators.m_thrown Generators.m_itCur Generators.m_itEnd Generators.m_itBegin
       Generators.m_generator Generators.Cursor_eqb].
  destruct (negb (TypeIsLive (references w (m_linkReference it)))); cbn [bind].
  { rewrite ReturnResult_deterministic. reflexivity. }
  destruct (m_thrown it) as [thrown|] eqn:Hthrown.
  { rewrite ReturnResult_deterministic. unfold Generators.set_m_thrown, set_m_thrown.
    cbn. reflexivity. }
  destruct (Nat.eqb (m_itCur it) (m_itEnd it)).
  { cbn. rewrite ?Hthrown. reflexivity. }
  unfold Generators.sequence_of, deref.
  change (Generators.natives (containers w) (m_generator it))
    with (match natives w (m_generator it) with
          | Some l => Some (Generators.Container l)
          | None => None
          end).
  destruct (natives w (m_generator it)) as [l|]; cbn [bind]; [|reflexivity].
  unfold Generators.deref.
  destruct (nth_error l (m_itCur it)) as [x|] eqn:Hx; cbn [bind]; [|reflexivity].
  destruct (m_itemProjector x) as [val|e|]; cbn [bind];
    [| rewrite ReturnResult_deterministic; reflexivity | reflexivity].
  destruct (BoxObject val) as [objVal|e|]; cbn [bind];
    [| rewrite ReturnResult_deterministic; reflexivity | reflexivity].
  unfold Generators.CreateIndexers, Generators.FillIndexers, Generators.offset.
  unfold CreateIndexers. rewrite Nat.sub_0_r.
  assert (Hlt : (m_itCur it < List.length l)%nat).
  { apply nth_error_Some. rewrite Hx. discriminate. }
  unfold Generators.increment.
  destruct (Nat.ltb_spec (m_itCur it) (List.length l)) as [_|Hge]; [|lia].
  destruct (Nat.eqb dimensions 1).
  - destruct (Box junk (TIntrinsic c_uint64)
                (Z.of_nat (m_itCur it - m_itBegin it))) as [idx|e|]; cbn [bind];
      [| rewrite ReturnResult_deterministic; reflexivity | reflexivity].
    unfold Generators.stepped, Generators.advanced, set_m_itCur. cbn.
    rewrite ?Hthrown. reflexivity.
  - cbn [bind]. unfold Generators.stepped, Generators.advanced, set_m_itCur. cbn.
    rewrite ?Hthrown. reflexivity.
Qed.

Section Regeneration.

Local Open Scope nat_scope.

Variables T V : Type.
Variable h : Host.
Variable c : Platform.Conversion.
Variable junk : Z.
Variable IsRandom : bool.
Variable m_genProjector : Generators.World T -> Object -> result (Generators.Held T).
Variable m_itemProjector : T -> result V.
Variable BoxObject : V -> result Object.

Local Abbreviation GetNext' :=
  (Generators.GetNext T V h c junk IsRandom m_itemProjector BoxObject).
Local Abbreviation drain' :=
  (Generators.drain T V h c junk IsRandom m_itemProjector BoxObject).
Local Abbreviation steps' :=
  (Generators.steps T V h c junk IsRandom m_itemProjector BoxObject).
Local Abbreviation GetIterator' := (Generators.GetIterator T h c m_genProjector).
Local Abbreviation traverse' :=
  (Generators.traverse T V h c junk IsRandom m_genProjector m_itemProjector BoxObject).
Local Abbreviation traverse_twice' :=
  (Generators.traverse_twice T V h c junk IsRandom m_genProjector m_itemProjector
     BoxObject).
Local Abbreviation traverse_both' :=
  (Generators.traverse_both T V h c junk IsRandom m_genProjector m_itemProjector
     BoxObject).
Local Abbreviation elements :=
  (sequence_handed_out junk IsRandom m_itemProjector BoxObject).

Lemma indexers_handed_out (objVal : Object) (n dimensions : nat) :
  (pIdxs <- Generators.CreateIndexers junk IsRandom (Generators.Position 0)
              (Generators.Position n) dimensions
              (repeat NullObject (Nat.max dimensions 1)) ;;
   Ok (Generators.FillIndexers IsRandom dimensions pIdxs (repeat None dimensions)))
  = Ok (ppIndexers (handed_out junk IsRandom objVal n dimensions)).
Proof.
  unfold Generators.CreateIndexers, Generators.FillIndexers, handed_out.
  destruct IsRandom; [|reflexivity].
  cbn [Generators.offset]. rewrite Nat.sub_0_r. apply indexers_produced.
Qed.

(** *** Containers *)

Lemma GetNext_container (w : Generators.World T) (it : Generators.BoundIterator T)
      (dimensions : nat) (l : list T) (n : nat) (x : T) (objVal : Object) :
  standing w it l n ->
  nth_error l n = Some x ->
  (val <- m_itemProjector x ;; BoxObject val) = Ok objVal ->
  GetNext' w it dimensions
  = (w, Generators.set_m_itCur it (Generators.Position (n + 1)),
     Ok (S_OK, handed_out junk IsRandom objVal n dimensions)) /\
  standing w (Generators.set_m_itCur it (Generators.Position (n + 1))) l (n + 1).
Proof.
  intros (Hl & Hn & Hs & Hb & He & Hc & Hle) Hx Hbox.
  assert (Hlt : n < List.length l) by (apply nth_error_Some; rewrite Hx; discriminate).
  split.
  - unfold Generators.GetNext, Generators.GetNext_try, Generators.ThrowIfDetached.
    rewrite Hl. cbn [negb bind]. rewrite Hn, Hc, He.
    cbn [Generators.Cursor_eqb].
    destruct (Nat.eqb_spec n (List.length l)) as [Heq|_]; [lia|].
    rewrite Hs. cbn [bind Generators.deref]. rewrite Hx. cbn [bind].
    destruct (m_itemProjector x) as [val|e|]; cbn [bind] in *; try discriminate.
    rewrite Hbox. cbn [bind]. rewrite Hb.
    pose proof (indexers_handed_out objVal n dimensions) as Hi.
    destruct (Generators.CreateIndexers junk IsRandom (Generators.Position 0)
                (Generators.Position n) dimensions
                (repeat NullObject (Nat.max dimensions 1)))
      as [pIdxs|e|]; cbn [bind] in *; try discriminate.
    injection Hi as Hi. rewrite Hi.
    cbn [Generators.increment].
    destruct (Nat.ltb_spec n (List.length l)); [|lia].
    cbn [bind Generators.stepped].
    unfold handed_out. destruct IsRandom; reflexivity.
  - unfold standing. cbn. repeat split; try assumption. lia.
Qed.

Lemma GetNext_container_end (w : Generators.World T) (it : Generators.BoundIterator T)
      (dimensions : nat) (l : list T) :
  standing w it l (List.length l) ->
  GetNext' w it dimensions = (w, it, Ok (E_BOUNDS, cleared dimensions)).
Proof.
  intros (Hl & Hn & Hs & Hb & He & Hc & Hle).
  unfold Generators.GetNext, Generators.GetNext_try, Generators.ThrowIfDetached.
  rewrite Hl. cbn [negb bind]. rewrite Hn, Hc, He.
  cbn [Generators.Cursor_eqb]. rewrite Nat.eqb_refl. reflexivity.
Qed.

(** Draining a container from position [n] hands out its elements from
    [n] on and changes nothing in memory. *)
Lemma drain_container (w : Generators.World T) (l : list T) (dimensions : nat)
      (rest : list T) :
  forall n it fuel outs,
    standing w it l n ->
    skipn n l = rest ->
    elements rest n dimensions = Some outs ->
    List.length rest < fuel ->
    exists it', drain' fuel w it dimensions = Some (w, it', outs, Ok E_BOUNDS).
Proof.
  induction rest as [|x rest IH]; intros n it fuel outs Hp Hs Hseq Hfuel.
  - destruct fuel as [|fuel]; [simpl in Hfuel; lia|].
    injection Hseq as <-.
    assert (Hn : n = List.length l).
    { destruct Hp as (_ & _ & _ & _ & _ & _ & Hle).
      pose proof (length_skipn n l) as Hk. rewrite Hs in Hk. simpl in Hk. lia. }
    subst n. exists it. cbn [Generators.drain].
    rewrite (GetNext_container_end w it dimensions l Hp). reflexivity.
  - destruct fuel as [|fuel]; [simpl in Hfuel; lia|].
    destruct (skipn_cons_nth T l n x rest Hs) as [Hx Hs'].
    cbn [sequence_handed_out] in Hseq.
    destruct (val <- m_itemProjector x ;; BoxObject val) as [objVal|e|] eqn:Hbox;
      try discriminate.
    destruct (elements rest (S n) dimensions) as [outs'|] eqn:Hrest; try discriminate.
    injection Hseq as <-.
    destruct (GetNext_container w it dimensions l n x objVal Hp Hx Hbox) as [Hstep Hp'].
    replace (n + 1) with (S n) in * by lia.
    destruct (IH (S n) _ fuel outs' Hp' Hs' Hrest ltac:(simpl in Hfuel; lia))
      as [it' Hd].
    exists it'. cbn [Generators.drain]. rewrite Hstep.
    change (S_OK =? S_OK)%Z with true. cbv iota. rewrite Hd. reflexivity.
Qed.

(** *** Single-pass sequences *)

Lemma sequence_of_stepped (w : Generators.World T) (g : Generators.Held T)
      (s : Generators.Sequence T) :
  Generators.sequence_of (fst (Generators.stepped w g (Some s)))
    (snd (Generators.stepped w g (Some s))) = Ok s /\
  Generators.references (fst (Generators.stepped w g (Some s)))
  = Generators.references w /\
  (by_value g ->
   fst (Generators.stepped w g (Some s)) = w /\
   by_value (snd (Generators.stepped w g (Some s)))).
Proof.
  destruct g as [a|s0]; cbn.
  - rewrite Nat.eqb_refl. split; [reflexivity|]. split; [reflexivity|].
    intros [s1 Hs1]. discriminate Hs1.
  - split; [reflexivity|]. split; [reflexivity|].
    intros _. split; [reflexivity|]. exists s. reflexivity.
Qed.

Lemma GetNext_pending (w : Generators.World T) (it : Generators.BoundIterator T)
      (dimensions : nat) (x : T) (rest : list T) (objVal : Object) (index : nat) :
  IsRandom = false ->
  reading w it (x :: rest) ->
  (val <- m_itemProjector x ;; BoxObject val) = Ok objVal ->
  exists w' it',
    GetNext' w it dimensions
    = (w', it', Ok (S_OK, handed_out junk IsRandom objVal index dimensions)) /\
    reading w' it' rest /\
    Generators.m_itBegin it' = Generators.m_itBegin it /\
    (by_value (Generators.m_generator it) ->
     w' = w /\ by_value (Generators.m_generator it')).
Proof.
  intros HR (Hl & Hn & Hs & He & Hc) Hbox.
  destruct (sequence_of_stepped w (Generators.m_generator it)
              (Generators.InputRange rest)) as (Hseq & Href & Hval).
  exists (fst (Generators.stepped w (Generators.m_generator it)
                 (Some (Generators.InputRange rest)))),
    (Generators.advanced it
       (snd (Generators.stepped w (Generators.m_generator it)
               (Some (Generators.InputRange rest))))
       (match rest with [] => Generators.Sentinel | _ => Generators.Current end)).
  split; [|split; [|split]].
  - unfold Generators.GetNext, Generators.GetNext_try, Generators.ThrowIfDetached.
    rewrite Hl. cbn [negb bind]. rewrite Hn, Hc, He.
    cbn [Generators.Cursor_eqb]. rewrite Hs. cbn [bind Generators.deref].
    destruct (m_itemProjector x) as [val|e|]; cbn [bind] in *; try discriminate.
    rewrite Hbox. cbn [bind].
    unfold Generators.CreateIndexers, Generators.FillIndexers, handed_out.
    rewrite HR. cbn [bind Generators.increment].
    destruct (Generators.stepped w (Generators.m_generator it)
                (Some (Generators.InputRange rest))) as [w' g']. reflexivity.
  - unfold reading, Generators.advanced.
    cbn [Generators.m_linkReference Generators.m_thrown Generators.m_generator
         Generators.m_itEnd Generators.m_itCur].
    rewrite Href. repeat split; assumption.
  - reflexivity.
  - exact Hval.
Qed.

Lemma GetNext_pending_end (w : Generators.World T) (it : Generators.BoundIterator T)
      (dimensions : nat) :
  reading w it [] ->
  GetNext' w it dimensions = (w, it, Ok (E_BOUNDS, cleared dimensions)).
Proof.
  intros (Hl & Hn & Hs & He & Hc).
  unfold Generators.GetNext, Generators.GetNext_try, Generators.ThrowIfDetached.
  rewrite Hl. cbn [negb bind]. rewrite Hn, Hc, He. reflexivity.
Qed.

Lemma elements_not_random (HR : IsRandom = false) (l : list T) (dimensions : nat) :
  forall i j, elements l i dimensions = elements l j dimensions.
Proof.
  induction l as [|x l IH]; intros i j; [reflexivity|].
  cbn [sequence_handed_out].
  destruct (val <- m_itemProjector x ;; BoxObject val); try reflexivity.
  rewrite (IH (S i) (S j)). unfold handed_out. rewrite HR. reflexivity.
Qed.

(** Draining a single-pass sequence hands out what it had left to pass;
    memory is as before when the iterator holds the sequence by value. *)
Lemma drain_pending (dimensions : nat) (pending : list T) :
  forall w it fuel outs index,
    IsRandom = false ->
    reading w it pending ->
    elements pending index dimensions = Some outs ->
    List.length pending < fuel ->
    exists w' it',
      drain' fuel w it dimensions = Some (w', it', outs, Ok E_BOUNDS) /\
      reading w' it' [] /\
      (by_value (Generators.m_generator it) -> w' = w).
Proof.
  induction pending as [|x rest IH]; intros w it fuel outs index HR Hp Hseq Hfuel.
  - destruct fuel as [|fuel]; [simpl in Hfuel; lia|].
    injection Hseq as <-. exists w, it. cbn [Generators.drain].
    rewrite (GetNext_pending_end w it dimensions Hp).
    repeat split; try apply Hp.
  - destruct fuel as [|fuel]; [simpl in Hfuel; lia|].
    cbn [sequence_handed_out] in Hseq.
    destruct (val <- m_itemProjector x ;; BoxObject val) as [objVal|e|] eqn:Hbox;
      try discriminate.
    destruct (elements rest (S index) dimensions) as [outs'|] eqn:Hrest;
      try discriminate.
    injection Hseq as <-.
    destruct (GetNext_pending w it dimensions x rest objVal index HR Hp Hbox)
      as (w1 & it1 & Hstep & Hp1 & _ & Hv1).
    destruct (IH w1 it1 fuel outs' (S index) HR Hp1 Hrest ltac:(simpl in Hfuel; lia))
      as (w' & it' & Hd & Hp' & Hv').
    exists w', it'. cbn [Generators.drain]. rewrite Hstep.
    change (S_OK =? S_OK)%Z with true. cbv iota. rewrite Hd.
    split; [reflexivity|]. split; [exact Hp'|].
    intros Hv. destruct (Hv1 Hv) as [-> Hv1']. apply Hv'. exact Hv1'.
Qed.

(** What [GetIterator] returns on a live adapter whose generator
    projection returns [g], which designates [s]. *)
Lemma GetIterator_acquires (linkReference : DataModelReference)
      (w : Generators.World T) (obj : Object) (g : Generators.Held T)
      (s : Generators.Sequence T) :
  TypeIsLive (Generators.references w linkReference) = true ->
  m_genProjector w obj = Ok g ->
  Generators.sequence_of w g = Ok s ->
  GetIterator' linkReference w obj
  = Ok (S_OK, Some {| Generators.m_generator := g;
                      Generators.m_thrown := None;
                      Generators.m_itBegin := Generators.begin s;
                      Generators.m_itEnd := Generators.end_ s;
                      Generators.m_itCur := Generators.begin s;
                      Generators.m_linkReference := linkReference |}).
Proof.
  intros Hl Hg Hs.
  unfold Generators.GetIterator, Generators.GetIterator_try, Generators.ThrowIfDetached.
  rewrite Hl. cbn [negb bind]. rewrite Hg. cbn [bind]. rewrite Hs. reflexivity.
Qed.

(** The drain of the iterator [GetIterator] returns, for a sequence
    that can be traversed again: memory is as before. *)
Lemma drain_acquired (linkReference : DataModelReference)
      (w : Generators.World T) (g : Generators.Held T) (s : Generators.Sequence T)
      (dimensions fuel : nat) (outs : list GetNextOut) :
  TypeIsLive (Generators.references w linkReference) = true ->
  Generators.sequence_of w g = Ok s ->
  traversable_again g s ->
  (IsRandom = true -> exists l, s = Generators.Container l) ->
  elements (items s) 0 dimensions = Some outs ->
  List.length (items s) < fuel ->
  exists it',
    drain' fuel w {| Generators.m_generator := g;
                     Generators.m_thrown := None;
                     Generators.m_itBegin := Generators.begin s;
                     Generators.m_itEnd := Generators.end_ s;
                     Generators.m_itCur := Generators.begin s;
                     Generators.m_linkReference := linkReference |} dimensions
    = Some (w, it', outs, Ok E_BOUNDS).
Proof.
  intros Hl Hs Hagain Hrandom Hseq Hfuel.
  destruct s as [l|pending].
  - cbn [items] in *.
    apply (drain_container w l dimensions l 0); try assumption; try reflexivity.
    unfold standing. cbn. repeat split; try assumption. lia.
  - cbn [items] in *.
    assert (HR : IsRandom = false).
    { destruct IsRandom; [|reflexivity].
      destruct (Hrandom eq_refl) as [l Hl']. discriminate Hl'. }
    assert (Hv : by_value g).
    { destruct Hagain as [[l Hl']| ->]; [discriminate Hl'|].
      eexists. reflexivity. }
    destruct (drain_pending dimensions pending w
                {| Generators.m_generator := g;
                   Generators.m_thrown := None;
                   Generators.m_itBegin := Generators.begin (Generators.InputRange pending);
                   Generators.m_itEnd := Generators.end_ (Generators.InputRange pending);
                   Generators.m_itCur := Generators.begin (Generators.InputRange pending);
                   Generators.m_linkReference := linkReference |}
                fuel outs 0 HR)
      as (w' & it' & Hd & _ & Hw); try assumption.
    + unfold reading. cbn. repeat split; assumption.
    + exists it'. rewrite Hd. rewrite (Hw Hv). reflexivity.
Qed.


(** *** Reset *)

Lemma steps_pending (dimensions : nat) (passed : list T) :
  forall w it rest index outs,
    IsRandom = false ->
    reading w it (passed ++ rest) ->
    elements passed index dimensions = Some outs ->
    reading (fst (steps' (List.length passed) w it dimensions))
            (snd (steps' (List.length passed) w it dimensions)) rest /\
    Generators.m_itBegin (snd (steps' (List.length passed) w it dimensions))
    = Generators.m_itBegin it.
Proof.
  induction passed as [|x passed IH]; intros w it rest index outs HR Hp Hseq.
  - split; [exact Hp | reflexivity].
  - cbn [sequence_handed_out] in Hseq.
    destruct (val <- m_itemProjector x ;; BoxObject val) as [objVal|e|] eqn:Hbox;
      try discriminate.
    destruct (elements passed (S index) dimensions) as [outs'|] eqn:Hrest;
      try discriminate.
    cbn [app] in Hp.
    destruct (GetNext_pending w it dimensions x (passed ++ rest) objVal index HR Hp Hbox)
      as (w1 & it1 & Hstep & Hp1 & Hb1 & _).
    cbn [List.length Generators.steps]. rewrite Hstep.
    destruct (IH w1 it1 rest (S index) outs' HR Hp1 Hrest) as [Hr Hb].
    split; [exact Hr|]. rewrite Hb. exact Hb1.
Qed.


End Regeneration.



